(** * Argument Analyzer: request dispatch and response normalisation

    A shallow embedding of [server/aiService.ts] (the three provider
    paths and their shared zod schema), of [client/src/lib/api.ts]
    (the caller that stores a result in the local history) and of the
    theme button of [client/src/components/Header.tsx], together with
    the parts of the JavaScript run time these functions rely on:
    JavaScript values, IEEE-754 binary64 numbers, [JSON.parse], property
    access, [ToString], and the zod combinators used by the schema.

    A call runs in a world that fixes [process.env] and the answers of the
    providers; it returns or throws, and records the outbound calls it
    makes.  The [await]s of the source run in sequence, so they leave no
    trace in the model; the [console.error] logging of the [catch] clauses
    is left out. *)

From Stdlib Require Import ZArith String Ascii List Bool Lia DecimalString.
From Stdlib Require Import SpecFloat.
From stdpp Require Import base option strings list gmap.

#[local] Set Warnings "-register-all".
#[local] Open Scope string_scope.

(* ===================================================================== *)
(** ** JavaScript numbers: IEEE-754 binary64 *)
(* ===================================================================== *)

Module Number.

Definition prec : Z := 53.
Definition emax : Z := 1024.

(** The Number nearest to the integer [n] (ties to even). *)
Definition of_Z (n : Z) : spec_float :=
  binary_normalize prec emax n 0 false.

(** The Number nearest to [(-1)^neg * m * 10^e], the value denoted by a
    decimal literal with digits [m] and decimal exponent [e].  One
    rounding only: the integer [m * 10^e] is rounded when [0 <= e], the
    quotient [m / 10^(-e)] otherwise. *)
Definition of_decimal (neg : bool) (m : N) (e : Z) : spec_float :=
  match m with
  | N0 => S754_zero neg
  | Npos p =>
      if (0 <=? e)%Z
      then binary_normalize prec emax
             (cond_Zopp neg (Zpos p * 10 ^ e)%Z) 0 neg
      else SFdiv prec emax (S754_finite neg p 0)
             (S754_finite false (Z.to_pos (10 ^ (- e))) 0)
  end.

(** [x < y] and [x > y] of JavaScript: false as soon as one side is NaN. *)
Definition lt (x y : spec_float) : bool := SFltb x y.
Definition gt (x y : spec_float) : bool := SFltb y x.

(** [Number.isNaN]. *)
Definition isNaN (x : spec_float) : bool :=
  match x with S754_nan => true | _ => false end.

(** Is [x] one of [+0], [-0]? *)
Definition is_zero (x : spec_float) : bool :=
  match x with S754_zero _ => true | _ => false end.

(** [Number.isInteger]. *)
Definition isInteger (x : spec_float) : bool :=
  match x with
  | S754_zero _ => true
  | S754_finite _ m e =>
      if (0 <=? e)%Z then true
      else (Zpos m mod 2 ^ (- e) =? 0)%Z
  | _ => false
  end.

(** The value of a finite Number scaled by [2^1074], the inverse of the
    least positive Number: an exact integer for every binary64 value. *)
Definition scaled (x : spec_float) : option Z :=
  match x with
  | S754_zero _ => Some 0%Z
  | S754_finite s m e => Some (cond_Zopp s (Zpos m * 2 ^ (e + 1074)))%Z
  | _ => None
  end.

(** Are [x] and [y] the same datum (so [+0] and [-0] differ)? *)
Definition eqb (x y : spec_float) : bool :=
  match x, y with
  | S754_zero a, S754_zero b => Bool.eqb a b
  | S754_infinity a, S754_infinity b => Bool.eqb a b
  | S754_nan, S754_nan => true
  | S754_finite a m e, S754_finite b m' e' =>
      Bool.eqb a b && Pos.eqb m m' && Z.eqb e e'
  | _, _ => false
  end.

Section ToString.
#[local] Open Scope Z_scope.

(** Is [num / den < 10^n]? *)
Definition below_pow10 (num den n : Z) : bool :=
  if 0 <=? n then num <? den * 10 ^ n else num * 10 ^ (- n) <? den.

(** The least [n], from [n] on, with [num / den < 10^n]. *)
Fixpoint magnitude (fuel : nat) (num den n : Z) : Z :=
  match fuel with
  | O => n
  | S f =>
      if below_pow10 num den n then n
      else magnitude f num den (n + 1)
  end.

(** The shortest digits [s], with their exponent [n], such that
    [s * 10^(n-k)] reads back as [x] ([k] the number of digits of [s]),
    trying [k], [k+1], ...; of two candidates the one nearer to
    [num / den], the even one on a tie. *)
Fixpoint shortest (fuel : nat) (x : spec_float) (num den n0 k : Z)
    : Z * Z :=
  match fuel with
  | O => (0, n0)
  | S f =>
      let j := k - n0 in
      let num' := if 0 <=? j then num * 10 ^ j else num in
      let den' := if 0 <=? j then den else den * 10 ^ (- j) in
      let lo := num' / den' in
      let r := num' mod den' in
      let hi := lo + 1 in
      let lo_ok := eqb (of_decimal false (Z.to_N lo) (- j)) x in
      let hi_ok := eqb (of_decimal false (Z.to_N hi) (- j)) x in
      let nearer_hi :=
        match 2 * r ?= den' with
        | Lt => false
        | Gt => true
        | Eq => Z.odd lo
        end in
      if lo_ok && (negb hi_ok || negb nearer_hi) then (lo, n0)
      else if hi_ok then
        if hi =? 10 ^ k then (1, n0 + 1) else (hi, n0)
      else shortest f x num den n0 (k + 1)
  end.

Definition decimal (n : Z) : string :=
  NilZero.string_of_uint (N.to_uint (Z.to_N n)).

Fixpoint zeros (n : nat) : string :=
  match n with O => EmptyString | S n' => String "0" (zeros n') end.

(** Steps 7 to 11 of [Number::toString]: the digits [ds] of [s] laid
    out around the decimal point at [n]. *)
Definition layout (ds : string) (n : Z) : string :=
  let k := Z.of_nat (String.length ds) in
  if (k <=? n) && (n <=? 21) then
    (ds ++ zeros (Z.to_nat (n - k)))%string
  else if (0 <? n) && (n <=? 21) then
    (substring 0 (Z.to_nat n) ds ++ "."
     ++ substring (Z.to_nat n) (Z.to_nat (k - n)) ds)%string
  else if (-6 <? n) && (n <=? 0) then
    ("0." ++ zeros (Z.to_nat (- n)) ++ ds)%string
  else
    let e := n - 1 in
    let sign := if e <? 0 then "-"%string else "+"%string in
    let mantissa :=
      if k =? 1 then ds
      else (substring 0 1 ds ++ "."
            ++ substring 1 (Z.to_nat (k - 1)) ds)%string in
    (mantissa ++ "e" ++ sign ++ decimal (Z.abs e))%string.

Definition toString_pos (m : positive) (e : Z) : string :=
  let num := Zpos m * 2 ^ Z.max e 0 in
  let den := 2 ^ Z.max (- e) 0 in
  let n0 := magnitude 640 num den (-323) in
  let '(s, n) := shortest 17 (S754_finite false m e) num den n0 1 in
  layout (decimal s) n.

(** [Number::toString(x)] in radix 10. *)
Definition toString (x : spec_float) : string :=
  match x with
  | S754_nan => "NaN"
  | S754_zero _ => "0"
  | S754_infinity false => "Infinity"
  | S754_infinity true => "-Infinity"
  | S754_finite false m e => toString_pos m e
  | S754_finite true m e => ("-" ++ toString_pos m e)%string
  end.
End ToString.
End Number.

(* ===================================================================== *)
(** ** JavaScript values and errors *)
(* ===================================================================== *)

(** The values a reply can hold: what [JSON.parse] builds, and
    [undefined], which property access adds.  An object is a finite map
    from its own property names to their values.  A string is the
    sequence of bytes of its UTF-8 text. *)
Inductive JsValue : Type :=
| JUndefined
| JNull
| JBool (b : bool)
| JNumber (x : spec_float)
| JString (s : string)
| JArray (xs : list JsValue)
| JObject (props : gmap string JsValue).

(** What a function of the source can throw.  [SyntaxError] and
    [TypeError] are raised by the run time (their engine-made messages are
    not part of the model), [ZodError] by a schema's [parse] (the source
    only tests [instanceof z.ZodError], so the issue list is left out),
    [Error] by [new Error(message)]. *)
Inductive JsError : Type :=
| Error (message : string)
| TypeError
| SyntaxError
| ZodError.

#[global] Instance JsError_eq_dec : EqDecision JsError.
Proof. solve_decision. Defined.

(** A computation that returns or throws. *)
Definition Completion (A : Type) : Type := JsError + A.

(* ===================================================================== *)
(** ** [JSON.parse] *)
(* ===================================================================== *)

Module JSON.

(** The result of reading one construct off the front of a text. *)
Inductive Parsed (A : Type) : Type :=
| Ok (a : A) (rest : string)
| Bad
| OutOfFuel.
Arguments Ok {A} a rest.
Arguments Bad {A}.
Arguments OutOfFuel {A}.

Definition pmap {A B : Type} (f : A -> B) (p : Parsed A) : Parsed B :=
  match p with
  | Ok a rest => Ok (f a) rest
  | Bad => Bad
  | OutOfFuel => OutOfFuel
  end.

Definition code (c : ascii) : N := N_of_ascii c.

(** JSON white space: tab, line feed, carriage return, space. *)
Definition is_ws (c : ascii) : bool :=
  (code c =? 9)%N || (code c =? 10)%N || (code c =? 13)%N
  || (code c =? 32)%N.

Fixpoint skip_ws (s : string) : string :=
  match s with
  | String c r => if is_ws c then skip_ws r else s
  | EmptyString => s
  end.

Definition digit_of (c : ascii) : option N :=
  if (48 <=? code c)%N && (code c <=? 57)%N
  then Some (code c - 48)%N else None.

Definition hex_of (c : ascii) : option N :=
  if (48 <=? code c)%N && (code c <=? 57)%N then Some (code c - 48)%N
  else if (65 <=? code c)%N && (code c <=? 70)%N then Some (code c - 55)%N
  else if (97 <=? code c)%N && (code c <=? 102)%N then Some (code c - 87)%N
  else None.

Fixpoint strip_prefix (p s : string) : option string :=
  match p, s with
  | EmptyString, _ => Some s
  | String a p', String b s' =>
      if Ascii.eqb a b then strip_prefix p' s' else None
  | String _ _, EmptyString => None
  end.

(** *** Numbers *)

(** A maximal run of decimal digits: the number they extend [acc] to,
    how many there were, and what follows them. *)
Fixpoint digits (s : string) (acc : N) (count : nat) : N * nat * string :=
  match s with
  | String c r =>
      match digit_of c with
      | Some d => digits r (10 * acc + d)%N (S count)
      | None => (acc, count, s)
      end
  | EmptyString => (acc, count, s)
  end.

(** The integer part: a single [0], or a non-zero digit and more digits. *)
Definition int_part (s : string) : option (N * string) :=
  match s with
  | String c r =>
      match digit_of c with
      | Some 0%N => Some (0%N, r)
      | Some _ => let '(m, _, r') := digits s 0 0 in Some (m, r')
      | None => None
      end
  | EmptyString => None
  end.

(** The optional fraction: the digits extend the mantissa. *)
Definition frac_part (m : N) (s : string) : option (N * nat * string) :=
  match s with
  | String c r =>
      if Ascii.eqb c "." then
        let '(m', n, r') := digits r m 0 in
        match n with O => None | S _ => Some (m', n, r') end
      else Some (m, O, s)
  | EmptyString => Some (m, O, s)
  end.

(** The optional exponent. *)
Definition exp_part (s : string) : option (Z * string) :=
  match s with
  | String c r =>
      if Ascii.eqb c "e" || Ascii.eqb c "E" then
        let '(neg, r1) :=
          match r with
          | String sg r0 =>
              if Ascii.eqb sg "-" then (true, r0)
              else if Ascii.eqb sg "+" then (false, r0)
              else (false, r)
          | EmptyString => (false, r)
          end in
        let '(e, n, r2) := digits r1 0 0 in
        match n with
        | O => None
        | S _ => Some (cond_Zopp neg (Z.of_N e), r2)
        end
      else Some (0%Z, s)
  | EmptyString => Some (0%Z, s)
  end.

Definition parse_number (s : string) : Parsed spec_float :=
  let '(neg, s1) :=
    match s with
    | String c r => if Ascii.eqb c "-" then (true, r) else (false, s)
    | EmptyString => (false, s)
    end in
  match int_part s1 with
  | None => Bad
  | Some (m, s2) =>
      match frac_part m s2 with
      | None => Bad
      | Some (m', nfrac, s3) =>
          match exp_part s3 with
          | None => Bad
          | Some (e, s4) =>
              Ok (Number.of_decimal neg m' (e - Z.of_nat nfrac)) s4
          end
      end
  end.

(** *** Strings *)

Definition byte (n : N) : ascii := ascii_of_N n.

(** The UTF-8 bytes of a code point (a lone surrogate is written in the
    same three-byte form). *)
Definition utf8 (cp : N) : string :=
  if (cp <? 128)%N then String (byte cp) EmptyString
  else if (cp <? 2048)%N then
    String (byte (192 + cp / 64)) (String (byte (128 + cp mod 64)) EmptyString)
  else if (cp <? 65536)%N then
    String (byte (224 + cp / 4096))
      (String (byte (128 + (cp / 64) mod 64))
         (String (byte (128 + cp mod 64)) EmptyString))
  else
    String (byte (240 + cp / 262144))
      (String (byte (128 + (cp / 4096) mod 64))
         (String (byte (128 + (cp / 64) mod 64))
            (String (byte (128 + cp mod 64)) EmptyString))).

Definition hex4 (a b c d : ascii) : option N :=
  match hex_of a, hex_of b, hex_of c, hex_of d with
  | Some x, Some y, Some z, Some w =>
      Some (4096 * x + 256 * y + 16 * z + w)%N
  | _, _, _, _ => None
  end.

Definition is_high_surrogate (u : N) : bool :=
  (55296 <=? u)%N && (u <=? 56319)%N.
Definition is_low_surrogate (u : N) : bool :=
  (56320 <=? u)%N && (u <=? 57343)%N.

(** A low surrogate escape [\uXXXX] at the front of [s], if there is
    one, with what follows it. *)
Definition low_surrogate_escape (s : string) : option (N * string) :=
  match s with
  | String b (String u (String h1 (String h2 (String h3 (String h4 r))))) =>
      if Ascii.eqb b "\" && Ascii.eqb u "u" then
        match hex4 h1 h2 h3 h4 with
        | Some l => if is_low_surrogate l then Some (l, r) else None
        | None => None
        end
      else None
  | _ => None
  end.

Definition simple_escape (c : ascii) : option ascii :=
  if Ascii.eqb c (byte 34) then Some (byte 34)
  else if Ascii.eqb c "\" then Some "\"%char
  else if Ascii.eqb c "/" then Some "/"%char
  else if Ascii.eqb c "b" then Some (byte 8)
  else if Ascii.eqb c "f" then Some (byte 12)
  else if Ascii.eqb c "n" then Some (byte 10)
  else if Ascii.eqb c "r" then Some (byte 13)
  else if Ascii.eqb c "t" then Some (byte 9)
  else None.

Definition prepend (pre : string) (p : Parsed string) : Parsed string :=
  pmap (String.append pre) p.

(** The characters of a string literal after its opening quote, up to
    and including the closing quote. *)
Fixpoint parse_chars (s : string) : Parsed string :=
  match s with
  | EmptyString => Bad
  | String c r =>
      if Ascii.eqb c (byte 34) then Ok EmptyString r
      else if Ascii.eqb c "\" then
        match r with
        | EmptyString => Bad
        | String e r1 =>
            if Ascii.eqb e "u" then
              match r1 with
              | String h1 (String h2 (String h3 (String h4 r2))) =>
                  match hex4 h1 h2 h3 h4 with
                  | None => Bad
                  | Some u =>
                      if is_high_surrogate u then
                        match r2 with
                        | String b (String u' (String l1 (String l2
                            (String l3 (String l4 r3))))) =>
                            match low_surrogate_escape r2 with
                            | Some (l, _) =>
                                prepend
                                  (utf8 (65536 + (u - 55296) * 1024
                                         + (l - 56320))%N)
                                  (parse_chars r3)
                            | None => prepend (utf8 u) (parse_chars r2)
                            end
                        | _ => prepend (utf8 u) (parse_chars r2)
                        end
                      else prepend (utf8 u) (parse_chars r2)
                  end
              | _ => Bad
              end
            else
              match simple_escape e with
              | Some x => prepend (String x EmptyString) (parse_chars r1)
              | None => Bad
              end
        end
      else if (code c <? 32)%N then Bad
      else prepend (String c EmptyString) (parse_chars r)
  end.

(** *** Values *)

Definition is_number_start (c : ascii) : bool :=
  Ascii.eqb c "-"
  || match digit_of c with Some _ => true | None => false end.

Definition parse_literal (s : string) : Parsed JsValue :=
  match strip_prefix "true" s with
  | Some r => Ok (JBool true) r
  | None =>
      match strip_prefix "false" s with
      | Some r => Ok (JBool false) r
      | None =>
          match strip_prefix "null" s with
          | Some r => Ok JNull r
          | None => Bad
          end
      end
  end.

(** [parse_value] reads a value that starts at the front of the text;
    [parse_elements] the elements of a non-empty array and its closing
    bracket; [parse_members] the members of a non-empty object and its
    closing brace, a later member replacing an earlier one of the same
    name. *)
Fixpoint parse_value (fuel : nat) (s : string) : Parsed JsValue :=
  match fuel with
  | O => OutOfFuel
  | S f =>
      match s with
      | EmptyString => Bad
      | String c r =>
          if Ascii.eqb c "{" then
            match skip_ws r with
            | EmptyString => Bad
            | String c' r' =>
                if Ascii.eqb c' "}" then Ok (JObject ∅) r'
                else pmap JObject (parse_members f (String c' r') ∅)
            end
          else if Ascii.eqb c "[" then
            match skip_ws r with
            | EmptyString => Bad
            | String c' r' =>
                if Ascii.eqb c' "]" then Ok (JArray []) r'
                else pmap JArray (parse_elements f (String c' r'))
            end
          else if Ascii.eqb c (byte 34) then pmap JString (parse_chars r)
          else if is_number_start c then pmap JNumber (parse_number s)
          else parse_literal s
      end
  end
with parse_elements (fuel : nat) (s : string) : Parsed (list JsValue) :=
  match fuel with
  | O => OutOfFuel
  | S f =>
      match parse_value f (skip_ws s) with
      | Ok v r =>
          match skip_ws r with
          | EmptyString => Bad
          | String c r' =>
              if Ascii.eqb c "," then pmap (cons v) (parse_elements f r')
              else if Ascii.eqb c "]" then Ok [v] r'
              else Bad
          end
      | Bad => Bad
      | OutOfFuel => OutOfFuel
      end
  end
with parse_members (fuel : nat) (s : string) (acc : gmap string JsValue)
    : Parsed (gmap string JsValue) :=
  match fuel with
  | O => OutOfFuel
  | S f =>
      match skip_ws s with
      | EmptyString => Bad
      | String q r =>
          if Ascii.eqb q (byte 34) then
            match parse_chars r with
            | Ok k r1 =>
                match skip_ws r1 with
                | EmptyString => Bad
                | String c r2 =>
                    if Ascii.eqb c ":" then
                      match parse_value f (skip_ws r2) with
                      | Ok v r3 =>
                          match skip_ws r3 with
                          | EmptyString => Bad
                          | String d r4 =>
                              if Ascii.eqb d "," then
                                parse_members f r4 (<[k:=v]> acc)
                              else if Ascii.eqb d "}" then
                                Ok (<[k:=v]> acc) r4
                              else Bad
                          end
                      | Bad => Bad
                      | OutOfFuel => OutOfFuel
                      end
                    else Bad
                end
            | Bad => Bad
            | OutOfFuel => OutOfFuel
            end
          else Bad
      end
  end.

(** [JSON.parse(text)] for a string [text]: one value between optional
    white space, or a [SyntaxError].  The fuel bounds the number of
    nested calls; twice the length of the text is always enough. *)
Definition parse (text : string) : Completion JsValue :=
  match parse_value (2 * String.length text + 1) (skip_ws text) with
  | Ok v r =>
      match skip_ws r with
      | EmptyString => inr v
      | String _ _ => inl SyntaxError
      end
  | Bad => inl SyntaxError
  | OutOfFuel => inl SyntaxError
  end.

End JSON.

(** JSON texts are written with ['] for the double quote. *)
Fixpoint dq (s : string) : string :=
  match s with
  | EmptyString => EmptyString
  | String c r => String (if Ascii.eqb c "'" then JSON.byte 34 else c) (dq r)
  end.


(* ===================================================================== *)
(** ** Operations of the run time on values *)
(* ===================================================================== *)

Definition typeof_number (v : JsValue) : bool :=
  match v with JNumber _ => true | _ => false end.

(** [!v] is [negb (truthy v)]: the falsy values are [undefined], [null],
    [false], [+0], [-0], [NaN] and the empty string. *)
Definition truthy (v : JsValue) : bool :=
  match v with
  | JUndefined | JNull => false
  | JBool b => b
  | JNumber x => negb (Number.is_zero x || Number.isNaN x)
  | JString s => negb (String.eqb s "")
  | JArray _ | JObject _ => true
  end.

(** [a || b]. *)
Definition js_or (a b : JsValue) : JsValue := if truthy a then a else b.

(** [v.name] for the property names the source reads ([choices],
    [message], [content], [candidates], [parts], [text], [error]): none of
    them is defined on a built-in prototype, so the lookup finds an own
    property of an object or [undefined]; on [undefined] and [null] it
    throws. *)
Definition get (v : JsValue) (name : string) : Completion JsValue :=
  match v with
  | JUndefined | JNull => inl TypeError
  | JObject props => inr (default JUndefined (props !! name))
  | _ => inr JUndefined
  end.

(** [v[0]]: the first element of an array, the first character of a
    string (its first byte here: the source goes on to read a property of
    it, which no string has), the property ["0"] of an object. *)
Definition get0 (v : JsValue) : Completion JsValue :=
  match v with
  | JUndefined | JNull => inl TypeError
  | JArray xs => inr (default JUndefined (head xs))
  | JString (String c _) => inr (JString (String c EmptyString))
  | JObject props => inr (default JUndefined (props !! "0"))
  | _ => inr JUndefined
  end.

Definition nullish (v : JsValue) : bool :=
  match v with JUndefined | JNull => true | _ => false end.

(** [v?.name] and [v?.[0]]. *)
Definition get_opt (v : JsValue) (name : string) : JsValue :=
  match get v name with inr x => x | inl _ => JUndefined end.
Definition get0_opt (v : JsValue) : JsValue :=
  match get0 v with inr x => x | inl _ => JUndefined end.

(** [ToString(v)], as [JSON.parse] and a template literal apply it to a
    value that is not yet a string.  An array joins its elements with
    commas ([undefined] and [null] as the empty string); an object made
    by [JSON.parse] prints as [[object Object]], unless an own property
    named [toString] hides the method, and then the conversion throws:
    no property of such an object is callable. *)
Fixpoint ToString (v : JsValue) : Completion string :=
  match v with
  | JUndefined => inr "undefined"
  | JNull => inr "null"
  | JBool true => inr "true"
  | JBool false => inr "false"
  | JNumber x => inr (Number.toString x)
  | JString s => inr s
  | JArray xs =>
      (fix join (first : bool) (l : list JsValue) : Completion string :=
         match l with
         | [] => inr ""
         | x :: l' =>
             match (if nullish x then inr "" else ToString x),
                   join false l' with
             | inr a, inr b => inr ((if first then "" else ",") +:+ a +:+ b)
             | inl e, _ => inl e
             | _, inl e => inl e
             end
         end) true xs
  | JObject props =>
      match props !! "toString" with
      | Some _ => inl TypeError
      | None => inr "[object Object]"
      end
  end.

(** [JSON.parse(v)] for any value: the text parsed is [ToString(v)]. *)
Definition JSON_parse (v : JsValue) : Completion JsValue :=
  match ToString v with
  | inr text => JSON.parse text
  | inl e => inl e
  end.

(** [content.match(/\{[\s\S]*\}/)] on a string: the match runs from the
    first [{] to the last [}] after it; [None] is the [null] of no match. *)
Fixpoint from_first_open (s : string) : option string :=
  match s with
  | EmptyString => None
  | String c r => if Ascii.eqb c "{" then Some s else from_first_open r
  end.

(** The longest prefix of [s] that ends in [}]. *)
Fixpoint upto_last_close (s : string) : option string :=
  match s with
  | EmptyString => None
  | String c r =>
      match upto_last_close r with
      | Some p => Some (String c p)
      | None => if Ascii.eqb c "}" then Some (String c EmptyString) else None
      end
  end.

Definition match_braces (s : string) : option string :=
  match from_first_open s with
  | Some t => upto_last_close t
  | None => None
  end.

(* ===================================================================== *)
(** ** The zod combinators of the schema *)
(* ===================================================================== *)

Module z.

(** [.min(v)] and [.max(v)] of a number schema, both inclusive. *)
Inductive NumberCheck : Type :=
| min (value : spec_float)
| max (value : spec_float).

Inductive Schema : Type :=
| string
| number (checks : list NumberCheck)
| array (element : Schema)
| object (shape : list (String.string * Schema)).

(** A check fails when the number is below the minimum ([too_small]) or
    above the maximum ([too_big]). *)
Definition check_ok (x : spec_float) (c : NumberCheck) : bool :=
  match c with
  | min value => negb (Number.lt x value)
  | max value => negb (Number.gt x value)
  end.

Fixpoint all_some {A : Type} (l : list (option A)) : option (list A) :=
  match l with
  | [] => Some []
  | Some x :: l' =>
      match all_some l' with Some xs => Some (x :: xs) | None => None end
  | None :: _ => None
  end.

(** [schema.safeParse(v)]: the parsed value, or [None] when there is an
    issue.  A string schema takes strings; a number schema takes numbers
    other than [NaN] that pass every check; an array schema takes arrays
    whose elements all parse; an object schema takes objects, parses the
    property of each key of its shape (a missing property is
    [undefined]) and returns an object with exactly those keys: keys that
    the shape does not name are stripped. *)
Fixpoint safeParse (schema : Schema) (v : JsValue) : option JsValue :=
  match schema with
  | string =>
      match v with JString _ => Some v | _ => None end
  | number checks =>
      match v with
      | JNumber x =>
          if Number.isNaN x then None
          else if forallb (check_ok x) checks then Some v else None
      | _ => None
      end
  | array element =>
      match v with
      | JArray xs => JArray <$> all_some (map (safeParse element) xs)
      | _ => None
      end
  | object shape =>
      match v with
      | JObject props =>
          JObject <$>
            (fix fields (sh : list (String.string * Schema))
               : option (gmap String.string JsValue) :=
               match sh with
               | [] => Some ∅
               | (key, s) :: sh' =>
                   match safeParse s (default JUndefined (props !! key)),
                         fields sh' with
                   | Some x, Some m => Some (<[key:=x]> m)
                   | _, _ => None
                   end
               end) shape
      | _ => None
      end
  end.

(** [schema.parse(v)] returns the value or throws a [ZodError]. *)
Definition parse (schema : Schema) (v : JsValue) : Completion JsValue :=
  match safeParse schema v with
  | Some r => inr r
  | None => inl ZodError
  end.

End z.

(* ===================================================================== *)
(** ** The world around a call and the monad of the server code *)
(* ===================================================================== *)

(** The second argument of [fetch].  [body] is the value the source hands
    to [JSON.stringify]; the text sent is its serialisation. *)
Record RequestInit : Type := {
  method : string;
  headers : list (string * string);
  body : JsValue
}.

(** The reply of [fetch]: the [ok] flag, the status line and the text of
    the body, which [response.json()] parses. *)
Record Response : Type := {
  ok : bool;
  statusText : string;
  bodyText : string
}.

(** An outbound call: [openai.chat.completions.create(params)] on a client
    made with [apiKey], or [fetch(url, init)]. *)
Inductive Request : Type :=
| OpenAI_create (apiKey : string) (params : JsValue)
| Fetch (url : string) (init : RequestInit).

(** What a call runs in: [process.env], and how the providers answer. *)
Record World : Type := {
  env : gmap string string;
  openai_chat_completions_create : string -> JsValue -> Completion JsValue;
  fetch : string -> RequestInit -> Completion Response
}.

(** Server code returns or throws, and records its outbound calls. *)
Definition M (A : Type) : Type := list Request -> Completion A * list Request.

Definition ret {A : Type} (a : A) : M A := fun calls => (inr a, calls).
Definition throw {A : Type} (e : JsError) : M A := fun calls => (inl e, calls).
Definition bind {A B : Type} (m : M A) (k : A -> M B) : M B :=
  fun calls =>
    match m calls with
    | (inr a, calls') => k a calls'
    | (inl e, calls') => (inl e, calls')
    end.
Definition lift {A : Type} (c : Completion A) : M A := fun calls => (c, calls).
Definition try_catch {A : Type} (m : M A) (handler : JsError -> M A) : M A :=
  fun calls =>
    match m calls with
    | (inl e, calls') => handler e calls'
    | r => r
    end.

(** One outbound call: recorded, then answered by the world. *)
Definition call_openai (w : World) (apiKey : string) (params : JsValue)
    : M JsValue :=
  fun calls =>
    (openai_chat_completions_create w apiKey params,
     (calls ++ [OpenAI_create apiKey params])%list).
Definition call_fetch (w : World) (url : string) (init : RequestInit)
    : M Response :=
  fun calls => (fetch w url init, (calls ++ [Fetch url init])%list).

(** A finished call: its completion and the outbound calls it made. *)
Definition run {A : Type} (m : M A) : Completion A * list Request := m [].

Declare Scope js_scope.
Delimit Scope js_scope with js.
Notation "'let*' x := m 'in' k" := (bind m (fun x => k))
  (at level 10, x name, m at level 100, k at level 200) : js_scope.
#[local] Open Scope js_scope.

(* ===================================================================== *)
(** ** server/aiService.ts *)
(* ===================================================================== *)

Definition LOGOS_SYSTEM_PROMPT : string := "
You are 'Logos', an expert AI assistant in logic, rhetoric, and critical thinking. Your purpose is to dissect arguments provided by the user, revealing their structure, emotional tone, logical soundness, strengths, and weaknesses.

When presented with the user's text:

Deconstruct: Isolate the core Claim (Conclusion) and the foundational Premises (Reasons/Evidence) provided in the text. Present the premises as a list of strings.

Emotional Tone Analysis & Scoring: Analyze the emotional tone conveyed by the text. Identify the dominant emotions and rate the intensity of the following core emotions on a scale of 1 to 5 (where 1 = Very Low/Absent, 2 = Low, 3 = Moderate, 4 = High, 5 = Very High):

Anger: [Score 1-5]
Sadness: [Score 1-5]
Joy/Positive: [Score 1-5]
Fear/Anxiety: [Score 1-5]
Surprise: [Score 1-5]

Output Format: Return your analysis strictly in JSON format. The JSON object should have keys: claim (string), premises (array of strings), and emotions (an object with keys Anger, Sadness, Joy, Fear, Surprise, each having a numerical score 1-5).
".

Definition score : z.Schema :=
  z.number [z.min (Number.of_Z 1); z.max (Number.of_Z 5)].

Definition aiResponseSchema : z.Schema :=
  z.object
    [ ("claim", z.string);
      ("premises", z.array z.string);
      ("emotions",
        z.object
          [ ("Anger", score);
            ("Sadness", score);
            ("Joy", score);
            ("Fear", score);
            ("Surprise", score) ]) ].

(** [process.env.NAME] when it is truthy: set and not empty. *)
Definition credential (w : World) (name : string) : option string :=
  match env w !! name with
  | Some key => if String.eqb key "" then None else Some key
  | None => None
  end.

(** The [messages] of a chat completion request. *)
Definition chat_messages (text : string) : JsValue :=
  JArray
    [ JObject {[ "role" := JString "system";
                 "content" := JString LOGOS_SYSTEM_PROMPT ]};
      JObject {[ "role" := JString "user"; "content" := JString text ]} ].

Definition chat_params (model text : string) : JsValue :=
  JObject {[ "model" := JString model;
             "messages" := chat_messages text;
             "response_format" :=
               JObject {[ "type" := JString "json_object" ]} ]}.

(** [response.choices[0].message.content]: every step throws on
    [undefined] and [null]. *)
Definition openai_content (response : JsValue) : Completion JsValue :=
  match get response "choices" with
  | inl e => inl e
  | inr choices =>
      match get0 choices with
      | inl e => inl e
      | inr choice =>
          match get choice "message" with
          | inl e => inl e
          | inr message => get message "content"
          end
      end
  end.

(** [responseData.choices?.[0]?.message?.content]: only the first step
    throws. *)
Definition deepseek_content (responseData : JsValue) : Completion JsValue :=
  match get responseData "choices" with
  | inl e => inl e
  | inr choices =>
      inr (get_opt (get_opt (get0_opt choices) "message") "content")
  end.

(** [responseData.candidates?.[0]?.content?.parts?.[0]?.text]. *)
Definition gemini_content (responseData : JsValue) : Completion JsValue :=
  match get responseData "candidates" with
  | inl e => inl e
  | inr candidates =>
      inr (get_opt
             (get0_opt
                (get_opt (get_opt (get0_opt candidates) "content") "parts"))
             "text")
  end.

(** The [catch] clause of a provider path. *)
Definition rethrow (provider : string) (error : JsError) : M JsValue :=
  match error with
  | ZodError =>
      throw (Error ("Invalid response format from " +:+ provider
                    +:+ ". Please try again."))
  | SyntaxError =>
      throw (Error ("Failed to parse JSON response from " +:+ provider
                    +:+ ". Please try again."))
  | _ => throw error
  end.

Section Server.

Variable w : World.

(** [`${provider} API error: ${errorData.error?.message ||
    response.statusText}`], thrown when a reply is not [ok]. *)
Definition api_error (provider : string) (response : Response) : M JsValue :=
  let* errorData := lift (JSON.parse (bodyText response)) in
  let* error := lift (get errorData "error") in
  let* detail :=
    lift (ToString
            (js_or (get_opt error "message")
                   (JString (statusText response)))) in
  throw (Error (provider +:+ " API error: " +:+ detail)).

(** *** OpenAI *)

(** The [try] block up to [JSON.parse(content)]. *)
Definition openai_parsedData (apiKey text : string) : M JsValue :=
  let* response := call_openai w apiKey (chat_params "gpt-4o" text) in
  let* content := lift (openai_content response) in
  if negb (truthy content)
  then throw (Error "OpenAI returned an empty response")
  else lift (JSON_parse content).

Definition analyzeWithOpenAI (text : string) : M JsValue :=
  match credential w "OPENAI_API_KEY" with
  | None =>
      throw (Error
        "OpenAI API key is missing. Please add it to your Replit Secrets.")
  | Some apiKey =>
      try_catch
        (let* parsedData := openai_parsedData apiKey text in
         lift (z.parse aiResponseSchema parsedData))
        (rethrow "OpenAI")
  end.

(** *** DeepSeek *)

Definition deepseek_init (apiKey text : string) : RequestInit :=
  {| method := "POST";
     headers := [ ("Content-Type", "application/json");
                  ("Authorization", "Bearer " +:+ apiKey) ];
     body := chat_params "deepseek-chat" text |}.

Definition deepseek_parsedData (apiKey text : string) : M JsValue :=
  let* response :=
    call_fetch w "https://api.deepseek.com/v1/chat/completions"
      (deepseek_init apiKey text) in
  if negb (ok response) then api_error "DeepSeek" response
  else
    let* responseData := lift (JSON.parse (bodyText response)) in
    let* content := lift (deepseek_content responseData) in
    if negb (truthy content)
    then throw (Error "DeepSeek returned an empty response")
    else lift (JSON_parse content).

Definition analyzeWithDeepseek (text : string) : M JsValue :=
  match credential w "DEEPSEEK_API_KEY" with
  | None =>
      throw (Error
        "DeepSeek API key is missing. Please add it to your Replit Secrets.")
  | Some apiKey =>
      try_catch
        (let* parsedData := deepseek_parsedData apiKey text in
         lift (z.parse aiResponseSchema parsedData))
        (rethrow "DeepSeek")
  end.

(** *** Gemini *)

Definition gemini_url (apiKey : string) : string :=
  "https://generativelanguage.googleapis.com/v1beta/models/gemini-pro:generateContent?key="
  +:+ apiKey.

Definition gemini_init (text : string) : RequestInit :=
  {| method := "POST";
     headers := [ ("Content-Type", "application/json") ];
     body :=
       JObject
         {[ "contents" :=
              JArray
                [ JObject
                    {[ "role" := JString "user";
                       "parts" :=
                         JArray
                           [ JObject {[ "text" := JString LOGOS_SYSTEM_PROMPT ]};
                             JObject {[ "text" := JString text ]} ] ]} ];
            "generationConfig" :=
              JObject
                {[ "temperature" :=
                     JNumber (Number.of_decimal false 2 (-1)) ]} ]} |}.

(** [content.match(/\{[\s\S]*\}/)]: only a string has the method. *)
Definition content_match (content : JsValue) : Completion (option string) :=
  match content with
  | JString s => inr (match_braces s)
  | _ => inl TypeError
  end.

Definition gemini_parsedData (apiKey text : string) : M JsValue :=
  let* response := call_fetch w (gemini_url apiKey) (gemini_init text) in
  if negb (ok response) then api_error "Gemini" response
  else
    let* responseData := lift (JSON.parse (bodyText response)) in
    let* content := lift (gemini_content responseData) in
    if negb (truthy content)
    then throw (Error "Gemini returned an empty response")
    else
      let* jsonMatch := lift (content_match content) in
      match jsonMatch with
      | None => throw (Error "Could not extract JSON from Gemini response")
      | Some span => lift (JSON.parse span)
      end.

Definition analyzeWithGemini (text : string) : M JsValue :=
  match credential w "GEMINI_API_KEY" with
  | None =>
      throw (Error
        "Gemini API key is missing. Please add it to your Replit Secrets.")
  | Some apiKey =>
      try_catch
        (let* parsedData := gemini_parsedData apiKey text in
         lift (z.parse aiResponseSchema parsedData))
        (rethrow "Gemini")
  end.

(** *** The dispatcher *)

Definition analyzeArgumentWithAI (text model : string) : M JsValue :=
  if String.eqb model "openai" then analyzeWithOpenAI text
  else if String.eqb model "deepseek" then analyzeWithDeepseek text
  else if String.eqb model "gemini" then analyzeWithGemini text
  else throw (Error ("Unsupported AI model: " +:+ model)).

End Server.

(* ===================================================================== *)
(** ** client/src/lib/api.ts *)
(* ===================================================================== *)

(** What client code can throw: an error, or a [Response] object (the
    [catch] clause tests [error instanceof Response]). *)
Inductive Thrown : Type :=
| ThrownError (e : JsError)
| ThrownResponse (r : Response).

(** One call of [saveHistoryItem(text, result, model)]. *)
Record HistoryItem : Type := {
  item_text : string;
  item_result : JsValue;
  item_model : string
}.

(** The collaborators of the client that live in other modules:
    [apiRequest(method, url, data)] of [./queryClient] and
    [saveHistoryItem] of [./localStorage], which may throw. *)
Record Browser : Type := {
  apiRequest : string -> string -> JsValue -> Thrown + Response;
  saveHistoryItem : string -> JsValue -> string -> Thrown + unit
}.

(** Is the optional [openRouterModel] argument truthy? *)
Definition variant (openRouterModel : option string) : option string :=
  match openRouterModel with
  | Some v => if String.eqb v "" then None else Some v
  | None => None
  end.

(** The request body: [openRouterModel] is added when the model is
    ["openrouter"] and a variant is given. *)
Definition payload (text model : string) (openRouterModel : option string)
    : JsValue :=
  let base : gmap string JsValue :=
    {[ "text" := JString text; "model" := JString model ]} in
  match variant openRouterModel with
  | Some v =>
      if String.eqb model "openrouter"
      then JObject (<["openRouterModel" := JString v]> base)
      else JObject base
  | None => JObject base
  end.

(** The label the result is saved under. *)
Definition modelToSave (model : string) (openRouterModel : option string)
    : string :=
  match variant openRouterModel with
  | Some v =>
      if String.eqb model "openrouter" then "openrouter-" +:+ v else model
  | None => model
  end.

(** The [catch] clause of [analyzeArgument]. *)
Definition client_rethrow (error : Thrown) : Thrown :=
  match error with
  | ThrownResponse r =>
      let errorText := bodyText r in
      ThrownError
        (Error (if String.eqb errorText "" then "Failed to analyze argument"
                else errorText))
  | ThrownError e => ThrownError e
  end.

(** [analyzeArgument(text, model, openRouterModel)]: what it returns or
    throws, and the history items it saved. *)
Definition analyzeArgument (b : Browser) (text model : string)
    (openRouterModel : option string) : (Thrown + JsValue) * list HistoryItem :=
  match apiRequest b "POST" "/api/analyze"
          (payload text model openRouterModel) with
  | inl error => (inl (client_rethrow error), [])
  | inr response =>
      match JSON.parse (bodyText response) with
      | inl e => (inl (client_rethrow (ThrownError e)), [])
      | inr result =>
          let label := modelToSave model openRouterModel in
          let saved :=
            [ {| item_text := text; item_result := result;
                 item_model := label |} ] in
          match saveHistoryItem b text result label with
          | inl error => (inl (client_rethrow error), saved)
          | inr _ => (inr result, saved)
          end
      end
  end.

(* ===================================================================== *)
(** * Vocabulary of the properties *)
(* ===================================================================== *)

(* ===================================================================== *)
(** ** The canonical result *)
(* ===================================================================== *)

(** The five scores of an analysis. *)
Record Emotions : Type := {
  Anger : spec_float;
  Sadness : spec_float;
  Joy : spec_float;
  Fear : spec_float;
  Surprise : spec_float
}.

(** [AnalysisResult] of [@shared/schema], the type of what the schema
    returns. *)
Record AnalysisResult : Type := {
  claim : string;
  premises : list string;
  emotions : Emotions
}.

Definition emotion_names : list string :=
  ["Anger"; "Sadness"; "Joy"; "Fear"; "Surprise"].

Definition emotions_value (e : Emotions) : gmap string JsValue :=
  {[ "Anger" := JNumber (Anger e);
     "Sadness" := JNumber (Sadness e);
     "Joy" := JNumber (Joy e);
     "Fear" := JNumber (Fear e);
     "Surprise" := JNumber (Surprise e) ]}.

(** The object that holds exactly the three canonical keys of [a], its
    emotions exactly the five names. *)
Definition result_value (a : AnalysisResult) : JsValue :=
  JObject
    {[ "claim" := JString (claim a);
       "premises" := JArray (JString <$> premises a);
       "emotions" := JObject (emotions_value (emotions a)) ]}.

(** [1 <= x <= 5] on Numbers; it fails for [NaN]. *)
Definition in_1_5 (x : spec_float) : bool :=
  SFleb (Number.of_Z 1) x && SFleb x (Number.of_Z 5).

Definition scores_in_1_5 (e : Emotions) : Prop :=
  in_1_5 (Anger e) = true /\ in_1_5 (Sadness e) = true
  /\ in_1_5 (Joy e) = true /\ in_1_5 (Fear e) = true
  /\ in_1_5 (Surprise e) = true.

(** The emotions object [e] holds the five scores of [s] as numbers (and
    possibly other keys). *)
Definition carries_scores (e : gmap string JsValue) (s : Emotions) : Prop :=
  e !! "Anger" = Some (JNumber (Anger s))
  /\ e !! "Sadness" = Some (JNumber (Sadness s))
  /\ e !! "Joy" = Some (JNumber (Joy s))
  /\ e !! "Fear" = Some (JNumber (Fear s))
  /\ e !! "Surprise" = Some (JNumber (Surprise s)).

(** The reply object [props] holds the fields of [a]: a string claim, an
    array of strings as premises, and an emotions object with the five
    scores (and possibly other keys at either level). *)
Definition carries (props : gmap string JsValue) (a : AnalysisResult) : Prop :=
  props !! "claim" = Some (JString (claim a))
  /\ props !! "premises" = Some (JArray (JString <$> premises a))
  /\ exists e, props !! "emotions" = Some (JObject e)
               /\ carries_scores e (emotions a).

(** The fields of an object parsed against a shape, as the object case of
    [z.safeParse] computes them. *)
Fixpoint fields (props : gmap string JsValue) (shape : list (string * z.Schema))
    : option (gmap string JsValue) :=
  match shape with
  | [] => Some ∅
  | (key, s) :: shape' =>
      match z.safeParse s (default JUndefined (props !! key)),
            fields props shape' with
      | Some x, Some m => Some (<[key:=x]> m)
      | _, _ => None
      end
  end.

(* ===================================================================== *)
(** ** The providers and their paths *)
(* ===================================================================== *)

(** The three providers of the dispatcher. *)
Inductive Provider : Type := OpenAI | DeepSeek | Gemini.

Definition model_of (p : Provider) : string :=
  match p with
  | OpenAI => "openai"
  | DeepSeek => "deepseek"
  | Gemini => "gemini"
  end.

Definition name_of (p : Provider) : string :=
  match p with
  | OpenAI => "OpenAI"
  | DeepSeek => "DeepSeek"
  | Gemini => "Gemini"
  end.

Definition credential_of (p : Provider) : string :=
  match p with
  | OpenAI => "OPENAI_API_KEY"
  | DeepSeek => "DEEPSEEK_API_KEY"
  | Gemini => "GEMINI_API_KEY"
  end.

(** The [try] block of a provider path up to the parsed reply. *)
Definition parsedData (w : World) (p : Provider) : string -> string -> M JsValue :=
  match p with
  | OpenAI => openai_parsedData w
  | DeepSeek => deepseek_parsedData w
  | Gemini => gemini_parsedData w
  end.

(** The messages of the errors a path throws. *)
Definition missing_credential (p : Provider) : JsError :=
  Error (name_of p +:+ " API key is missing. Please add it to your Replit Secrets.").
Definition invalid_format (p : Provider) : JsError :=
  Error ("Invalid response format from " +:+ name_of p +:+ ". Please try again.").
Definition parse_failure (p : Provider) : JsError :=
  Error ("Failed to parse JSON response from " +:+ name_of p +:+ ". Please try again.").
Definition extraction_failure : JsError :=
  Error "Could not extract JSON from Gemini response".

(** The path of provider [p] has a credential and its reply, read and
    parsed, is [v]; [calls] are the outbound calls made on the way. *)
Definition yields (w : World) (p : Provider) (text : string) (v : JsValue)
    (calls : list Request) : Prop :=
  exists apiKey,
    credential w (credential_of p) = Some apiKey
    /\ run (parsedData w p apiKey text) = (inr v, calls).

(** The reply of provider [p] carries the string [content] as its
    completion text: [p] has a credential, the provider answers the request
    (with an [ok] reply whose body parses, for the two paths that use
    [fetch]), and the content expression of the path evaluates to
    [content]; [calls] is the one call made. *)
Definition delivers (w : World) (p : Provider) (text content : string)
    (calls : list Request) : Prop :=
  exists apiKey,
    credential w (credential_of p) = Some apiKey
    /\ match p with
       | OpenAI =>
           exists response,
             openai_chat_completions_create w apiKey (chat_params "gpt-4o" text)
             = inr response
             /\ openai_content response = inr (JString content)
             /\ calls = [OpenAI_create apiKey (chat_params "gpt-4o" text)]
       | DeepSeek =>
           exists response responseData,
             fetch w "https://api.deepseek.com/v1/chat/completions"
               (deepseek_init apiKey text) = inr response
             /\ ok response = true
             /\ JSON.parse (bodyText response) = inr responseData
             /\ deepseek_content responseData = inr (JString content)
             /\ calls = [Fetch "https://api.deepseek.com/v1/chat/completions"
                           (deepseek_init apiKey text)]
       | Gemini =>
           exists response responseData,
             fetch w (gemini_url apiKey) (gemini_init text) = inr response
             /\ ok response = true
             /\ JSON.parse (bodyText response) = inr responseData
             /\ gemini_content responseData = inr (JString content)
             /\ calls = [Fetch (gemini_url apiKey) (gemini_init text)]
       end.

Definition empty_response (p : Provider) : JsError :=
  Error (name_of p +:+ " returned an empty response").

(** The world [w] with [process.env] replaced: the providers answer as
    before. *)
Definition with_env (w : World) (env' : gmap string string) : World :=
  {| env := env';
     openai_chat_completions_create := openai_chat_completions_create w;
     fetch := fetch w |}.

(* ===================================================================== *)
(** ** Texts *)
(* ===================================================================== *)

(** The text has a [{] with a [}] somewhere after it. *)
Definition has_brace_span (s : string) : Prop :=
  exists pre mid post, s = pre +:+ "{" +:+ mid +:+ "}" +:+ post.

(** [r] is what is left of [s] after reading some of its characters, and
    after reading at least one of them. *)
Inductive suffix_of (r : string) : string -> Prop :=
| suffix_here : suffix_of r r
| suffix_later (c : ascii) (s : string) : suffix_of r s -> suffix_of r (String c s).

Definition proper_suffix_of (r s : string) : Prop :=
  match s with
  | EmptyString => False
  | String _ s' => suffix_of r s'
  end.

(* ===================================================================== *)
(** ** Sample replies and worlds *)
(* ===================================================================== *)

Definition sky_text : string :=
  "The sky is blue. Therefore, the ocean is blue.".

Definition sky_reply : string :=
  dq "{'claim':'The ocean is blue','premises':['The sky is blue'],'emotions':{'Anger':1,'Sadness':1,'Joy':2,'Fear':1,'Surprise':1}}".

Definition sky_emotions : Emotions :=
  {| Anger := Number.of_Z 1; Sadness := Number.of_Z 1; Joy := Number.of_Z 2;
     Fear := Number.of_Z 1; Surprise := Number.of_Z 1 |}.

Definition sky_result : AnalysisResult :=
  {| claim := "The ocean is blue"; premises := ["The sky is blue"];
     emotions := sky_emotions |}.

(** A chat completion whose first choice has the given content. *)
Definition chat_completion (content : string) : JsValue :=
  JObject
    {[ "id" := JString "chatcmpl-1";
       "choices" :=
         JArray
           [ JObject
               {[ "index" := JNumber (Number.of_Z 0);
                  "message" :=
                    JObject {[ "role" := JString "assistant";
                               "content" := JString content ]} ]} ] ]}.

(** A world that holds the OpenAI credential alone and whose OpenAI
    answers every request with the given content. *)
Definition openai_world (content : string) : World :=
  {| env := {[ "OPENAI_API_KEY" := "sk-test" ]};
     openai_chat_completions_create := fun _ _ => inr (chat_completion content);
     fetch := fun _ _ => inl (Error "fetch failed") |}.

Definition openai_calls : list Request :=
  [ OpenAI_create "sk-test" (chat_params "gpt-4o" sky_text) ].

(** The same reply as DeepSeek sends it, the content inside a JSON text,
    and as Gemini sends it, with prose around the object. *)
Definition deepseek_body : string :=
  dq "{'choices':[{'message':{'role':'assistant','content':'{\'claim\':\'The ocean is blue\',\'premises\':[\'The sky is blue\'],\'emotions\':{\'Anger\':1,\'Sadness\':1,\'Joy\':2,\'Fear\':1,\'Surprise\':1}}'}}]}".

Definition gemini_body : string :=
  dq "{'candidates':[{'content':{'role':'model','parts':[{'text':'Here is the analysis: {\'claim\':\'The ocean is blue\',\'premises\':[\'The sky is blue\'],\'emotions\':{\'Anger\':1,\'Sadness\':1,\'Joy\':2,\'Fear\':1,\'Surprise\':1}} I hope it helps.'}]}}]}".

(** A world with the three credentials in which every provider sends the
    sky reply. *)
Definition three_world : World :=
  {| env := {[ "OPENAI_API_KEY" := "sk-test";
               "DEEPSEEK_API_KEY" := "ds-test";
               "GEMINI_API_KEY" := "gm-test" ]};
     openai_chat_completions_create := fun _ _ => inr (chat_completion sky_reply);
     fetch := fun url _ =>
       inr {| ok := true; statusText := "OK";
              bodyText :=
                if String.prefix "https://api.deepseek.com" url
                then deepseek_body else gemini_body |} |}.

Definition deepseek_calls : list Request :=
  [ Fetch "https://api.deepseek.com/v1/chat/completions"
      (deepseek_init "ds-test" sky_text) ].

Definition gemini_calls : list Request :=
  [ Fetch (gemini_url "gm-test") (gemini_init sky_text) ].

(** A reply whose emotions hold a sixth key, and one with a score that is
    not an integer. *)
Definition disgust_reply : string :=
  dq "{'claim':'The ocean is blue','premises':['The sky is blue'],'emotions':{'Anger':1,'Sadness':1,'Joy':2,'Fear':1,'Surprise':1,'Disgust':3}}".

Definition half_reply : string :=
  dq "{'claim':'The ocean is blue','premises':['The sky is blue'],'emotions':{'Anger':1,'Sadness':1,'Joy':2.5,'Fear':1,'Surprise':1}}".

Definition half_result : AnalysisResult :=
  {| claim := "The ocean is blue"; premises := ["The sky is blue"];
     emotions :=
       {| Anger := Number.of_Z 1; Sadness := Number.of_Z 1;
          Joy := Number.of_decimal false 25 (-1);
          Fear := Number.of_Z 1; Surprise := Number.of_Z 1 |} |}.

(** A reply with a fourth top-level property. *)
Definition verbose_reply : string :=
  dq "{'claim':'The ocean is blue','confidence':0.9,'premises':['The sky is blue'],'emotions':{'Anger':1,'Sadness':1,'Joy':2,'Fear':1,'Surprise':1}}".

(** The parsed form of a reply text ([undefined] if it does not parse). *)
Definition parsed (text : string) : JsValue :=
  match JSON.parse text with inr v => v | inl _ => JUndefined end.

(** The own properties of an object value. *)
Definition props_of (v : JsValue) : gmap string JsValue :=
  match v with JObject props => props | _ => ∅ end.

(** A completion text without any brace. *)
Definition refusal : string := "I cannot analyze this text.".

(** A world in which DeepSeek and Gemini send the given completion text;
    the bodies are built around it (the text has no character that JSON
    escapes). *)
Definition fetch_world (content : string) : World :=
  {| env := {[ "DEEPSEEK_API_KEY" := "ds-test"; "GEMINI_API_KEY" := "gm-test" ]};
     openai_chat_completions_create := fun _ _ => inl (Error "not reachable");
     fetch := fun url _ =>
       inr {| ok := true; statusText := "OK";
              bodyText :=
                if String.prefix "https://api.deepseek.com" url
                then dq "{'choices':[{'message':{'content':'" +:+ content
                     +:+ dq "'}}]}"
                else dq "{'candidates':[{'content':{'parts':[{'text':'"
                     +:+ content +:+ dq "'}]}}]}" |} |}.

(** A browser whose backend answers every analysis request with the sky
    reply and whose history store accepts every item. *)
Definition sky_browser : Browser :=
  {| apiRequest := fun _ _ _ =>
       inr {| ok := true; statusText := "OK"; bodyText := sky_reply |};
     saveHistoryItem := fun _ _ _ => inr tt |}.

(* ===================================================================== *)
(** ** Requests, replies and outcomes of a path *)
(* ===================================================================== *)

(** The one request a path sends, built from its credential and the text. *)
Definition request_of (p : Provider) (apiKey text : string) : Request :=
  match p with
  | OpenAI => OpenAI_create apiKey (chat_params "gpt-4o" text)
  | DeepSeek =>
      Fetch "https://api.deepseek.com/v1/chat/completions"
        (deepseek_init apiKey text)
  | Gemini => Fetch (gemini_url apiKey) (gemini_init text)
  end.

(** The provider call of the path throws [e]. *)
Definition provider_throws (w : World) (p : Provider) (apiKey text : string)
    (e : JsError) : Prop :=
  match p with
  | OpenAI =>
      openai_chat_completions_create w apiKey (chat_params "gpt-4o" text)
      = inl e
  | DeepSeek =>
      fetch w "https://api.deepseek.com/v1/chat/completions"
        (deepseek_init apiKey text) = inl e
  | Gemini => fetch w (gemini_url apiKey) (gemini_init text) = inl e
  end.

(** The [fetch] of the path (DeepSeek, Gemini) is answered by [response]. *)
Definition fetch_reply (w : World) (p : Provider) (apiKey text : string)
    (response : Response) : Prop :=
  match p with
  | OpenAI => False
  | DeepSeek =>
      fetch w "https://api.deepseek.com/v1/chat/completions"
        (deepseek_init apiKey text) = inr response
  | Gemini => fetch w (gemini_url apiKey) (gemini_init text) = inr response
  end.

(** The content expression of the path evaluates to the value [content]:
    as [delivers], for a content of any type. *)
Definition receives (w : World) (p : Provider) (text : string)
    (content : JsValue) (calls : list Request) : Prop :=
  exists apiKey,
    credential w (credential_of p) = Some apiKey
    /\ calls = [request_of p apiKey text]
    /\ match p with
       | OpenAI =>
           exists response,
             openai_chat_completions_create w apiKey (chat_params "gpt-4o" text)
             = inr response
             /\ openai_content response = inr content
       | DeepSeek =>
           exists response responseData,
             fetch_reply w DeepSeek apiKey text response
             /\ ok response = true
             /\ JSON.parse (bodyText response) = inr responseData
             /\ deepseek_content responseData = inr content
       | Gemini =>
           exists response responseData,
             fetch_reply w Gemini apiKey text response
             /\ ok response = true
             /\ JSON.parse (bodyText response) = inr responseData
             /\ gemini_content responseData = inr content
       end.


(** How the [catch] clause of path [p] surfaces an error. *)
Definition surfaced (p : Provider) (e : JsError) : JsError :=
  match e with
  | ZodError => invalid_format p
  | SyntaxError => parse_failure p
  | _ => e
  end.

(** What path [p] makes of its parsed reply: the validated result, or the
    surfaced error of the parse or of the validation. *)
Definition verdict (p : Provider) (parsedData : Completion JsValue)
    : Completion JsValue :=
  match parsedData with
  | inl e => inl (surfaced p e)
  | inr v =>
      match z.safeParse aiResponseSchema v with
      | Some r => inr r
      | None => inl (invalid_format p)
      end
  end.

(** What path [p] reads off a content value: an empty content is refused,
    the Gemini path extracts the brace span of a string and parses it, the
    other two paths parse the content as it is. *)
Definition from_content (p : Provider) (content : JsValue)
    : Completion JsValue :=
  if truthy content then
    match p with
    | Gemini =>
        match content_match content with
        | inl e => inl e
        | inr None => inl extraction_failure
        | inr (Some span) => JSON.parse span
        end
    | _ => JSON_parse content
    end
  else inl (empty_response p).

(** No character of [s] is [c]. *)
Fixpoint free_of (c : ascii) (s : string) : Prop :=
  match s with
  | EmptyString => True
  | String a r => a <> c /\ free_of c r
  end.

(** [s] is white space only. *)
Definition blank (s : string) : Prop := JSON.skip_ws s = "".

(** Two texts that differ at most in the white space at their ends. *)
Inductive trim_eq : string -> string -> Prop :=
| trim_eq_blank (r r' : string) : blank r -> blank r' -> trim_eq r r'
| trim_eq_cons (c : ascii) (x x' : string) :
    trim_eq x x' -> trim_eq (String c x) (String c x').

(** The models the client offers. *)
Definition client_models : list string :=
  ["openai"; "deepseek"; "gemini"; "openrouter"].

(* ===================================================================== *)
(** ** client/src/components/Header.tsx *)
(* ===================================================================== *)

(** The theme the button's [onClick] sets:
    [setTheme(theme === "dark" ? "light" : "dark")]. *)
Definition toggled (theme : string) : string :=
  if String.eqb theme "dark" then "light" else "dark".

(** The icon the button shows: the sun in the dark theme, the moon
    otherwise. *)
Inductive Icon : Type := Sun | Moon.

Definition icon (theme : string) : Icon :=
  if String.eqb theme "dark" then Sun else Moon.

(* ===================================================================== *)
(** ** Further sample worlds *)
(* ===================================================================== *)

(** A world whose providers cannot be reached. *)
Definition down_world : World :=
  {| env := {[ "OPENAI_API_KEY" := "sk-test";
               "DEEPSEEK_API_KEY" := "ds-test";
               "GEMINI_API_KEY" := "gm-test" ]};
     openai_chat_completions_create := fun _ _ => inl (Error "Connection error.");
     fetch := fun _ _ => inl TypeError |}.

(** A world whose [fetch] is answered with the given status and body. *)
Definition status_world (okay : bool) (status body : string) : World :=
  {| env := {[ "DEEPSEEK_API_KEY" := "ds-test"; "GEMINI_API_KEY" := "gm-test" ]};
     openai_chat_completions_create := fun _ _ => inl (Error "not reachable");
     fetch := fun _ _ =>
       inr {| ok := okay; statusText := status; bodyText := body |} |}.

(** A world whose OpenAI client returns the given completion object. *)
Definition completion_world (response : JsValue) : World :=
  {| env := {[ "OPENAI_API_KEY" := "sk-test" ]};
     openai_chat_completions_create := fun _ _ => inr response;
     fetch := fun _ _ => inl (Error "fetch failed") |}.

(** A Gemini reply with prose around an object that has a trailing
    comma, and a world that sends it (escaped inside the body). *)
Definition trailing_comma_reply : string :=
  dq "Result: {'claim':'x',} done".

Definition trailing_comma_world : World :=
  fetch_world (dq "Result: {\'claim\':\'x\',} done").

(** The sky reply between two spaces, and a world that sends it. *)
Definition padded_reply : string := " " +:+ sky_reply +:+ " ".

Definition padded_world : World :=
  fetch_world
    (dq " {\'claim\':\'The ocean is blue\',\'premises\':[\'The sky is blue\'],\'emotions\':{\'Anger\':1,\'Sadness\':1,\'Joy\':2,\'Fear\':1,\'Surprise\':1}} ").

(** A chat completion whose first choice has the given value as content. *)
Definition chat_completion_of (content : JsValue) : JsValue :=
  JObject
    {[ "choices" :=
         JArray
           [ JObject {[ "message" := JObject {[ "content" := content ]} ]} ] ]}.

Definition wrapped_reply : string :=
  "Here is the analysis: " +:+ sky_reply +:+ " I hope it helps.".

(** A browser whose backend refuses the request with the given text. *)
Definition refusing_browser (errorText : string) : Browser :=
  {| apiRequest := fun _ _ _ =>
       inl (ThrownResponse
              {| ok := false; statusText := "Bad Request";
                 bodyText := errorText |});
     saveHistoryItem := fun _ _ _ => inr tt |}.

(** A browser whose backend answers with the sky reply and whose history
    store is full. *)
Definition full_browser : Browser :=
  {| apiRequest := fun _ _ _ =>
       inr {| ok := true; statusText := "OK"; bodyText := sky_reply |};
     saveHistoryItem := fun _ _ _ =>
       inl (ThrownError (Error "QuotaExceededError")) |}.

(* ===================================================================== *)
(** * Properties of the run time, the schema and the paths *)
(* ===================================================================== *)

(* ===================================================================== *)
(** ** Numbers *)
(* ===================================================================== *)

Lemma SFcompare_antisym (x y : spec_float) :
  SFcompare y x = CompOpp <$> SFcompare x y.
Proof.
  destruct x as [[]|[]| |[] m e], y as [[]|[]| |[] m' e']; simpl; try reflexivity;
    change (Pos.compare_cont Eq m' m) with (Pos.compare m' m);
    change (Pos.compare_cont Eq m m') with (Pos.compare m m');
    rewrite (Z.compare_antisym e' e), (Pos.compare_antisym m' m);
    destruct (e' ?= e)%Z; simpl; try reflexivity;
    destruct (m' ?= m)%positive; reflexivity.
Qed.

Lemma SFcompare_None (x y : spec_float) :
  SFcompare x y = None -> Number.isNaN x = true \/ Number.isNaN y = true.
Proof.
  destruct x as [?|?| |? ? ?], y as [?|?| |? ? ?]; simpl;
    intros H; try discriminate H; auto.
Qed.

(** The schema of a score accepts exactly the Numbers in [1, 5]: passing
    [.min(1)] and [.max(5)] without being [NaN] is [1 <= x <= 5]. *)
Lemma score_checks (x : spec_float) :
  (if Number.isNaN x then false
   else forallb (z.check_ok x) [z.min (Number.of_Z 1); z.max (Number.of_Z 5)])
  = in_1_5 x.
Proof.
  unfold in_1_5, z.check_ok, forallb, Number.lt, Number.gt, SFltb, SFleb.
  rewrite (SFcompare_antisym x (Number.of_Z 1)).
  rewrite (SFcompare_antisym x (Number.of_Z 5)).
  destruct (SFcompare x (Number.of_Z 1)) as [c1|] eqn:E1.
  - destruct (SFcompare x (Number.of_Z 5)) as [c5|] eqn:E5.
    + assert (Number.isNaN x = false) as -> by now destruct x.
      now destruct c1, c5.
    + apply SFcompare_None in E5 as [->|E5]; [|discriminate E5].
      now destruct c1.
  - apply SFcompare_None in E1 as [->|E1]; [|discriminate E1]. reflexivity.
Qed.

Section ExactValues.

#[local] Open Scope Z_scope.

Lemma digits2_pos_bounds (m : positive) :
  2 ^ (Zpos (digits2_pos m) - 1) <= Zpos m < 2 ^ Zpos (digits2_pos m).
Proof.
  induction m as [m IH|m IH|]; cbn [digits2_pos].
  - rewrite Pos2Z.inj_succ.
    replace (Z.succ (Zpos (digits2_pos m)) - 1)
      with (Z.succ (Zpos (digits2_pos m) - 1)) by lia.
    rewrite !Z.pow_succ_r by lia. lia.
  - rewrite Pos2Z.inj_succ.
    replace (Z.succ (Zpos (digits2_pos m)) - 1)
      with (Z.succ (Zpos (digits2_pos m) - 1)) by lia.
    rewrite !Z.pow_succ_r by lia. lia.
  - cbn. lia.
Qed.

(** A valid finite binary64 datum has its exponent between -1074 and 971,
    a mantissa below [2^53], and a mantissa of 53 bits unless the exponent
    is the least one. *)
Lemma valid_finite (s : bool) (m : positive) (e : Z) :
  valid_binary Number.prec Number.emax (S754_finite s m e) = true ->
  -1074 <= e <= 971
  /\ Zpos m < 2 ^ 53
  /\ (-1074 < e -> 2 ^ 52 <= Zpos m).
Proof.
  unfold valid_binary, bounded, canonical_mantissa, fexp, emin,
    Number.prec, Number.emax.
  intros [Hc He]%andb_prop. apply Z.eqb_eq in Hc. apply Z.leb_le in He.
  pose proof (digits2_pos_bounds m) as [Hlo Hhi].
  set (d := Zpos (digits2_pos m)) in *.
  assert (0 < d) by (unfold d; lia).
  assert (d <= 53) by lia.
  split; [lia|]. split.
  - eapply Z.lt_le_trans; [exact Hhi|]. apply Z.pow_le_mono_r; lia.
  - intros Hnormal. assert (d = 53) as Hd by lia. rewrite Hd in Hlo. exact Hlo.
Qed.

(** On valid binary64 data, [in_1_5] is the interval [1, 5] of the exact
    values: scaled by [2^1074], the value lies between [2^1074] and
    [5 * 2^1074]. *)

(** The exact value of a finite datum with mantissa [m] and exponent [e],
    scaled by [2^1074], against the scaled bounds [1] and [5]. *)
Lemma scaled_below (m e b k : Z) :
  0 <= e + 1074 -> m < 2 ^ b -> 0 <= b -> b + (e + 1074) <= k ->
  m * 2 ^ (e + 1074) < 2 ^ k.
Proof.
  intros He Hm Hb Hk.
  apply Z.lt_le_trans with (2 ^ b * 2 ^ (e + 1074)).
  - apply Z.mul_lt_mono_pos_r; [apply Z.pow_pos_nonneg; lia|exact Hm].
  - rewrite <- Z.pow_add_r by assumption. apply Z.pow_le_mono_r; lia.
Qed.

Lemma scaled_above (m e b k : Z) :
  0 <= e + 1074 -> 2 ^ b <= m -> 0 <= b -> 0 <= k <= b + (e + 1074) ->
  2 ^ k <= m * 2 ^ (e + 1074).
Proof.
  intros He Hm Hb Hk.
  apply Z.le_trans with (2 ^ b * 2 ^ (e + 1074)).
  - rewrite <- Z.pow_add_r by assumption. apply Z.pow_le_mono_r; lia.
  - apply Z.mul_le_mono_nonneg_r; [apply Z.pow_nonneg; lia|exact Hm].
Qed.

Lemma scaled_le (c m k : Z) :
  0 <= k -> (c * 2 ^ k <= m * 2 ^ k <-> c <= m).
Proof.
  intros Hk. symmetry. apply Z.mul_le_mono_pos_r. apply Z.pow_pos_nonneg; lia.
Qed.

Lemma pow2_1074 :
  2 ^ 1074 = 4503599627370496 * 2 ^ 1022
  /\ 5 * 2 ^ 1074 = 5629499534213120 * 2 ^ 1024
  /\ 2 ^ 1076 <= 5 * 2 ^ 1074
  /\ 5 * 2 ^ 1074 < 2 ^ 1077.
Proof. repeat split; vm_compute; congruence. Qed.

(** Where the scaled value [n = m * 2^(e+1074)] of a valid positive datum
    lies, by its exponent. *)
Lemma scaled_position (m : positive) (e : Z) :
  valid_binary Number.prec Number.emax (S754_finite false m e) = true ->
  forall n, n = Zpos m * 2 ^ (e + 1074) ->
  (e < -52 -> n < 2 ^ 1074)
  /\ (-52 < e -> 2 ^ 1074 <= n)
  /\ (e < -50 -> n <= 5 * 2 ^ 1074)
  /\ (-50 < e -> 5 * 2 ^ 1074 < n)
  /\ (e = -52 -> (2 ^ 1074 <= n <-> 4503599627370496 <= Zpos m))
  /\ (e = -50 -> (n <= 5 * 2 ^ 1074 <-> Zpos m <= 5629499534213120)).
Proof.
  intros (He & Hhi & Hlo)%valid_finite n ->.
  destruct pow2_1074 as (E1 & E5 & H4 & H8).
  assert (0 <= e + 1074) as Hk by lia.
  split; [|split; [|split; [|split; [|split]]]].
  - intros H. apply (scaled_below _ _ 53); [assumption..|lia|lia].
  - intros H. apply (scaled_above _ _ 52); [assumption|apply Hlo; lia|lia|lia].
  - intros H. apply Z.lt_le_incl, Z.lt_le_trans with (2 ^ 1076); [|exact H4].
    apply (scaled_below _ _ 53); [assumption..|lia|lia].
  - intros H. apply Z.lt_le_trans with (2 ^ 1077); [exact H8|].
    apply (scaled_above _ _ 52); [assumption|apply Hlo; lia|lia|lia].
  - intros ->. change (-52 + 1074) with 1022. rewrite E1.
    apply scaled_le. lia.
  - intros ->. change (-50 + 1074) with 1024. rewrite E5.
    apply scaled_le. lia.
Qed.

(** On valid binary64 data [in_1_5] is the interval [1, 5] of the exact
    values: scaled by [2^1074], the value lies between [2^1074] and
    [5 * 2^1074]. *)
Lemma in_1_5_exact (x : spec_float) :
  valid_binary Number.prec Number.emax x = true ->
  in_1_5 x = true
  <-> exists n, Number.scaled x = Some n /\ 2 ^ 1074 <= n <= 5 * 2 ^ 1074.
Proof.
  intros Hvalid.
  assert (0 < 2 ^ 1074) as Hpos by (apply Z.pow_pos_nonneg; lia).
  destruct x as [s|s| |s m e].
  - split; [discriminate|]. intros (n & [= <-] & Hn). lia.
  - split; [destruct s; discriminate|]. intros (n & Hn & _). discriminate Hn.
  - split; [discriminate|]. intros (n & Hn & _). discriminate Hn.
  - destruct s.
    { split; [discriminate|]. intros (n & [= <-] & Hn). cbn [cond_Zopp] in Hn.
      apply valid_finite in Hvalid as (He & _).
      assert (0 < Zpos m * 2 ^ (e + 1074))
        by (apply Z.mul_pos_pos; [lia|apply Z.pow_pos_nonneg; lia]).
      lia. }
    cbn [Number.scaled cond_Zopp].
    destruct (scaled_position m e Hvalid _ eq_refl)
      as (F1 & F2 & F3 & F4 & F5 & F6).
    revert F1 F2 F3 F4 F5 F6 Hpos.
    generalize (Zpos m * 2 ^ (e + 1074)). generalize (2 ^ 1074).
    intros B n F1 F2 F3 F4 F5 F6 Hpos.
    assert ((exists n', Some n = Some n' /\ B <= n' <= 5 * B)
            <-> B <= n <= 5 * B) as ->.
    { split; [intros (n' & [= <-] & H); exact H|eauto]. }
    assert (in_1_5 (S754_finite false m e)
            = match -52 ?= e with
              | Lt => true
              | Eq => match (4503599627370496 ?= m)%positive with
                      | Gt => false
                      | _ => true
                      end
              | Gt => false
              end
              && match e ?= -50 with
                 | Lt => true
                 | Eq => match (m ?= 5629499534213120)%positive with
                         | Gt => false
                         | _ => true
                         end
                 | Gt => false
                 end) as ->.
    { unfold in_1_5, SFleb.
      change (Number.of_Z 1) with (S754_finite false 4503599627370496 (-52)).
      change (Number.of_Z 5) with (S754_finite false 5629499534213120 (-50)).
      cbn [SFcompare]. unfold Pos.compare.
      destruct (-52 ?= e), (e ?= -50);
        repeat match goal with
               | |- context [Pos.compare_cont Eq ?a ?b] =>
                   destruct (Pos.compare_cont Eq a b)
               end; reflexivity. }
    rewrite (Pos2Z.inj_compare 4503599627370496 m).
    rewrite (Pos2Z.inj_compare m 5629499534213120).
    destruct (Z.compare_spec (-52) e) as [E|E|E];
      destruct (Z.compare_spec e (-50)) as [E'|E'|E']; try lia;
      repeat match goal with
             | |- context [Z.compare ?a ?b] => destruct (Z.compare_spec a b)
             end; cbn [andb]; split; try discriminate; try reflexivity;
      intros; lia.
Qed.

End ExactValues.

(* ===================================================================== *)
(** ** What [JSON.parse] reads *)
(* ===================================================================== *)

Lemma suffix_of_trans (a b c : string) :
  suffix_of a b -> suffix_of b c -> suffix_of a c.
Proof. intros Hab Hbc. induction Hbc; [assumption|]. now constructor. Qed.

Lemma proper_suffix_of_suffix (r s : string) :
  proper_suffix_of r s -> suffix_of r s.
Proof. destruct s; [contradiction|]. now constructor. Qed.

Lemma proper_suffix_of_trans_l (a b c : string) :
  suffix_of a b -> proper_suffix_of b c -> proper_suffix_of a c.
Proof. destruct c; [contradiction|]. apply suffix_of_trans. Qed.

Lemma proper_suffix_of_trans_r (a b c : string) :
  proper_suffix_of a b -> suffix_of b c -> proper_suffix_of a c.
Proof.
  intros Hab Hbc. induction Hbc.
  - assumption.
  - cbn. apply proper_suffix_of_suffix. assumption.
Qed.

Lemma suffix_of_length (r s : string) :
  suffix_of r s -> String.length r <= String.length s.
Proof. induction 1; cbn; lia. Qed.

Lemma proper_suffix_of_length (r s : string) :
  proper_suffix_of r s -> String.length r < String.length s.
Proof.
  destruct s; [contradiction|]. intros H%suffix_of_length. cbn. lia.
Qed.

Lemma suffix_of_app (r s : string) :
  suffix_of r s <-> exists pre, s = pre +:+ r.
Proof.
  split.
  - induction 1 as [|c s _ (pre & ->)].
    + now exists "".
    + now exists (String c pre).
  - intros (pre & ->). induction pre; cbn; now constructor.
Qed.

Create HintDb sfx.
#[local] Hint Resolve suffix_here suffix_later proper_suffix_of_suffix : sfx.
#[local] Hint Extern 1 (proper_suffix_of _ (String _ _)) => cbn : sfx.

Lemma skip_ws_suffix (s : string) : suffix_of (JSON.skip_ws s) s.
Proof.
  induction s as [|c s IH]; cbn; [constructor|].
  destruct (JSON.is_ws c); now constructor.
Qed.

Lemma pmap_Ok {A B : Type} (f : A -> B) (p : JSON.Parsed A) (b : B)
    (r : string) :
  JSON.pmap f p = JSON.Ok b r <-> exists a, p = JSON.Ok a r /\ b = f a.
Proof.
  destruct p; cbn; split; try discriminate.
  - intros [= <- <-]. eauto.
  - intros (a' & [= <- <-] & ->). reflexivity.
  - intros (? & H & _). discriminate H.
  - intros (? & H & _). discriminate H.
Qed.

Lemma strip_prefix_suffix (p s r : string) :
  JSON.strip_prefix p s = Some r -> suffix_of r s.
Proof.
  revert s. induction p as [|a p IH]; intros s; cbn.
  - intros [= <-]. constructor.
  - destruct s as [|b s]; [discriminate|].
    destruct (Ascii.eqb a b); [|discriminate].
    intros H. constructor. now apply IH.
Qed.

Lemma digits_suffix (s : string) (acc : N) (count : nat) :
  suffix_of (JSON.digits s acc count).2 s.
Proof.
  revert acc count. induction s as [|c s IH]; intros acc count; cbn.
  - constructor.
  - destruct (JSON.digit_of c); [|constructor]. constructor. apply IH.
Qed.

Lemma parse_number_suffix (s : string) (x : spec_float) (r : string) :
  JSON.parse_number s = JSON.Ok x r -> proper_suffix_of r s.
Proof.
  unfold JSON.parse_number.
  assert (exists neg s1,
             match s with
             | String c r0 => if Ascii.eqb c "-" then (true, r0) else (false, s)
             | EmptyString => (false, s)
             end = (neg, s1) /\ suffix_of s1 s) as (neg & s1 & -> & H1).
  { destruct s as [|c r0]; [eauto with sfx|].
    destruct (Ascii.eqb c "-"); eauto with sfx. }
  destruct (JSON.int_part s1) as [[m s2]|] eqn:E2; [|discriminate].
  assert (proper_suffix_of s2 s1) as H2.
  { unfold JSON.int_part in E2. destruct s1 as [|c r1]; [discriminate|].
    destruct (JSON.digit_of c) as [[|d]|] eqn:Ed; [| |discriminate].
    - injection E2 as <- <-. cbn. constructor.
    - cbn [JSON.digits] in E2. rewrite Ed in E2.
      pose proof (digits_suffix r1 (10 * 0 + N.pos d) 1) as Hd.
      destruct (JSON.digits r1 (10 * 0 + N.pos d) 1) as [[m' k] r'].
      injection E2 as <- <-. exact Hd. }
  destruct (JSON.frac_part m s2) as [[[m' nfrac] s3]|] eqn:E3; [|discriminate].
  assert (suffix_of s3 s2) as H3.
  { unfold JSON.frac_part in E3. destruct s2 as [|c r2].
    - injection E3 as <- <- <-. constructor.
    - destruct (Ascii.eqb c ".").
      + pose proof (digits_suffix r2 m 0) as Hd.
        destruct (JSON.digits r2 m 0) as [[m'' k] r'].
        destruct k; [discriminate|]. injection E3 as <- <- <-.
        now constructor.
      + injection E3 as <- <- <-. constructor. }
  destruct (JSON.exp_part s3) as [[e s4]|] eqn:E4; [|discriminate].
  assert (suffix_of s4 s3) as H4.
  { unfold JSON.exp_part in E4. destruct s3 as [|c r3].
    - injection E4 as <- <-. constructor.
    - destruct (Ascii.eqb c "e" || Ascii.eqb c "E").
      + assert (exists neg' r1,
                   match r3 with
                   | String sg r0 =>
                       if Ascii.eqb sg "-" then (true, r0)
                       else if Ascii.eqb sg "+" then (false, r0)
                       else (false, r3)
                   | EmptyString => (false, r3)
                   end = (neg', r1) /\ suffix_of r1 r3)
          as (neg' & r1 & Hsg & Hr1).
        { destruct r3 as [|sg r0]; [eauto with sfx|].
          destruct (Ascii.eqb sg "-"); [eauto with sfx|].
          destruct (Ascii.eqb sg "+"); eauto with sfx. }
        rewrite Hsg in E4.
        pose proof (digits_suffix r1 0 0) as Hd.
        destruct (JSON.digits r1 0 0) as [[e' k] r'].
        destruct k; [discriminate|]. injection E4 as <- <-.
        constructor. eapply suffix_of_trans; eassumption.
      + injection E4 as <- <-. constructor. }
  intros [= <- <-].
  eapply proper_suffix_of_trans_r; [|exact H1].
  eapply proper_suffix_of_trans_l; [|exact H2].
  eapply suffix_of_trans; eassumption.
Qed.

Lemma parse_literal_suffix (s : string) (v : JsValue) (r : string) :
  JSON.parse_literal s = JSON.Ok v r -> proper_suffix_of r s.
Proof.
  unfold JSON.parse_literal.
  destruct (JSON.strip_prefix "true" s) as [r1|] eqn:E1.
  { intros [= <- <-]. destruct s as [|c s]; [discriminate|].
    cbn [JSON.strip_prefix] in *. cbn [proper_suffix_of].
    destruct (Ascii.eqb "t" c); [|discriminate].
    eapply strip_prefix_suffix with (p := "rue"). exact E1. }
  destruct (JSON.strip_prefix "false" s) as [r2|] eqn:E2.
  { intros [= <- <-]. destruct s as [|c s]; [discriminate|].
    cbn [JSON.strip_prefix] in *. cbn [proper_suffix_of].
    destruct (Ascii.eqb "f" c); [|discriminate].
    eapply strip_prefix_suffix with (p := "alse"). exact E2. }
  destruct (JSON.strip_prefix "null" s) as [r3|] eqn:E3; [|discriminate].
  intros [= <- <-]. destruct s as [|c s]; [discriminate|].
    cbn [JSON.strip_prefix] in *. cbn [proper_suffix_of].
  destruct (Ascii.eqb "n" c); [|discriminate].
  eapply strip_prefix_suffix with (p := "ull"). exact E3.
Qed.

Lemma prepend_Ok (pre : string) (p : JSON.Parsed string) (a r : string) :
  JSON.prepend pre p = JSON.Ok a r -> exists a', p = JSON.Ok a' r.
Proof. intros (a' & H & _)%pmap_Ok. eauto. Qed.

(** A string literal is read up to its closing quote. *)
Lemma parse_chars_suffix (s a r : string) :
  JSON.parse_chars s = JSON.Ok a r -> proper_suffix_of r s.
Proof.
  assert (forall n s a r, String.length s <= n ->
            JSON.parse_chars s = JSON.Ok a r -> proper_suffix_of r s) as H;
    [|intros; eapply H; eauto].
  clear. induction n as [|n IH]; intros s a r Hlen.
  { destruct s; [discriminate|cbn in Hlen; lia]. }
  destruct s as [|c s1]; [discriminate|]. cbn [JSON.parse_chars].
  cbn [String.length] in Hlen.
  destruct (Ascii.eqb c (JSON.byte 34)).
  { intros [= <- <-]. cbn. constructor. }
  destruct (Ascii.eqb c "\").
  2:{ destruct (JSON.code c <? 32)%N; [discriminate|].
      intros (a' & H)%prepend_Ok. apply IH in H; [|lia].
      cbn. auto with sfx. }
  destruct s1 as [|e s2]; [discriminate|]. cbn [String.length] in Hlen.
  destruct (Ascii.eqb e "u").
  2:{ destruct (JSON.simple_escape e); [|discriminate].
      intros (a' & H)%prepend_Ok. apply IH in H; [|lia].
      cbn. auto with sfx. }
  destruct s2 as [|h1 [|h2 [|h3 [|h4 s6]]]]; try discriminate.
  cbn [String.length] in Hlen.
  destruct (JSON.hex4 h1 h2 h3 h4) as [u|]; [|discriminate].
  assert (forall a, JSON.prepend (JSON.utf8 u) (JSON.parse_chars s6) = JSON.Ok a r ->
            proper_suffix_of r (String c (String e (String h1 (String h2
              (String h3 (String h4 s6))))))) as Hplain.
  { intros a0 (a' & H)%prepend_Ok. apply IH in H; [|lia].
    cbn. auto 10 with sfx. }
  destruct (JSON.is_high_surrogate u); [|apply Hplain].
  destruct s6 as [|b [|u' [|l1 [|l2 [|l3 [|l4 s12]]]]]]; try apply Hplain.
  destruct (JSON.low_surrogate_escape _) as [[l ?]|]; [|apply Hplain].
  cbn [String.length] in Hlen.
  intros (a' & H)%prepend_Ok. apply IH in H; [|lia].
  cbn. auto 20 with sfx.
Qed.

Lemma suffix_of_tail (c : ascii) (r s : string) :
  suffix_of (String c r) s -> suffix_of r s.
Proof. apply suffix_of_trans. auto with sfx. Qed.

Lemma skip_ws_String (s : string) (c : ascii) (r : string) :
  JSON.skip_ws s = String c r -> suffix_of (String c r) s.
Proof. intros <-. apply skip_ws_suffix. Qed.

Lemma parse_literal_not_object (s : string) (m : gmap string JsValue)
    (r : string) :
  JSON.parse_literal s <> JSON.Ok (JObject m) r.
Proof.
  unfold JSON.parse_literal.
  repeat (destruct (JSON.strip_prefix _ s); [discriminate|]). discriminate.
Qed.

(** Every value read consumes at least one character, and an object read
    starts at an opening brace and ends just after a closing brace. *)
Lemma parse_value_suffix (fuel : nat) :
  (forall s v r,
      JSON.parse_value fuel s = JSON.Ok v r ->
      proper_suffix_of r s
      /\ forall m, v = JObject m ->
           exists s', s = String "{" s' /\ suffix_of (String "}" r) s')
  /\ (forall s vs r,
         JSON.parse_elements fuel s = JSON.Ok vs r -> proper_suffix_of r s)
  /\ (forall s acc m r,
         JSON.parse_members fuel s acc = JSON.Ok m r ->
         suffix_of (String "}" r) s).
Proof.
  induction fuel as [|f (IHv & IHe & IHm)].
  { repeat split; intros; discriminate. }
  split; [|split].
  - intros s v r. cbn [JSON.parse_value].
    destruct s as [|c r0]; [discriminate|].
    destruct (Ascii.eqb c "{") eqn:Ec.
    { apply Ascii.eqb_eq in Ec as ->.
      destruct (JSON.skip_ws r0) as [|c' r'] eqn:Ews; [discriminate|].
      apply skip_ws_String in Ews. intros H.
      assert (suffix_of (String "}" r) r0) as Hclose.
      { destruct (Ascii.eqb c' "}") eqn:Ec'.
        - apply Ascii.eqb_eq in Ec' as ->. injection H as <- <-. exact Ews.
        - apply pmap_Ok in H as (m & H & _). apply IHm in H.
          eapply suffix_of_trans; eassumption. }
      split; [cbn; eapply suffix_of_tail; exact Hclose|].
      intros m _; eauto. }
    destruct (Ascii.eqb c "[").
    { destruct (JSON.skip_ws r0) as [|c' r'] eqn:Ews; [discriminate|].
      apply skip_ws_String in Ews.
      destruct (Ascii.eqb c' "]").
      - intros [= <- <-]. split; [|discriminate].
        cbn. eapply suffix_of_tail; exact Ews.
      - intros (vs & H & ->)%pmap_Ok. split; [|discriminate].
        apply IHe in H. cbn.
        eapply suffix_of_trans; [|exact Ews]. auto with sfx. }
    destruct (Ascii.eqb c (JSON.byte 34)).
    { intros (a & H & ->)%pmap_Ok. split; [|discriminate].
      apply parse_chars_suffix in H. cbn. auto with sfx. }
    destruct (JSON.is_number_start c).
    { intros (x & H & ->)%pmap_Ok. split; [|discriminate].
      now apply parse_number_suffix in H. }
    intros H. split; [now apply parse_literal_suffix in H|].
    intros m ->. now apply parse_literal_not_object in H.
  - intros s vs r. cbn [JSON.parse_elements].
    destruct (JSON.parse_value f (JSON.skip_ws s)) as [v r1| |] eqn:Ev;
      try discriminate.
    apply IHv in Ev as [Hv _].
    assert (proper_suffix_of r1 s) as H1
      by (eapply proper_suffix_of_trans_r; [exact Hv|apply skip_ws_suffix]).
    destruct (JSON.skip_ws r1) as [|c r2] eqn:Ews; [discriminate|].
    apply skip_ws_String, suffix_of_tail in Ews.
    assert (proper_suffix_of r2 s) as H2
      by (eapply proper_suffix_of_trans_l; eassumption).
    destruct (Ascii.eqb c ",").
    + intros (vs' & H & _)%pmap_Ok. apply IHe in H.
      eapply proper_suffix_of_trans_l; [|exact H2]. auto with sfx.
    + destruct (Ascii.eqb c "]"); [|discriminate].
      intros [= <- <-]. exact H2.
  - intros s acc m r. cbn [JSON.parse_members].
    destruct (JSON.skip_ws s) as [|q r0] eqn:E0; [discriminate|].
    apply skip_ws_String, suffix_of_tail in E0.
    destruct (Ascii.eqb q (JSON.byte 34)); [|discriminate].
    destruct (JSON.parse_chars r0) as [k r1| |] eqn:Ek; try discriminate.
    apply parse_chars_suffix, proper_suffix_of_suffix in Ek.
    destruct (JSON.skip_ws r1) as [|c r2] eqn:E1; [discriminate|].
    apply skip_ws_String, suffix_of_tail in E1.
    destruct (Ascii.eqb c ":"); [|discriminate].
    destruct (JSON.parse_value f (JSON.skip_ws r2)) as [v r3| |] eqn:Ev;
      try discriminate.
    apply IHv in Ev as [Hv%proper_suffix_of_suffix _].
    pose proof (skip_ws_suffix r2) as E2.
    assert (suffix_of r3 s) as H3 by eauto using suffix_of_trans.
    destruct (JSON.skip_ws r3) as [|d r4] eqn:E3; [discriminate|].
    apply skip_ws_String in E3.
    destruct (Ascii.eqb d ",") eqn:Ed.
    + intros H%IHm. apply suffix_of_tail in E3.
      eauto using suffix_of_trans.
    + destruct (Ascii.eqb d "}") eqn:Ed'; [|discriminate].
      apply Ascii.eqb_eq in Ed' as ->. intros [= <- <-].
      eauto using suffix_of_trans.
Qed.

Lemma suffix_of_app_l (pre s : string) : suffix_of s (pre +:+ s).
Proof. apply suffix_of_app. eauto. Qed.

(** A text that [JSON.parse] reads as an object has a brace span. *)
Lemma parse_object_has_brace_span (text : string) (m : gmap string JsValue) :
  JSON.parse text = inr (JObject m) -> has_brace_span text.
Proof.
  unfold JSON.parse.
  destruct (JSON.parse_value _ (JSON.skip_ws text)) as [v r| |] eqn:Ev;
    try discriminate.
  destruct (JSON.skip_ws r); [|discriminate]. intros [= ->].
  apply parse_value_suffix in Ev as [_ Hobj].
  destruct (Hobj m eq_refl) as (s' & Hs & Hclose).
  pose proof (skip_ws_suffix text) as Hws. rewrite Hs in Hws.
  apply suffix_of_app in Hws as (pre & ->).
  apply suffix_of_app in Hclose as (mid & ->).
  now exists pre, mid, r.
Qed.

(** *** The fuel of [JSON.parse] is enough *)

Lemma pmap_OutOfFuel {A B : Type} (f : A -> B) (p : JSON.Parsed A) :
  JSON.pmap f p = JSON.OutOfFuel <-> p = JSON.OutOfFuel.
Proof. destruct p; cbn; split; congruence. Qed.

Lemma parse_chars_fuel (s : string) : JSON.parse_chars s <> JSON.OutOfFuel.
Proof.
  assert (forall n s, String.length s <= n ->
            JSON.parse_chars s <> JSON.OutOfFuel) as H;
    [|eapply H; eauto].
  clear. induction n as [|n IH]; intros s Hlen.
  { destruct s; [discriminate|cbn in Hlen; lia]. }
  assert (forall pre r, String.length r <= n ->
            JSON.prepend pre (JSON.parse_chars r) <> JSON.OutOfFuel) as Hpre.
  { intros pre r Hr H%pmap_OutOfFuel. now apply (IH r Hr). }
  destruct s as [|c s1]; [discriminate|]. cbn [JSON.parse_chars].
  cbn [String.length] in Hlen.
  destruct (Ascii.eqb c (JSON.byte 34)); [discriminate|].
  destruct (Ascii.eqb c "\").
  2:{ destruct (JSON.code c <? 32)%N; [discriminate|]. apply Hpre. lia. }
  destruct s1 as [|e s2]; [discriminate|]. cbn [String.length] in Hlen.
  destruct (Ascii.eqb e "u").
  2:{ destruct (JSON.simple_escape e); [|discriminate]. apply Hpre. lia. }
  destruct s2 as [|h1 [|h2 [|h3 [|h4 s6]]]]; try discriminate.
  cbn [String.length] in Hlen.
  destruct (JSON.hex4 h1 h2 h3 h4) as [u|]; [|discriminate].
  assert (JSON.prepend (JSON.utf8 u) (JSON.parse_chars s6) <> JSON.OutOfFuel)
    as Hplain by (apply Hpre; lia).
  destruct (JSON.is_high_surrogate u); [|exact Hplain].
  destruct s6 as [|b [|u' [|l1 [|l2 [|l3 [|l4 s12]]]]]]; try exact Hplain.
  destruct (JSON.low_surrogate_escape _) as [[l ?]|]; [|exact Hplain].
  cbn [String.length] in Hlen. apply Hpre. lia.
Qed.

Lemma parse_number_fuel (s : string) : JSON.parse_number s <> JSON.OutOfFuel.
Proof.
  unfold JSON.parse_number.
  destruct (match s with
            | String c r => if Ascii.eqb c "-" then (true, r) else (false, s)
            | EmptyString => (false, s)
            end) as [neg s1].
  destruct (JSON.int_part s1) as [[m s2]|]; [|discriminate].
  destruct (JSON.frac_part m s2) as [[[m' nfrac] s3]|]; [|discriminate].
  destruct (JSON.exp_part s3) as [[e s4]|]; discriminate.
Qed.

Lemma parse_literal_fuel (s : string) : JSON.parse_literal s <> JSON.OutOfFuel.
Proof.
  unfold JSON.parse_literal.
  repeat (destruct (JSON.strip_prefix _ s); [discriminate|]). discriminate.
Qed.

(** With fuel beyond twice the length of the text no reader runs out. *)
Lemma parse_value_fuel (fuel : nat) :
  (forall s, 2 * String.length s + 1 <= fuel ->
             JSON.parse_value fuel s <> JSON.OutOfFuel)
  /\ (forall s, 2 * String.length s + 2 <= fuel ->
                JSON.parse_elements fuel s <> JSON.OutOfFuel)
  /\ (forall s acc, 2 * String.length s + 2 <= fuel ->
                    JSON.parse_members fuel s acc <> JSON.OutOfFuel).
Proof.
  induction fuel as [|f (IHv & IHe & IHm)].
  { repeat split; intros; lia. }
  split; [|split].
  - intros s Hlen. cbn [JSON.parse_value].
    destruct s as [|c r0]; [discriminate|]. cbn [String.length] in Hlen.
    destruct (Ascii.eqb c "{").
    { destruct (JSON.skip_ws r0) as [|c' r'] eqn:Ews; [discriminate|].
      apply skip_ws_String, suffix_of_length in Ews.
      destruct (Ascii.eqb c' "}"); [discriminate|].
      intros H%pmap_OutOfFuel. revert H. apply IHm. lia. }
    destruct (Ascii.eqb c "[").
    { destruct (JSON.skip_ws r0) as [|c' r'] eqn:Ews; [discriminate|].
      apply skip_ws_String, suffix_of_length in Ews.
      destruct (Ascii.eqb c' "]"); [discriminate|].
      intros H%pmap_OutOfFuel. revert H. apply IHe. lia. }
    destruct (Ascii.eqb c (JSON.byte 34)).
    { intros H%pmap_OutOfFuel. now apply parse_chars_fuel in H. }
    destruct (JSON.is_number_start c).
    { intros H%pmap_OutOfFuel. now apply parse_number_fuel in H. }
    apply parse_literal_fuel.
  - intros s Hlen. cbn [JSON.parse_elements].
    pose proof (suffix_of_length _ _ (skip_ws_suffix s)) as H0.
    destruct (JSON.parse_value f (JSON.skip_ws s)) as [v r1| |] eqn:Ev.
    + apply (parse_value_suffix f) in Ev as [Hv%proper_suffix_of_length _].
      destruct (JSON.skip_ws r1) as [|c r2] eqn:Ews; [discriminate|].
      apply skip_ws_String, suffix_of_length in Ews. cbn in Ews.
      destruct (Ascii.eqb c ",").
      * intros H%pmap_OutOfFuel. revert H. apply IHe. lia.
      * destruct (Ascii.eqb c "]"); discriminate.
    + discriminate.
    + exfalso. revert Ev. apply IHv. lia.
  - intros s acc Hlen. cbn [JSON.parse_members].
    destruct (JSON.skip_ws s) as [|q r0] eqn:E0; [discriminate|].
    apply skip_ws_String, suffix_of_length in E0. cbn in E0.
    destruct (Ascii.eqb q (JSON.byte 34)); [|discriminate].
    destruct (JSON.parse_chars r0) as [k r1| |] eqn:Ek.
    + apply parse_chars_suffix, proper_suffix_of_length in Ek.
      destruct (JSON.skip_ws r1) as [|c r2] eqn:E1; [discriminate|].
      apply skip_ws_String, suffix_of_length in E1. cbn in E1.
      destruct (Ascii.eqb c ":"); [|discriminate].
      pose proof (suffix_of_length _ _ (skip_ws_suffix r2)) as E2.
      destruct (JSON.parse_value f (JSON.skip_ws r2)) as [v r3| |] eqn:Ev.
      * apply (parse_value_suffix f) in Ev as [Hv%proper_suffix_of_length _].
        destruct (JSON.skip_ws r3) as [|d r4] eqn:E3; [discriminate|].
        apply skip_ws_String, suffix_of_length in E3. cbn in E3.
        destruct (Ascii.eqb d ",").
        -- apply IHm. lia.
        -- destruct (Ascii.eqb d "}"); discriminate.
      * discriminate.
      * exfalso. revert Ev. apply IHv. lia.
    + discriminate.
    + now apply parse_chars_fuel in Ek.
Qed.

(** [JSON.parse] never runs out of fuel: it fails on malformed texts only. *)
Lemma parse_fuel_enough (text : string) :
  JSON.parse_value (2 * String.length text + 1) (JSON.skip_ws text)
  <> JSON.OutOfFuel.
Proof.
  apply parse_value_fuel.
  pose proof (suffix_of_length _ _ (skip_ws_suffix text)). lia.
Qed.

(* ===================================================================== *)
(** ** The brace span of the Gemini path *)
(* ===================================================================== *)

Lemma from_first_open_suffix (s u : string) :
  from_first_open s = Some u -> exists r, u = String "{" r /\ suffix_of u s.
Proof.
  induction s as [|c s IH]; cbn; [discriminate|].
  destruct (Ascii.eqb c "{") eqn:Ec.
  - apply Ascii.eqb_eq in Ec as ->. intros [= <-]. eauto with sfx.
  - intros (r & -> & H)%IH. eauto with sfx.
Qed.

Lemma from_first_open_app (pre t : string) :
  exists u, from_first_open (pre +:+ String "{" t) = Some u
            /\ suffix_of (String "{" t) u.
Proof.
  induction pre as [|c pre (u & IH & Hu)].
  - exists (String "{" t). split; [reflexivity|constructor].
  - change (String c pre +:+ String "{" t)
      with (String c (pre +:+ String "{" t)).
    cbn [from_first_open]. destruct (Ascii.eqb c "{").
    + eexists. split; [reflexivity|].
      apply suffix_later, suffix_of_app_l.
    + eauto.
Qed.

Lemma upto_last_close_Some (s p : string) :
  upto_last_close s = Some p -> exists mid post, s = mid +:+ "}" +:+ post.
Proof.
  revert p. induction s as [|c s IH]; intros p; cbn; [discriminate|].
  destruct (upto_last_close s) as [p'|].
  - intros _. destruct (IH p' eq_refl) as (mid & post & ->).
    now exists (String c mid), post.
  - destruct (Ascii.eqb c "}") eqn:Ec; [|discriminate].
    apply Ascii.eqb_eq in Ec as ->. intros _. now exists "", s.
Qed.

Lemma upto_last_close_suffix (b u : string) :
  suffix_of (String "}" b) u -> upto_last_close u <> None.
Proof.
  induction 1 as [|c s _ IH]; cbn.
  - destruct (upto_last_close b); discriminate.
  - destruct (upto_last_close s); [discriminate|contradiction].
Qed.

(** The pattern of the Gemini path matches exactly the texts that have a
    brace span. *)
Lemma match_braces_None (s : string) :
  match_braces s = None <-> ~ has_brace_span s.
Proof.
  unfold match_braces. split.
  - intros Hnone (pre & mid & post & ->).
    destruct (from_first_open_app pre (mid +:+ String "}" post))
      as (u & Hu & Hsuf).
    change (pre +:+ "{" +:+ mid +:+ "}" +:+ post)
      with (pre +:+ String "{" (mid +:+ String "}" post)) in Hnone.
    rewrite Hu in Hnone.
    apply (upto_last_close_suffix post u); [|exact Hnone].
    eapply suffix_of_trans; [|exact Hsuf].
    apply suffix_later, suffix_of_app_l.
  - intros Hno. destruct (from_first_open s) as [u|] eqn:Hu; [|reflexivity].
    destruct (upto_last_close u) as [t|] eqn:Ht; [exfalso|reflexivity].
    apply Hno. apply from_first_open_suffix in Hu as (r & -> & Hsuf).
    cbn in Ht. destruct (upto_last_close r) as [p|] eqn:Hp; [|discriminate].
    apply upto_last_close_Some in Hp as (mid & post & ->).
    apply suffix_of_app in Hsuf as (pre & ->). now exists pre, mid, post.
Qed.

(* ===================================================================== *)
(** ** The schema *)
(* ===================================================================== *)

Lemma safeParse_object (shape : list (string * z.Schema)) (v : JsValue) :
  z.safeParse (z.object shape) v
  = match v with
    | JObject props => JObject <$> fields props shape
    | _ => None
    end.
Proof.
  destruct v; try reflexivity.
  cbn [z.safeParse]. f_equal.
  induction shape as [|[key s] shape IH]; [reflexivity|].
  cbn [fields]. rewrite <- IH. reflexivity.
Qed.

Lemma safeParse_string (v r : JsValue) :
  z.safeParse z.string v = Some r <-> exists s, v = JString s /\ r = JString s.
Proof.
  split.
  - destruct v; simpl; intros H; try discriminate H.
    injection H as <-. eauto.
  - intros (s & -> & ->). reflexivity.
Qed.

Lemma safeParse_score (v r : JsValue) :
  z.safeParse score v = Some r
  <-> exists x, v = JNumber x /\ r = JNumber x /\ in_1_5 x = true.
Proof.
  unfold score. cbn [z.safeParse]. split.
  - destruct v as [| | |x| | |]; intros H; try discriminate H.
    pose proof (score_checks x) as Hc.
    destruct (Number.isNaN x); [discriminate H|].
    destruct (forallb _ _); [|discriminate H].
    injection H as <-. eauto.
  - intros (x & -> & -> & Hx). rewrite <- (score_checks x) in Hx.
    destruct (Number.isNaN x); [discriminate Hx|]. now rewrite Hx.
Qed.

Lemma all_some_strings (xs r : list JsValue) :
  z.all_some (map (z.safeParse z.string) xs) = Some r
  <-> exists ss, xs = JString <$> ss /\ r = xs.
Proof.
  revert r. induction xs as [|x xs IH]; intros r; cbn [map z.all_some].
  - split.
    + intros [= <-]. now exists [].
    + intros (ss & _ & ->). reflexivity.
  - split.
    + destruct (z.safeParse z.string x) as [y|] eqn:Ex; [|discriminate].
      apply safeParse_string in Ex as (s & -> & ->).
      destruct (z.all_some _) as [ys|] eqn:Eys; [|discriminate].
      destruct (proj1 (IH ys) eq_refl) as (ss & -> & ->). intros [= <-].
      now exists (s :: ss).
    + intros (ss & Hss & ->). destruct ss as [|s ss]; [discriminate Hss|].
      change (JString <$> s :: ss) with (JString s :: (JString <$> ss)) in Hss.
      injection Hss as -> ->.
      assert (z.all_some (map (z.safeParse z.string) (JString <$> ss))
              = Some (JString <$> ss)) as -> by (apply IH; eauto).
      reflexivity.
Qed.

Lemma safeParse_array (element : z.Schema) (xs : list JsValue) :
  z.safeParse (z.array element) (JArray xs)
  = JArray <$> z.all_some (map (z.safeParse element) xs).
Proof. reflexivity. Qed.

Lemma safeParse_strings (v r : JsValue) :
  z.safeParse (z.array z.string) v = Some r
  <-> exists ss, v = JArray (JString <$> ss) /\ r = v.
Proof.
  split.
  - destruct v as [| | | | |xs|]; intros H; try discriminate H.
    rewrite safeParse_array in H.
    destruct (z.all_some _) as [ys|] eqn:E; [|discriminate H].
    apply all_some_strings in E as (ss & -> & ->).
    injection H as <-. eauto.
  - intros (ss & -> & ->). rewrite safeParse_array.
    assert (z.all_some (map (z.safeParse z.string) (JString <$> ss))
            = Some (JString <$> ss)) as ->
      by (apply all_some_strings; eauto).
    reflexivity.
Qed.

Lemma default_Some (o : option JsValue) (v : JsValue) :
  v <> JUndefined -> default JUndefined o = v -> o = Some v.
Proof. destruct o; simpl; congruence. Qed.

(** The emotions shape accepts an object exactly when it holds the five
    scores as Numbers in [1, 5], and returns those five and nothing else. *)
Lemma fields_emotions (e m : gmap string JsValue) :
  fields e [ ("Anger", score); ("Sadness", score); ("Joy", score);
             ("Fear", score); ("Surprise", score) ] = Some m
  <-> exists s, carries_scores e s /\ scores_in_1_5 s /\ m = emotions_value s.
Proof.
  cbn [fields]. split.
  - destruct (z.safeParse score (default JUndefined (e !! "Anger"))) eqn:E1;
      [|discriminate].
    destruct (z.safeParse score (default JUndefined (e !! "Sadness"))) eqn:E2;
      [|discriminate].
    destruct (z.safeParse score (default JUndefined (e !! "Joy"))) eqn:E3;
      [|discriminate].
    destruct (z.safeParse score (default JUndefined (e !! "Fear"))) eqn:E4;
      [|discriminate].
    destruct (z.safeParse score (default JUndefined (e !! "Surprise"))) eqn:E5;
      [|discriminate].
    apply safeParse_score in E1 as (x1 & L1 & -> & R1).
    apply safeParse_score in E2 as (x2 & L2 & -> & R2).
    apply safeParse_score in E3 as (x3 & L3 & -> & R3).
    apply safeParse_score in E4 as (x4 & L4 & -> & R4).
    apply safeParse_score in E5 as (x5 & L5 & -> & R5).
    apply default_Some in L1, L2, L3, L4, L5; try discriminate.
    intros [= <-].
    exists {| Anger := x1; Sadness := x2; Joy := x3; Fear := x4; Surprise := x5 |}.
    repeat split; assumption.
  - intros ([x1 x2 x3 x4 x5] & (L1 & L2 & L3 & L4 & L5)
            & (R1 & R2 & R3 & R4 & R5) & ->).
    cbn [Anger Sadness Joy Fear Surprise] in *.
    rewrite L1, L2, L3, L4, L5. cbn [default from_option id].
    assert (forall x, in_1_5 x = true ->
              z.safeParse score (JNumber x) = Some (JNumber x)) as Hs
      by (intros x Hx; apply safeParse_score; eauto).
    rewrite !Hs by assumption. reflexivity.
Qed.

(** What the schema accepts and what it returns: [v] is accepted exactly
    when it is an object that carries the fields of some analysis result
    with scores in [1, 5], and the value returned holds the fields of that
    result and no other key. *)
Theorem aiResponseSchema_spec (v r : JsValue) :
  z.safeParse aiResponseSchema v = Some r
  <-> exists props a,
        v = JObject props /\ carries props a
        /\ scores_in_1_5 (emotions a) /\ r = result_value a.
Proof.
  unfold aiResponseSchema. rewrite safeParse_object. split.
  - destruct v as [| | | | | |props]; try discriminate.
    cbn [fields].
    destruct (z.safeParse z.string (default JUndefined (props !! "claim")))
      eqn:E1; [|discriminate].
    destruct (z.safeParse (z.array z.string)
                (default JUndefined (props !! "premises")))
      eqn:E2; [|discriminate].
    destruct (z.safeParse (z.object _) (default JUndefined (props !! "emotions")))
      eqn:E3; [|discriminate].
    apply safeParse_string in E1 as (c & L1 & ->).
    apply safeParse_strings in E2 as (ps & L2 & ->).
    rewrite safeParse_object in E3.
    destruct (default JUndefined (props !! "emotions")) as [| | | | | |e] eqn:L3;
      try discriminate E3.
    destruct (fields e _) as [m|] eqn:E4; [|discriminate E3].
    injection E3 as <-.
    apply fields_emotions in E4 as (s & Hc & Hr & ->).
    apply default_Some in L1, L2, L3; try discriminate.
    intros [= <-].
    exists props, {| claim := c; premises := ps; emotions := s |}.
    rewrite L2. cbn [default from_option id].
    split; [reflexivity|]. split; [|split; [exact Hr|reflexivity]].
    split; [exact L1|]. split; [exact L2|]. exists e. split; [exact L3|exact Hc].
  - intros (props & a & -> & (L1 & L2 & e & L3 & Hc) & Hr & ->).
    cbn [fields]. rewrite L1, L2, L3. cbn [default from_option id].
    assert (z.safeParse z.string (JString (claim a)) = Some (JString (claim a)))
      as -> by reflexivity.
    assert (z.safeParse (z.array z.string) (JArray (JString <$> premises a))
            = Some (JArray (JString <$> premises a))) as ->
      by (apply safeParse_strings; eauto).
    rewrite safeParse_object.
    assert (fields e [ ("Anger", score); ("Sadness", score); ("Joy", score);
                       ("Fear", score); ("Surprise", score) ]
            = Some (emotions_value (emotions a))) as ->
      by (apply fields_emotions; eauto).
    reflexivity.
Qed.

(* ===================================================================== *)
(** ** The provider paths *)
(* ===================================================================== *)

Lemma analyze_dispatch (w : World) (text : string) (p : Provider) :
  analyzeArgumentWithAI w text (model_of p)
  = match credential w (credential_of p) with
    | None => throw (missing_credential p)
    | Some apiKey =>
        try_catch
          (let* parsedData := parsedData w p apiKey text in
           lift (z.parse aiResponseSchema parsedData))
          (rethrow (name_of p))
    end.
Proof. destruct p; reflexivity. Qed.

(** Once the reply is read and parsed, what a path does is the schema's
    verdict: the value the schema returns, or the path's own "invalid
    response format" error. *)
Lemma analyze_yields (w : World) (p : Provider) (text : string) (v : JsValue)
    (calls : list Request) :
  yields w p text v calls ->
  run (analyzeArgumentWithAI w text (model_of p))
  = (match z.safeParse aiResponseSchema v with
     | Some r => inr r
     | None => inl (invalid_format p)
     end, calls).
Proof.
  intros (apiKey & Hkey & Hrun). rewrite analyze_dispatch, Hkey.
  unfold run, try_catch, bind in *. rewrite Hrun.
  unfold lift, z.parse. destruct (z.safeParse aiResponseSchema v); [reflexivity|].
  destruct p; reflexivity.
Qed.

(** A path that returns has had its reply accepted by the schema. *)
Lemma analyze_returns (w : World) (p : Provider) (text : string) (r : JsValue)
    (calls : list Request) :
  run (analyzeArgumentWithAI w text (model_of p)) = (inr r, calls) ->
  exists v, yields w p text v calls /\ z.safeParse aiResponseSchema v = Some r.
Proof.
  rewrite analyze_dispatch. unfold yields.
  destruct (credential w (credential_of p)) as [apiKey|]; [|discriminate].
  unfold run, try_catch, bind.
  destruct (parsedData w p apiKey text []) as [[e|v] calls'] eqn:Hrun.
  - destruct e; destruct p; discriminate.
  - unfold lift, z.parse.
    destruct (z.safeParse aiResponseSchema v) as [r'|] eqn:Hv.
    + intros [= <- <-]. eauto.
    + destruct p; discriminate.
Qed.

Lemma result_value_keys (a : AnalysisResult) :
  exists m e,
    result_value a = JObject m
    /\ dom m = {[ "claim"; "premises"; "emotions" ]}
    /\ m !! "emotions" = Some (JObject e)
    /\ dom e = list_to_set emotion_names
    /\ carries_scores e (emotions a).
Proof.
  eexists _, _. split; [reflexivity|]. split; [|split; [reflexivity|split]].
  - rewrite !dom_insert_L, dom_singleton_L. set_solver.
  - unfold emotions_value. rewrite !dom_insert_L, dom_singleton_L.
    unfold emotion_names. set_solver.
  - repeat split; reflexivity.
Qed.

(* ===================================================================== *)
(** * Properties of the specification *)
(* ===================================================================== *)

(* ===================================================================== *)
(** ** Schema validation (C1, C2, C3) *)
(* ===================================================================== *)

(** Each of the five names of a carried score set is a Number, and lies in
    [1, 5] when the scores do. *)
Lemma carries_scores_lookup (e : gmap string JsValue) (s : Emotions)
    (name : string) :
  carries_scores e s ->
  name ∈ emotion_names ->
  exists x, e !! name = Some (JNumber x)
            /\ (scores_in_1_5 s -> in_1_5 x = true).
Proof.
  intros (H1 & H2 & H3 & H4 & H5) Hname. unfold emotion_names in Hname.
  repeat (apply elem_of_cons in Hname as [-> | Hname];
          [eexists; split; [eassumption|];
           intros (R1 & R2 & R3 & R4 & R5); assumption|]).
  now apply elem_of_nil in Hname.
Qed.

(** C1.  For every parsed reply object [props]: if one of the five
    emotion scores is [0], [6] or not a number, the schema rejects the
    object, and every provider path whose reply parses to it fails with
    that path's "invalid response format" error; and if [props] has a
    string claim, an array of strings as premises and an emotions object
    with the five names as Numbers in [1, 5], the schema accepts it, and
    every such path returns the analysis result built from these fields,
    whose emotions are exactly the five names, each with its score in
    [1, 5]. *)
Theorem C1_scores_validated (w : World) (p : Provider) (text : string)
    (props : gmap string JsValue) (calls : list Request) :
  yields w p text (JObject props) calls ->
  (forall e name score,
      props !! "emotions" = Some (JObject e) ->
      name ∈ emotion_names ->
      e !! name = Some score ->
      score = JNumber (Number.of_Z 0) \/ score = JNumber (Number.of_Z 6)
      \/ typeof_number score = false ->
      z.parse aiResponseSchema (JObject props) = inl ZodError
      /\ run (analyzeArgumentWithAI w text (model_of p))
         = (inl (invalid_format p), calls))
  /\ (forall a,
         carries props a ->
         scores_in_1_5 (emotions a) ->
         z.parse aiResponseSchema (JObject props) = inr (result_value a)
         /\ run (analyzeArgumentWithAI w text (model_of p))
            = (inr (result_value a), calls)
         /\ exists m e,
              result_value a = JObject m
              /\ m !! "emotions" = Some (JObject e)
              /\ dom e = list_to_set emotion_names
              /\ forall name, name ∈ emotion_names ->
                   exists x, e !! name = Some (JNumber x) /\ in_1_5 x = true).
Proof.
  intros Hy. rewrite (analyze_yields _ _ _ _ _ Hy). unfold z.parse. split.
  - intros e name score He Hname Hscore Hbad.
    destruct (z.safeParse aiResponseSchema (JObject props)) as [r|] eqn:Hr;
      [exfalso|split; reflexivity].
    apply aiResponseSchema_spec in Hr
      as (props' & a & [= <-] & (_ & _ & e' & He' & Hc) & Hin & _).
    rewrite He in He'. injection He' as <-.
    destruct (carries_scores_lookup _ _ _ Hc Hname) as (x & Hx & Hr).
    rewrite Hscore in Hx. injection Hx as ->. specialize (Hr Hin).
    destruct Hbad as [[= ->] | [[= ->] | Hbad]]; discriminate.
  - intros a Hc Hin.
    assert (z.safeParse aiResponseSchema (JObject props) = Some (result_value a))
      as -> by (apply aiResponseSchema_spec; eauto 6).
    split; [reflexivity|]. split; [reflexivity|].
    destruct (result_value_keys a) as (m & e & Hm & _ & He & Hdom & Hs).
    exists m, e. repeat (split; [assumption|]).
    intros name Hname.
    destruct (carries_scores_lookup _ _ _ Hs Hname) as (x & Hx & Hr). eauto.
Qed.

Lemma C1_scores_validated_witness :
  yields (openai_world sky_reply) OpenAI sky_text
    (result_value sky_result) openai_calls
  /\ run (analyzeArgumentWithAI (openai_world sky_reply) sky_text "openai")
     = (inr (result_value sky_result), openai_calls).
Proof.
  assert (yields (openai_world sky_reply) OpenAI sky_text
            (result_value sky_result) openai_calls) as Hy.
  { exists "sk-test". split; vm_compute; reflexivity. }
  split; [exact Hy|].
  refine (proj1 (proj2 (proj2 (C1_scores_validated _ OpenAI _ _ _ Hy)
                          sky_result _ _))).
  - repeat split; try reflexivity. eexists. split; [reflexivity|].
    repeat split; reflexivity.
  - repeat split; reflexivity.
Defined.

(** C2 as stated fails: a reply whose emotions hold the key [Disgust]
    besides the five names is accepted on the OpenAI path. *)
Lemma C2_counterexample :
  (exists e x,
      props_of (parsed disgust_reply) !! "emotions" = Some (JObject e)
      /\ e !! "Disgust" = Some x /\ "Disgust" ∉ emotion_names)
  /\ yields (openai_world disgust_reply) OpenAI sky_text
       (parsed disgust_reply) openai_calls
  /\ run (analyzeArgumentWithAI (openai_world disgust_reply) sky_text "openai")
     = (inr (result_value sky_result), openai_calls).
Proof.
  split; [|split].
  - eexists _, _. split; [vm_compute; reflexivity|].
    split; [vm_compute; reflexivity|].
    unfold emotion_names. rewrite !elem_of_cons, elem_of_nil. intuition discriminate.
  - exists "sk-test". split; vm_compute; reflexivity.
  - vm_compute. reflexivity.
Qed.

(** C2, amended.  Extra keys in the emotions object are stripped, not
    refused.  On every provider path whose reply parses to an object with a
    string claim, premises that are strings and an emotions object that
    holds the five names as Numbers in [1, 5] together with a further key,
    the call does not fail: it returns the analysis result, without the
    further key.  And in every result a call returns, the emotions are
    exactly the five names. *)
Theorem C2_extra_emotion_keys_stripped (w : World) (p : Provider)
    (text : string) :
  (forall props e a key x calls,
      yields w p text (JObject props) calls ->
      carries props a ->
      scores_in_1_5 (emotions a) ->
      props !! "emotions" = Some (JObject e) ->
      e !! key = Some x ->
      key ∉ emotion_names ->
      run (analyzeArgumentWithAI w text (model_of p))
      = (inr (result_value a), calls)
      /\ exists m e',
           result_value a = JObject m
           /\ m !! "emotions" = Some (JObject e')
           /\ e' !! key = None)
  /\ (forall r calls,
         run (analyzeArgumentWithAI w text (model_of p)) = (inr r, calls) ->
         exists m e',
           r = JObject m
           /\ m !! "emotions" = Some (JObject e')
           /\ dom e' = list_to_set emotion_names).
Proof.
  split.
  - intros props e a key x calls Hy Hc Hin He Hx Hkey.
    rewrite (analyze_yields _ _ _ _ _ Hy).
    assert (z.safeParse aiResponseSchema (JObject props)
            = Some (result_value a)) as ->
      by (apply aiResponseSchema_spec; eauto 6).
    split; [reflexivity|].
    destruct (result_value_keys a) as (m & e' & Hm & _ & He' & Hdom & _).
    exists m, e'. repeat (split; [assumption|]).
    apply not_elem_of_dom. rewrite Hdom. set_solver.
  - intros r calls Hrun.
    apply analyze_returns in Hrun as (v & _ & Hv).
    apply aiResponseSchema_spec in Hv as (props & a & _ & _ & _ & ->).
    destruct (result_value_keys a) as (m & e' & Hm & _ & He' & Hdom & _).
    eauto.
Qed.

Lemma C2_extra_emotion_keys_stripped_witness :
  run (analyzeArgumentWithAI (openai_world disgust_reply) sky_text "openai")
  = (inr (result_value sky_result), openai_calls)
  /\ exists m e',
       result_value sky_result = JObject m
       /\ m !! "emotions" = Some (JObject e')
       /\ e' !! "Disgust" = None.
Proof.
  refine (proj1 (C2_extra_emotion_keys_stripped (openai_world disgust_reply)
                   OpenAI sky_text)
            (props_of (parsed disgust_reply))
            (props_of (default JUndefined
               (props_of (parsed disgust_reply) !! "emotions")))
            sky_result "Disgust" (JNumber (Number.of_Z 3)) openai_calls
            _ _ _ _ _ _).
  - exists "sk-test". split; vm_compute; reflexivity.
  - split; [vm_compute; reflexivity|]. split; [vm_compute; reflexivity|].
    eexists. split; [vm_compute; reflexivity|].
    repeat split; vm_compute; reflexivity.
  - repeat split; reflexivity.
  - vm_compute. reflexivity.
  - vm_compute. reflexivity.
  - unfold emotion_names. rewrite !elem_of_cons, elem_of_nil.
    intuition discriminate.
Defined.

(** C3 as stated fails: a reply whose [Joy] score is [2.5], which is not
    an integer, yields a successful result on the OpenAI path, and the
    result carries that score. *)
Lemma C3_counterexample :
  Number.isInteger (Joy (emotions half_result)) = false
  /\ JSON.parse half_reply = inr (result_value half_result)
  /\ run (analyzeArgumentWithAI (openai_world half_reply) sky_text "openai")
     = (inr (result_value half_result), openai_calls).
Proof. repeat split; vm_compute; reflexivity. Qed.

(** C3, amended.  In every result returned by a successful analysis call
    each of the five emotion scores is a Number in [1, 5] inclusive, an
    integer or not; and a parsed reply that carries scores in [1, 5] yields
    a successful result with these scores, whether or not they are
    integers. *)
Theorem C3_scores_numbers_in_range (w : World) (p : Provider) (text : string) :
  (forall r calls,
      run (analyzeArgumentWithAI w text (model_of p)) = (inr r, calls) ->
      exists a, r = result_value a /\ scores_in_1_5 (emotions a))
  /\ (forall props a calls,
         yields w p text (JObject props) calls ->
         carries props a ->
         scores_in_1_5 (emotions a) ->
         run (analyzeArgumentWithAI w text (model_of p))
         = (inr (result_value a), calls)).
Proof.
  split.
  - intros r calls Hrun.
    apply analyze_returns in Hrun as (v & _ & Hv).
    apply aiResponseSchema_spec in Hv as (props & a & _ & _ & Hin & ->). eauto.
  - intros props a calls Hy Hc Hin. rewrite (analyze_yields _ _ _ _ _ Hy).
    assert (z.safeParse aiResponseSchema (JObject props) = Some (result_value a))
      as -> by (apply aiResponseSchema_spec; eauto 6).
    reflexivity.
Qed.

Lemma C3_scores_numbers_in_range_witness :
  exists a, result_value half_result = result_value a
            /\ scores_in_1_5 (emotions a).
Proof.
  refine (proj1 (C3_scores_numbers_in_range (openai_world half_reply) OpenAI
                   sky_text) (result_value half_result) openai_calls _).
  vm_compute. reflexivity.
Defined.

(* ===================================================================== *)
(** ** A missing credential (C4) *)
(* ===================================================================== *)

Lemma missing_credential_inj (p q : Provider) :
  missing_credential p = missing_credential q -> p = q.
Proof. destruct p, q; intros H; try reflexivity; discriminate H. Qed.

(** C4.  For every provider, when its credential is absent from
    [process.env] (or set to the empty string), the dispatch throws before
    any outbound call: the list of calls made is empty, and the error is
    the "API key is missing" message that names this provider, a message
    no other provider shares. *)
Theorem C4_missing_credential_fails_first (w : World) (p : Provider)
    (text : string) :
  env w !! credential_of p = None \/ env w !! credential_of p = Some "" ->
  run (analyzeArgumentWithAI w text (model_of p))
  = (inl (Error (name_of p +:+
        " API key is missing. Please add it to your Replit Secrets.")), [])
  /\ forall q, missing_credential q = missing_credential p -> q = p.
Proof.
  intros Hkey. split.
  - rewrite analyze_dispatch. unfold credential.
    destruct Hkey as [-> | ->]; reflexivity.
  - intros q. apply missing_credential_inj.
Qed.

Lemma C4_missing_credential_fails_first_witness :
  env (openai_world sky_reply) !! "GEMINI_API_KEY" = None
  /\ run (analyzeArgumentWithAI (openai_world sky_reply) sky_text "gemini")
     = (inl (Error
          "Gemini API key is missing. Please add it to your Replit Secrets."),
        []).
Proof.
  assert (env (openai_world sky_reply) !! "GEMINI_API_KEY" = None) as Hkey
    by (vm_compute; reflexivity).
  split; [exact Hkey|].
  exact (proj1 (C4_missing_credential_fails_first (openai_world sky_reply)
                  Gemini sky_text (or_introl Hkey))).
Defined.

(* ===================================================================== *)
(** ** A reply without a brace span (C5) *)
(* ===================================================================== *)

Lemma delivers_truthy (content : string) :
  content <> "" -> truthy (JString content) = true.
Proof. intros H. cbn. now destruct (String.eqb_spec content ""). Qed.

(** C5 as stated fails for OpenAI: a completion text without a brace span
    fails there with the parse error, not the extraction error. *)
Lemma C5_counterexample :
  ~ has_brace_span refusal
  /\ delivers (openai_world refusal) OpenAI sky_text refusal openai_calls
  /\ run (analyzeArgumentWithAI (openai_world refusal) sky_text "openai")
     = (inl (Error
          "Failed to parse JSON response from OpenAI. Please try again."),
        openai_calls)
  /\ Error "Failed to parse JSON response from OpenAI. Please try again."
     <> extraction_failure.
Proof.
  split; [apply match_braces_None; reflexivity|]. split; [|split].
  - exists "sk-test". split; [vm_compute; reflexivity|].
    exists (chat_completion refusal). repeat split; vm_compute; reflexivity.
  - vm_compute. reflexivity.
  - discriminate.
Qed.

(** C5, amended.  A reply whose completion text is a non-empty string
    without a brace span fails on the Gemini path with the extraction
    error, after the one call to the provider.  The OpenAI and DeepSeek
    paths have no extraction step: there such a text fails with the
    path's parse error or with its "invalid response format" error. *)
Theorem C5_no_brace_span (w : World) (p : Provider) (text content : string)
    (calls : list Request) :
  delivers w p text content calls ->
  content <> "" ->
  ~ has_brace_span content ->
  match p with
  | Gemini =>
      run (analyzeArgumentWithAI w text (model_of p))
      = (inl (Error "Could not extract JSON from Gemini response"), calls)
  | _ =>
      run (analyzeArgumentWithAI w text (model_of p))
      = (inl (parse_failure p), calls)
      \/ run (analyzeArgumentWithAI w text (model_of p))
         = (inl (invalid_format p), calls)
  end.
Proof.
  intros (apiKey & Hkey & Hp) Hne Hno.
  pose proof (delivers_truthy _ Hne) as Htruthy.
  assert (forall v, JSON.parse content = inr v ->
            z.safeParse aiResponseSchema v = None) as Hreject.
  { intros v Hv. destruct v; try reflexivity.
    now apply parse_object_has_brace_span in Hv. }
  rewrite analyze_dispatch, Hkey. unfold run, try_catch, bind.
  destruct p; cbn [parsedData model_of].
  - destruct Hp as (response & Hreply & Hcontent & ->).
    unfold openai_parsedData, bind, call_openai, lift.
    rewrite Hreply, Hcontent, Htruthy. cbn [negb app].
    unfold JSON_parse. cbn [ToString].
    destruct (JSON.parse content) as [e|v] eqn:Hparse.
    + left. unfold JSON.parse in Hparse.
      assert (e = SyntaxError) as ->
        by (destruct (JSON.parse_value _ _); [destruct (JSON.skip_ws _)|..];
            congruence).
      reflexivity.
    + right. unfold z.parse. rewrite (Hreject v eq_refl). reflexivity.
  - destruct Hp as (response & responseData & Hreply & Hok & Hbody & Hcontent & ->).
    unfold deepseek_parsedData, bind, call_fetch, lift.
    rewrite Hreply, Hok. cbn [negb app]. rewrite Hbody, Hcontent, Htruthy.
    cbn [negb]. unfold JSON_parse. cbn [ToString].
    destruct (JSON.parse content) as [e|v] eqn:Hparse.
    + left. unfold JSON.parse in Hparse.
      assert (e = SyntaxError) as ->
        by (destruct (JSON.parse_value _ _); [destruct (JSON.skip_ws _)|..];
            congruence).
      reflexivity.
    + right. unfold z.parse. rewrite (Hreject v eq_refl). reflexivity.
  - destruct Hp as (response & responseData & Hreply & Hok & Hbody & Hcontent & ->).
    unfold gemini_parsedData, bind, call_fetch, lift.
    rewrite Hreply, Hok. cbn [negb app]. rewrite Hbody, Hcontent, Htruthy.
    cbn [negb content_match].
    apply match_braces_None in Hno. rewrite Hno. reflexivity.
Qed.

Lemma C5_no_brace_span_witness :
  run (analyzeArgumentWithAI (fetch_world refusal) sky_text "gemini")
  = (inl (Error "Could not extract JSON from Gemini response"), gemini_calls).
Proof.
  refine (C5_no_brace_span (fetch_world refusal) Gemini sky_text refusal
            gemini_calls _ _ _).
  - exists "gm-test". split; [vm_compute; reflexivity|].
    eexists _, _. split; [reflexivity|]. split; [reflexivity|].
    split; [vm_compute; reflexivity|]. split; vm_compute; reflexivity.
  - discriminate.
  - apply match_braces_None. reflexivity.
Defined.

(** An empty completion text fails on every path with the path's "empty
    response" error: the guard on the content comes before any reading of
    JSON. *)
Lemma empty_content_fails (w : World) (p : Provider) (text : string)
    (calls : list Request) :
  delivers w p text "" calls ->
  run (analyzeArgumentWithAI w text (model_of p))
  = (inl (empty_response p), calls).
Proof.
  intros (apiKey & Hkey & Hp).
  rewrite analyze_dispatch, Hkey. unfold run, try_catch, bind.
  destruct p; cbn [parsedData model_of].
  - destruct Hp as (response & Hreply & Hcontent & ->).
    unfold openai_parsedData, bind, call_openai, lift.
    rewrite Hreply, Hcontent. reflexivity.
  - destruct Hp as (response & responseData & Hreply & Hok & Hbody & Hcontent & ->).
    unfold deepseek_parsedData, bind, call_fetch, lift.
    rewrite Hreply, Hok. cbn [negb app]. rewrite Hbody, Hcontent. reflexivity.
  - destruct Hp as (response & responseData & Hreply & Hok & Hbody & Hcontent & ->).
    unfold gemini_parsedData, bind, call_fetch, lift.
    rewrite Hreply, Hok. cbn [negb app]. rewrite Hbody, Hcontent. reflexivity.
Qed.

(* ===================================================================== *)
(** ** One validation for three paths (C6) *)
(* ===================================================================== *)

(** C6.  The three provider paths apply the same validation: whenever the
    replies of the OpenAI, DeepSeek and Gemini paths parse to the same
    value, either the three calls return one and the same result, or each
    fails with its "invalid response format" error. *)
Theorem C6_same_validation_on_all_paths (w1 w2 w3 : World)
    (text1 text2 text3 : string) (v : JsValue)
    (calls1 calls2 calls3 : list Request) :
  yields w1 OpenAI text1 v calls1 ->
  yields w2 DeepSeek text2 v calls2 ->
  yields w3 Gemini text3 v calls3 ->
  (exists r,
      run (analyzeArgumentWithAI w1 text1 "openai") = (inr r, calls1)
      /\ run (analyzeArgumentWithAI w2 text2 "deepseek") = (inr r, calls2)
      /\ run (analyzeArgumentWithAI w3 text3 "gemini") = (inr r, calls3))
  \/ (run (analyzeArgumentWithAI w1 text1 "openai")
      = (inl (invalid_format OpenAI), calls1)
      /\ run (analyzeArgumentWithAI w2 text2 "deepseek")
         = (inl (invalid_format DeepSeek), calls2)
      /\ run (analyzeArgumentWithAI w3 text3 "gemini")
         = (inl (invalid_format Gemini), calls3)).
Proof.
  intros H1 H2 H3.
  pose proof (analyze_yields _ _ _ _ _ H1) as R1.
  pose proof (analyze_yields _ _ _ _ _ H2) as R2.
  pose proof (analyze_yields _ _ _ _ _ H3) as R3.
  cbn [model_of] in R1, R2, R3.
  destruct (z.safeParse aiResponseSchema v) as [r|]; [left; exists r|right];
    auto.
Qed.

Lemma C6_same_validation_on_all_paths_witness :
  run (analyzeArgumentWithAI three_world sky_text "openai")
  = (inr (result_value sky_result), openai_calls)
  /\ run (analyzeArgumentWithAI three_world sky_text "deepseek")
     = (inr (result_value sky_result), deepseek_calls)
  /\ run (analyzeArgumentWithAI three_world sky_text "gemini")
     = (inr (result_value sky_result), gemini_calls).
Proof.
  assert (yields three_world OpenAI sky_text (result_value sky_result)
            openai_calls) as H1
    by (exists "sk-test"; split; vm_compute; reflexivity).
  assert (yields three_world DeepSeek sky_text (result_value sky_result)
            deepseek_calls) as H2
    by (exists "ds-test"; split; vm_compute; reflexivity).
  assert (yields three_world Gemini sky_text (result_value sky_result)
            gemini_calls) as H3
    by (exists "gm-test"; split; vm_compute; reflexivity).
  destruct (C6_same_validation_on_all_paths _ _ _ _ _ _ _ _ _ _ H1 H2 H3)
    as [(r & R1 & R2 & R3) | (R1 & _)].
  - assert (r = result_value sky_result) as ->.
    { assert (run (analyzeArgumentWithAI three_world sky_text "openai")
              = (inr (result_value sky_result), openai_calls)) as E
        by (vm_compute; reflexivity).
      rewrite E in R1. now injection R1. }
    auto.
  - exfalso.
    assert (run (analyzeArgumentWithAI three_world sky_text "openai")
            = (inr (result_value sky_result), openai_calls)) as E
      by (vm_compute; reflexivity).
    rewrite E in R1. discriminate R1.
Defined.

(* ===================================================================== *)
(** ** The end-to-end scenario (C7) *)
(* ===================================================================== *)

(** C7.  When the OpenAI path is dispatched with the text "The sky is
    blue. Therefore, the ocean is blue." and the content of the
    completion is exactly the sky reply, the analysis returns the object
    that this reply parses to, unchanged, after one call to the provider. *)
Theorem C7_sky_scenario (w : World) (apiKey : string) (response : JsValue) :
  credential w "OPENAI_API_KEY" = Some apiKey ->
  openai_chat_completions_create w apiKey (chat_params "gpt-4o" sky_text)
  = inr response ->
  openai_content response = inr (JString sky_reply) ->
  run (analyzeArgumentWithAI w sky_text "openai")
  = (JSON.parse sky_reply,
     [OpenAI_create apiKey (chat_params "gpt-4o" sky_text)])
  /\ JSON.parse sky_reply = inr (result_value sky_result).
Proof.
  intros Hkey Hreply Hcontent.
  assert (JSON.parse sky_reply = inr (result_value sky_result)) as Hparse
    by (vm_compute; reflexivity).
  split; [|exact Hparse].
  assert (yields w OpenAI sky_text (result_value sky_result)
            [OpenAI_create apiKey (chat_params "gpt-4o" sky_text)]) as Hy.
  { exists apiKey. split; [exact Hkey|].
    unfold run, parsedData, openai_parsedData, bind, call_openai, lift.
    rewrite Hreply, Hcontent.
    change (truthy (JString sky_reply)) with true. cbn [negb].
    unfold JSON_parse. cbn [ToString]. rewrite Hparse. reflexivity. }
  rewrite (analyze_yields _ _ _ _ _ Hy : run (analyzeArgumentWithAI w sky_text "openai") = _).
  rewrite Hparse.
  assert (z.safeParse aiResponseSchema (result_value sky_result)
          = Some (result_value sky_result)) as ->
    by (vm_compute; reflexivity).
  reflexivity.
Qed.

Lemma C7_sky_scenario_witness :
  run (analyzeArgumentWithAI (openai_world sky_reply) sky_text "openai")
  = (JSON.parse sky_reply,
     [OpenAI_create "sk-test" (chat_params "gpt-4o" sky_text)])
  /\ JSON.parse sky_reply = inr (result_value sky_result).
Proof.
  refine (C7_sky_scenario (openai_world sky_reply) "sk-test"
            (chat_completion sky_reply) _ _ _); vm_compute; reflexivity.
Defined.

(* ===================================================================== *)
(** ** The label of a saved result (C8) *)
(* ===================================================================== *)

Lemma modelToSave_openrouter (v : string) :
  v <> "" -> modelToSave "openrouter" (Some v) = "openrouter-" +:+ v.
Proof.
  intros Hv. unfold modelToSave, variant.
  now destruct (String.eqb_spec v "").
Qed.

Lemma modelToSave_other (model : string) (openRouterModel : option string) :
  model <> "openrouter" -> modelToSave model openRouterModel = model.
Proof.
  intros Hm. unfold modelToSave.
  destruct (variant openRouterModel); [|reflexivity].
  now destruct (String.eqb_spec model "openrouter").
Qed.

(** Without a variant the label of the variant-capable provider is its
    name alone. *)
Lemma modelToSave_no_variant (model : string) :
  modelToSave model None = model /\ modelToSave model (Some "") = model.
Proof. split; reflexivity. Qed.

(** C8.  A successful [analyzeArgument] saves exactly one history item,
    the result under a label: for the model ["openrouter"] with a chosen
    variant the label is ["openrouter-"] followed by the variant, for every
    other model it is the model's name alone. *)
Theorem C8_history_label (b : Browser) (text model : string)
    (openRouterModel : option string) (result : JsValue)
    (saved : list HistoryItem) :
  analyzeArgument b text model openRouterModel = (inr result, saved) ->
  exists label,
    saved = [ {| item_text := text; item_result := result;
                 item_model := label |} ]
    /\ (model = "openrouter" ->
        forall v, openRouterModel = Some v -> v <> "" ->
          label = "openrouter-" +:+ v)
    /\ (model <> "openrouter" -> label = model).
Proof.
  unfold analyzeArgument.
  destruct (apiRequest b _ _ _) as [e|response]; [discriminate|].
  destruct (JSON.parse (bodyText response)) as [e|result']; [discriminate|].
  destruct (saveHistoryItem b _ _ _); [discriminate|].
  intros [= <- <-]. eexists. split; [reflexivity|]. split.
  - intros -> v -> Hv. now apply modelToSave_openrouter.
  - intros Hm. now apply modelToSave_other.
Qed.

Lemma C8_history_label_witness :
  exists label,
    [ {| item_text := sky_text; item_result := result_value sky_result;
         item_model := "openrouter-mistralai/mistral-7b-instruct" |} ]
    = [ {| item_text := sky_text; item_result := result_value sky_result;
           item_model := label |} ]
    /\ ("openrouter" = "openrouter" ->
        forall v, Some "mistralai/mistral-7b-instruct" = Some v -> v <> "" ->
          label = "openrouter-" +:+ v)
    /\ ("openrouter" <> "openrouter" -> label = "openrouter").
Proof.
  refine (C8_history_label sky_browser sky_text "openrouter"
            (Some "mistralai/mistral-7b-instruct") (result_value sky_result)
            _ _).
  vm_compute. reflexivity.
Defined.

(* ===================================================================== *)
(** ** Only the own credential is read (C9) *)
(* ===================================================================== *)

Lemma credential_with_env (w : World) (env' : gmap string string)
    (name : string) :
  env' !! name = env w !! name ->
  credential (with_env w env') name = credential w name.
Proof. unfold credential. cbn [env with_env]. now intros ->. Qed.

(** C9.  Each provider's dispatch reads its own credential only: two runs
    that select the same provider with the same text, in worlds whose
    providers answer alike and whose configurations agree on that
    provider's credential, have the same outcome and make the same calls,
    whatever the rest of the two configurations. *)
Theorem C9_only_own_credential_read (w : World) (env' : gmap string string)
    (p : Provider) (text : string) :
  env' !! credential_of p = env w !! credential_of p ->
  run (analyzeArgumentWithAI (with_env w env') text (model_of p))
  = run (analyzeArgumentWithAI w text (model_of p)).
Proof.
  intros Henv. rewrite !analyze_dispatch.
  rewrite (credential_with_env _ _ _ Henv).
  destruct (credential w (credential_of p)); [|reflexivity].
  destruct p; reflexivity.
Qed.

Lemma C9_only_own_credential_read_witness :
  run (analyzeArgumentWithAI
         (with_env three_world
            {[ "OPENAI_API_KEY" := "other"; "GEMINI_API_KEY" := "gm-test" ]})
         sky_text "gemini")
  = run (analyzeArgumentWithAI three_world sky_text "gemini").
Proof.
  refine (C9_only_own_credential_read three_world
            {[ "OPENAI_API_KEY" := "other"; "GEMINI_API_KEY" := "gm-test" ]}
            Gemini sky_text _).
  vm_compute. reflexivity.
Defined.

(* ===================================================================== *)
(** ** Extra top-level properties (C10) *)
(* ===================================================================== *)

(** C10.  Extra top-level properties are dropped without an error.  On
    every provider path whose reply parses to an object with the claim,
    premises and emotions fields of an analysis result and a further
    top-level property, the call returns the result, without the further
    property.  And every result a call returns holds exactly the three
    canonical keys. *)
Theorem C10_extra_top_level_keys_dropped (w : World) (p : Provider)
    (text : string) :
  (forall props a key x calls,
      yields w p text (JObject props) calls ->
      carries props a ->
      scores_in_1_5 (emotions a) ->
      props !! key = Some x ->
      key ∉ ["claim"; "premises"; "emotions"] ->
      run (analyzeArgumentWithAI w text (model_of p))
      = (inr (result_value a), calls)
      /\ exists m, result_value a = JObject m /\ m !! key = None)
  /\ (forall r calls,
         run (analyzeArgumentWithAI w text (model_of p)) = (inr r, calls) ->
         exists m,
           r = JObject m /\ dom m = {[ "claim"; "premises"; "emotions" ]}).
Proof.
  split.
  - intros props a key x calls Hy Hc Hin Hx Hkey.
    rewrite (analyze_yields _ _ _ _ _ Hy).
    assert (z.safeParse aiResponseSchema (JObject props)
            = Some (result_value a)) as ->
      by (apply aiResponseSchema_spec; eauto 6).
    split; [reflexivity|].
    destruct (result_value_keys a) as (m & e' & Hm & Hdom & _).
    exists m. split; [assumption|].
    apply not_elem_of_dom. rewrite Hdom. clear -Hkey.
    rewrite !elem_of_cons, elem_of_nil in Hkey.
    rewrite !elem_of_union, !elem_of_singleton. tauto.
  - intros r calls Hrun.
    apply analyze_returns in Hrun as (v & _ & Hv).
    apply aiResponseSchema_spec in Hv as (props & a & _ & _ & _ & ->).
    destruct (result_value_keys a) as (m & e' & Hm & Hdom & _).
    eauto.
Qed.

Lemma C10_extra_top_level_keys_dropped_witness :
  run (analyzeArgumentWithAI (openai_world verbose_reply) sky_text "openai")
  = (inr (result_value sky_result), openai_calls)
  /\ exists m, result_value sky_result = JObject m /\ m !! "confidence" = None.
Proof.
  refine (proj1 (C10_extra_top_level_keys_dropped (openai_world verbose_reply)
                   OpenAI sky_text)
            (props_of (parsed verbose_reply)) sky_result
            "confidence" (JNumber (Number.of_decimal false 9 (-1)))
            openai_calls _ _ _ _ _).
  - exists "sk-test". split; vm_compute; reflexivity.
  - split; [vm_compute; reflexivity|]. split; [vm_compute; reflexivity|].
    eexists. split; [vm_compute; reflexivity|].
    repeat split; vm_compute; reflexivity.
  - repeat split; reflexivity.
  - vm_compute. reflexivity.
  - rewrite !elem_of_cons, elem_of_nil. intuition discriminate.
Defined.

(* ===================================================================== *)
(** * Further properties of the code *)
(* ===================================================================== *)

(* ===================================================================== *)
(** ** The outbound call of a path *)
(* ===================================================================== *)










(* ===================================================================== *)
(** ** The errors a call surfaces *)
(* ===================================================================== *)

Lemma surfaced_rethrow (p : Provider) (e : JsError) (calls : list Request) :
  rethrow (name_of p) e calls = (inl (surfaced p e), calls).
Proof. destruct e, p; reflexivity. Qed.

Lemma surfaced_plain (p : Provider) (e : JsError) :
  surfaced p e <> ZodError /\ surfaced p e <> SyntaxError.
Proof. destruct e, p; split; discriminate. Qed.

(** What a path with a credential does, from its parsed reply on. *)
Lemma analyze_verdict (w : World) (p : Provider) (apiKey text : string) :
  credential w (credential_of p) = Some apiKey ->
  run (analyzeArgumentWithAI w text (model_of p))
  = (verdict p (run (parsedData w p apiKey text)).1,
     (run (parsedData w p apiKey text)).2).
Proof.
  intros Hkey. rewrite analyze_dispatch, Hkey.
  unfold run, try_catch, bind.
  destruct (parsedData w p apiKey text []) as [[e|v] calls]; cbn [fst snd].
  - apply surfaced_rethrow.
  - unfold lift, z.parse, verdict.
    destruct (z.safeParse aiResponseSchema v); [reflexivity|].
    apply (surfaced_rethrow p ZodError).
Qed.

(** X2.  A call never throws a [ZodError] or a [SyntaxError], for any
    world, text and model name: whatever goes wrong inside a path, also in
    the provider's own code, reaches the caller as an [Error] with a
    message, or as the error of another kind that was thrown. *)
Theorem no_raw_parse_or_schema_error (w : World) (text model : string) :
  (run (analyzeArgumentWithAI w text model)).1 <> inl ZodError
  /\ (run (analyzeArgumentWithAI w text model)).1 <> inl SyntaxError.
Proof.
  assert (forall p,
            (run (analyzeArgumentWithAI w text (model_of p))).1 <> inl ZodError
            /\ (run (analyzeArgumentWithAI w text (model_of p))).1
               <> inl SyntaxError) as Hp.
  { intros p.
    destruct (credential w (credential_of p)) as [apiKey|] eqn:Hkey.
    - rewrite (analyze_verdict _ _ _ _ Hkey). cbn [fst]. unfold verdict.
      destruct ((run (parsedData w p apiKey text)).1) as [e|v].
      + destruct (surfaced_plain p e). split; congruence.
      + destruct (z.safeParse aiResponseSchema v);
          [split; discriminate|destruct p; split; discriminate].
    - rewrite analyze_dispatch, Hkey. split; discriminate. }
  unfold analyzeArgumentWithAI.
  destruct (String.eqb_spec model "openai") as [->|_]; [apply (Hp OpenAI)|].
  destruct (String.eqb_spec model "deepseek") as [->|_]; [apply (Hp DeepSeek)|].
  destruct (String.eqb_spec model "gemini") as [->|_]; [apply (Hp Gemini)|].
  split; discriminate.
Qed.

(** X3.  When the provider call itself throws, the path throws too, after
    that one call: an [Error] (a connection error, an API error of the
    client library) or a [TypeError] is passed on unchanged, and a
    [SyntaxError] or [ZodError] thrown by the provider's code is reported
    with the path's parse or format message. *)
Theorem provider_failure_passed_on (w : World) (p : Provider)
    (apiKey text : string) (e : JsError) :
  credential w (credential_of p) = Some apiKey ->
  provider_throws w p apiKey text e ->
  run (analyzeArgumentWithAI w text (model_of p))
  = (inl (surfaced p e), [request_of p apiKey text])
  /\ (forall message, e = Error message -> surfaced p e = e)
  /\ (e = TypeError -> surfaced p e = e).
Proof.
  intros Hkey Hthrows. split; [|split; intros; subst; reflexivity].
  rewrite (analyze_verdict _ _ _ _ Hkey).
  assert (run (parsedData w p apiKey text)
          = (inl e, [request_of p apiKey text])) as ->; [|reflexivity].
  unfold run. destruct p; cbn [parsedData provider_throws request_of] in *.
  - unfold openai_parsedData, bind, call_openai. now rewrite Hthrows.
  - unfold deepseek_parsedData, bind, call_fetch. now rewrite Hthrows.
  - unfold gemini_parsedData, bind, call_fetch. now rewrite Hthrows.
Qed.

Lemma provider_failure_passed_on_witness :
  run (analyzeArgumentWithAI down_world sky_text "openai")
  = (inl (Error "Connection error."), [request_of OpenAI "sk-test" sky_text]).
Proof.
  refine (proj1 (provider_failure_passed_on down_world OpenAI "sk-test"
                   sky_text (Error "Connection error.") _ _));
    vm_compute; reflexivity.
Defined.

(* ===================================================================== *)
(** ** From the content of a reply to the outcome *)
(* ===================================================================== *)

Lemma parse_error_SyntaxError (text : string) (e : JsError) :
  JSON.parse text = inl e -> e = SyntaxError.
Proof.
  unfold JSON.parse.
  destruct (JSON.parse_value _ _); [destruct (JSON.skip_ws _)|..]; congruence.
Qed.

Lemma delivers_receives (w : World) (p : Provider) (text content : string)
    (calls : list Request) :
  delivers w p text content calls <-> receives w p text (JString content) calls.
Proof.
  unfold delivers, receives. split.
  - intros (apiKey & Hkey & Hp). exists apiKey. split; [exact Hkey|].
    destruct p.
    + destruct Hp as (response & H1 & H2 & ->). eauto.
    + destruct Hp as (response & data & H1 & H2 & H3 & H4 & ->).
      split; [reflexivity|]. exists response, data. auto.
    + destruct Hp as (response & data & H1 & H2 & H3 & H4 & ->).
      split; [reflexivity|]. exists response, data. auto.
  - intros (apiKey & Hkey & -> & Hp). exists apiKey. split; [exact Hkey|].
    destruct p.
    + destruct Hp as (response & H1 & H2). eauto.
    + destruct Hp as (response & data & H1 & H2 & H3 & H4).
      exists response, data. auto.
    + destruct Hp as (response & data & H1 & H2 & H3 & H4).
      exists response, data. auto.
Qed.

(** A path that receives a content goes on from it alone. *)
Lemma receives_run (w : World) (p : Provider) (text : string)
    (content : JsValue) (calls : list Request) :
  receives w p text content calls ->
  run (analyzeArgumentWithAI w text (model_of p))
  = (verdict p (from_content p content), calls).
Proof.
  intros (apiKey & Hkey & -> & Hp).
  rewrite (analyze_verdict _ _ _ _ Hkey).
  assert (run (parsedData w p apiKey text)
          = (from_content p content, [request_of p apiKey text])) as Hrun.
  { unfold run, from_content.
    destruct p; cbn [parsedData request_of fetch_reply] in *.
    - destruct Hp as (response & Hreply & Hcontent).
      unfold openai_parsedData, bind, call_openai, lift.
      rewrite Hreply, Hcontent. now destruct (truthy content).
    - destruct Hp as (response & data & Hreply & Hok & Hbody & Hcontent).
      unfold deepseek_parsedData, bind, call_fetch, lift.
      rewrite Hreply, Hok. cbn [negb]. rewrite Hbody, Hcontent.
      now destruct (truthy content).
    - destruct Hp as (response & data & Hreply & Hok & Hbody & Hcontent).
      unfold gemini_parsedData, bind, call_fetch, lift.
      rewrite Hreply, Hok. cbn [negb]. rewrite Hbody, Hcontent.
      destruct (truthy content); [|reflexivity]. cbn [negb].
      destruct (content_match content) as [e|[span|]]; reflexivity. }
  rewrite Hrun. reflexivity.
Qed.

Lemma verdict_parse (p : Provider) (text : string) :
  verdict p (JSON.parse text)
  = match JSON.parse text with
    | inl _ => inl (parse_failure p)
    | inr v =>
        match z.safeParse aiResponseSchema v with
        | Some r => inr r
        | None => inl (invalid_format p)
        end
    end.
Proof.
  destruct (JSON.parse text) as [e|v] eqn:E; [|reflexivity].
  apply parse_error_SyntaxError in E as ->. reflexivity.
Qed.

(** X4.  A reply whose content is falsy ([undefined] or [null] where the
    property is missing, the empty string, [0], [false]) fails on every
    path with the path's "returned an empty response" error: nothing is
    parsed. *)
Theorem falsy_content_is_empty_response (w : World) (p : Provider)
    (text : string) (content : JsValue) (calls : list Request) :
  receives w p text content calls ->
  truthy content = false ->
  run (analyzeArgumentWithAI w text (model_of p))
  = (inl (Error (name_of p +:+ " returned an empty response")), calls).
Proof.
  intros Hr Hfalsy. rewrite (receives_run _ _ _ _ _ Hr).
  unfold from_content. rewrite Hfalsy. now destruct p.
Qed.

Lemma falsy_content_is_empty_response_witness :
  run (analyzeArgumentWithAI
         (status_world true "OK" (dq "{'choices':[]}")) sky_text "deepseek")
  = (inl (Error "DeepSeek returned an empty response"),
     [request_of DeepSeek "ds-test" sky_text]).
Proof.
  refine (falsy_content_is_empty_response
            (status_world true "OK" (dq "{'choices':[]}")) DeepSeek sky_text
            JUndefined [request_of DeepSeek "ds-test" sky_text] _ _).
  - exists "ds-test". split; [vm_compute; reflexivity|].
    split; [reflexivity|].
    eexists _, _. split; [reflexivity|]. split; [reflexivity|].
    split; vm_compute; reflexivity.
  - reflexivity.
Defined.

(** X5.  On the OpenAI and DeepSeek paths the outcome is a function of the
    content string alone: the content is parsed as it is, a content that is
    not JSON gives the path's "failed to parse" error, a JSON value the
    schema refuses gives its "invalid response format" error, and an
    accepted one is returned as the schema returns it. *)
Theorem chat_content_parsed_as_is (w : World) (p : Provider)
    (text content : string) (calls : list Request) :
  p <> Gemini ->
  receives w p text (JString content) calls ->
  content <> "" ->
  run (analyzeArgumentWithAI w text (model_of p))
  = (match JSON.parse content with
     | inl _ => inl (parse_failure p)
     | inr v =>
         match z.safeParse aiResponseSchema v with
         | Some r => inr r
         | None => inl (invalid_format p)
         end
     end, calls).
Proof.
  intros Hp Hr Hne. rewrite (receives_run _ _ _ _ _ Hr).
  unfold from_content. rewrite (delivers_truthy _ Hne).
  rewrite <- verdict_parse. destruct p; [reflexivity..|contradiction].
Qed.

Lemma chat_content_parsed_as_is_witness :
  run (analyzeArgumentWithAI (openai_world wrapped_reply) sky_text "openai")
  = (match JSON.parse wrapped_reply with
     | inl _ => inl (parse_failure OpenAI)
     | inr v =>
         match z.safeParse aiResponseSchema v with
         | Some r => inr r
         | None => inl (invalid_format OpenAI)
         end
     end, openai_calls).
Proof.
  refine (chat_content_parsed_as_is (openai_world wrapped_reply) OpenAI
            sky_text wrapped_reply openai_calls _ _ _).
  - discriminate.
  - exists "sk-test". split; [vm_compute; reflexivity|].
    split; [reflexivity|]. eexists. split; vm_compute; reflexivity.
  - discriminate.
Defined.

(* ===================================================================== *)
(** ** The brace span the Gemini path extracts *)
(* ===================================================================== *)

Lemma append_String (c : ascii) (a b : string) :
  String c a +:+ b = String c (a +:+ b).
Proof. reflexivity. Qed.

Lemma append_Empty (b : string) : "" +:+ b = b.
Proof. reflexivity. Qed.

Lemma from_first_open_free (pre s : string) :
  free_of "{" pre -> from_first_open (pre +:+ s) = from_first_open s.
Proof.
  induction pre as [|c pre IH]; [reflexivity|]. intros [Hc Hpre].
  rewrite append_String. cbn [from_first_open].
  destruct (Ascii.eqb_spec c "{"); [contradiction|]. now apply IH.
Qed.

Lemma upto_last_close_free (post : string) :
  free_of "}" post -> upto_last_close post = None.
Proof.
  induction post as [|c post IH]; [reflexivity|]. intros [Hc Hpost].
  cbn [upto_last_close]. rewrite (IH Hpost).
  now destruct (Ascii.eqb_spec c "}").
Qed.

Lemma upto_last_close_app (a post : string) :
  upto_last_close post = None ->
  upto_last_close (a +:+ String "}" post) = Some (a +:+ "}").
Proof.
  intros Hpost. induction a as [|c a IH].
  - rewrite !append_Empty. cbn [upto_last_close]. rewrite Hpost. reflexivity.
  - rewrite !append_String. cbn [upto_last_close]. rewrite IH. reflexivity.
Qed.

Lemma from_first_open_split (s u : string) :
  from_first_open s = Some u ->
  exists pre r, s = pre +:+ u /\ u = String "{" r /\ free_of "{" pre.
Proof.
  induction s as [|c s IH]; cbn [from_first_open]; [discriminate|].
  destruct (Ascii.eqb_spec c "{") as [->|Hc].
  - intros [= <-]. exists "", s. repeat split.
  - intros (pre & r & -> & -> & Hpre)%IH.
    exists (String c pre), r. repeat split; assumption.
Qed.

Lemma upto_last_close_split (s t : string) :
  upto_last_close s = Some t ->
  exists a post, s = t +:+ post /\ t = a +:+ "}" /\ free_of "}" post.
Proof.
  revert t. induction s as [|c s IH]; intros t; cbn [upto_last_close];
    [discriminate|].
  destruct (upto_last_close s) as [p|] eqn:Hp.
  - intros [= <-]. destruct (IH p eq_refl) as (a & post & -> & -> & Hpost).
    exists (String c a), post. repeat split. exact Hpost.
  - destruct (Ascii.eqb_spec c "}") as [->|Hc]; [|discriminate].
    intros [= <-]. exists "", s. repeat split.
    clear IH. induction s as [|d s IH]; [exact I|].
    cbn [upto_last_close] in Hp.
    destruct (upto_last_close s); [discriminate|].
    destruct (Ascii.eqb_spec d "}"); [discriminate|]. split; auto.
Qed.

(** The match of a text with an object text between a prefix without
    opening brace and a suffix without closing brace. *)
Lemma match_braces_span (pre mid post : string) :
  free_of "{" pre -> free_of "}" post ->
  match_braces (pre +:+ String "{" (mid +:+ "}") +:+ post)
  = Some (String "{" (mid +:+ "}")).
Proof.
  intros Hpre Hpost. unfold match_braces.
  rewrite (from_first_open_free _ _ Hpre).
  rewrite append_String. cbn [from_first_open].
  change (Ascii.eqb "{" "{") with true. cbn [upto_last_close].
  replace ((mid +:+ "}") +:+ post) with (mid +:+ String "}" post)
    by (clear; induction mid as [|c mid IH];
        [reflexivity|rewrite !append_String, IH; reflexivity]).
  rewrite (upto_last_close_app mid post (upto_last_close_free _ Hpost)).
  reflexivity.
Qed.

(** X6.  The pattern of the Gemini path, [/\{[\s\S]*\}/], matches from the
    first opening brace of the content to its last closing brace: the match
    of a text is [t] exactly when the text is [pre ++ t ++ post] with [t]
    of the form [{...}], no opening brace in [pre] and no closing brace in
    [post]. *)
Theorem match_braces_first_to_last (s t : string) :
  match_braces s = Some t
  <-> exists pre mid post,
        s = pre +:+ t +:+ post
        /\ t = String "{" (mid +:+ "}")
        /\ free_of "{" pre /\ free_of "}" post.
Proof.
  split.
  - unfold match_braces.
    destruct (from_first_open s) as [u|] eqn:Hu; [|discriminate].
    apply from_first_open_split in Hu as (pre & r & -> & -> & Hpre).
    cbn [upto_last_close].
    destruct (upto_last_close r) as [p|] eqn:Hp.
    + intros [= <-].
      apply upto_last_close_split in Hp as (mid & post & -> & -> & Hpost).
      exists pre, mid, post. repeat split; assumption.
    + change (Ascii.eqb "{" "}") with false. discriminate.
  - intros (pre & mid & post & -> & -> & Hpre & Hpost).
    now apply match_braces_span.
Qed.

(** X7.  On the Gemini path a non-empty content string is handled in three
    steps that can each fail with their own error: without a brace span
    the extraction error; with a span that is not JSON the "failed to
    parse" error; with a span that parses, the schema's verdict on the
    parsed value, the "invalid response format" error or the result. *)
Theorem gemini_content_steps (w : World) (text content : string)
    (calls : list Request) :
  receives w Gemini text (JString content) calls ->
  content <> "" ->
  run (analyzeArgumentWithAI w text "gemini")
  = (match match_braces content with
     | None => inl (Error "Could not extract JSON from Gemini response")
     | Some span =>
         match JSON.parse span with
         | inl _ => inl (parse_failure Gemini)
         | inr v =>
             match z.safeParse aiResponseSchema v with
             | Some r => inr r
             | None => inl (invalid_format Gemini)
             end
         end
     end, calls).
Proof.
  intros Hr Hne.
  rewrite (receives_run _ _ _ _ _ Hr : run (analyzeArgumentWithAI w text "gemini") = _).
  unfold from_content. rewrite (delivers_truthy _ Hne). cbn [content_match].
  destruct (match_braces content) as [span|]; [|reflexivity].
  now rewrite verdict_parse.
Qed.

Lemma gemini_content_steps_witness :
  run (analyzeArgumentWithAI trailing_comma_world sky_text "gemini")
  = (match match_braces trailing_comma_reply with
     | None => inl (Error "Could not extract JSON from Gemini response")
     | Some span =>
         match JSON.parse span with
         | inl _ => inl (parse_failure Gemini)
         | inr v =>
             match z.safeParse aiResponseSchema v with
             | Some r => inr r
             | None => inl (invalid_format Gemini)
             end
         end
     end, gemini_calls).
Proof.
  refine (gemini_content_steps trailing_comma_world sky_text
            trailing_comma_reply gemini_calls _ _).
  - exists "gm-test". split; [vm_compute; reflexivity|].
    split; [reflexivity|].
    eexists _, _. split; [reflexivity|]. split; [reflexivity|].
    split; vm_compute; reflexivity.
  - discriminate.
Defined.

(** X8.  Prose around the JSON object is ignored on the Gemini path: when
    the content is an object text [{...}] between a prefix without opening
    brace and a suffix without closing brace, and the object text parses,
    the outcome is the schema's verdict on the parsed object, the same as
    if the object text had been the whole content. *)
Theorem gemini_ignores_surrounding_prose (w : World) (text pre mid post : string)
    (v : JsValue) (calls : list Request) :
  receives w Gemini text
    (JString (pre +:+ String "{" (mid +:+ "}") +:+ post)) calls ->
  free_of "{" pre ->
  free_of "}" post ->
  JSON.parse (String "{" (mid +:+ "}")) = inr v ->
  run (analyzeArgumentWithAI w text "gemini")
  = (match z.safeParse aiResponseSchema v with
     | Some r => inr r
     | None => inl (invalid_format Gemini)
     end, calls).
Proof.
  intros Hr Hpre Hpost Hparse.
  rewrite (receives_run _ _ _ _ _ Hr :
             run (analyzeArgumentWithAI w text "gemini") = _).
  unfold from_content. rewrite delivers_truthy by (destruct pre; discriminate).
  cbn [content_match]. rewrite (match_braces_span _ _ _ Hpre Hpost), Hparse.
  reflexivity.
Qed.

Lemma gemini_ignores_surrounding_prose_witness :
  run (analyzeArgumentWithAI three_world sky_text "gemini")
  = (match z.safeParse aiResponseSchema (result_value sky_result) with
     | Some r => inr r
     | None => inl (invalid_format Gemini)
     end, gemini_calls).
Proof.
  refine (gemini_ignores_surrounding_prose three_world sky_text
            "Here is the analysis: "
            (dq "'claim':'The ocean is blue','premises':['The sky is blue'],'emotions':{'Anger':1,'Sadness':1,'Joy':2,'Fear':1,'Surprise':1}")
            " I hope it helps." (result_value sky_result) gemini_calls
            _ _ _ _).
  - exists "gm-test". split; [vm_compute; reflexivity|].
    split; [reflexivity|].
    eexists _, _. split; [reflexivity|]. split; [reflexivity|].
    split; vm_compute; reflexivity.
  - cbn. repeat split; discriminate.
  - cbn. repeat split; discriminate.
  - vm_compute. reflexivity.
Defined.

(** X9.  A content that is not a string: an object (one without a
    [toString] key of its own) is turned into the text [[object Object]]
    by [JSON.parse] on the OpenAI and DeepSeek paths, which fail with
    their "failed to parse" error; on the Gemini path any truthy content
    that is not a string has no [match] method, and the call throws a
    bare [TypeError]. *)
Theorem content_not_a_string (w : World) (p : Provider) (text : string)
    (content : JsValue) (calls : list Request) :
  receives w p text content calls ->
  (p <> Gemini ->
   forall props, content = JObject props -> props !! "toString" = None ->
     run (analyzeArgumentWithAI w text (model_of p))
     = (inl (parse_failure p), calls))
  /\ (p = Gemini ->
      truthy content = true -> (forall s, content <> JString s) ->
      run (analyzeArgumentWithAI w text (model_of p)) = (inl TypeError, calls)).
Proof.
  intros Hr. rewrite (receives_run _ _ _ _ _ Hr). unfold from_content. split.
  - intros Hp props -> Hto. cbn [truthy].
    assert (JSON_parse (JObject props) = inl SyntaxError) as Hparse.
    { unfold JSON_parse. cbn [ToString]. rewrite Hto.
      vm_compute. reflexivity. }
    destruct p; [rewrite Hparse; reflexivity..|contradiction].
  - intros -> Htruthy Hns. rewrite Htruthy.
    destruct content; try reflexivity. now destruct (Hns s).
Qed.

Lemma content_not_a_string_witness :
  run (analyzeArgumentWithAI
         (completion_world (chat_completion_of (parsed sky_reply)))
         sky_text "openai")
  = (inl (parse_failure OpenAI), openai_calls).
Proof.
  refine (proj1 (content_not_a_string
                   (completion_world (chat_completion_of (parsed sky_reply)))
                   OpenAI sky_text (parsed sky_reply) openai_calls _)
            _ (props_of (parsed sky_reply)) _ _).
  - exists "sk-test". split; [vm_compute; reflexivity|].
    split; [reflexivity|]. eexists. split; [reflexivity|].
    vm_compute. reflexivity.
  - discriminate.
  - vm_compute. reflexivity.
  - vm_compute. reflexivity.
Defined.

(* ===================================================================== *)
(** ** Replies that are not a completion *)
(* ===================================================================== *)

Lemma api_error_calls (provider : string) (response : Response)
    (calls : list Request) :
  api_error provider response calls
  = ((api_error provider response []).1, calls).
Proof.
  unfold api_error, bind, lift, throw.
  destruct (JSON.parse (bodyText response)) as [e|errorData]; [reflexivity|].
  destruct (get errorData "error") as [e|error]; [reflexivity|].
  destruct (ToString _); reflexivity.
Qed.

(** A path whose [fetch] is answered by a reply that is not [ok] throws
    what the error branch makes of the body. *)
Lemma fetch_reply_not_ok (w : World) (p : Provider) (apiKey text : string)
    (response : Response) :
  credential w (credential_of p) = Some apiKey ->
  fetch_reply w p apiKey text response ->
  ok response = false ->
  run (analyzeArgumentWithAI w text (model_of p))
  = (verdict p (api_error (name_of p) response []).1,
     [request_of p apiKey text]).
Proof.
  intros Hkey Hreply Hok. rewrite (analyze_verdict _ _ _ _ Hkey).
  assert (run (parsedData w p apiKey text)
          = ((api_error (name_of p) response []).1,
             [request_of p apiKey text])) as ->; [|reflexivity].
  unfold run.
  destruct p; cbn [parsedData fetch_reply request_of name_of] in *;
    [contradiction|..].
  - unfold deepseek_parsedData, bind at 1, call_fetch.
    rewrite Hreply, Hok. apply api_error_calls.
  - unfold gemini_parsedData, bind at 1, call_fetch.
    rewrite Hreply, Hok. apply api_error_calls.
Qed.

(** X10.  A reply that is not [ok] on the DeepSeek or Gemini path, with a
    body that parses to an object: the call throws
    ["<provider> API error: <detail>"], where the detail is the provider's
    own message when the body has a non-empty [error.message] string, and
    the status text of the reply when the body has no [error] or its
    [error] has no [message]. *)
Theorem http_error_reported (w : World) (p : Provider) (apiKey text : string)
    (response : Response) (body : gmap string JsValue) :
  credential w (credential_of p) = Some apiKey ->
  fetch_reply w p apiKey text response ->
  ok response = false ->
  JSON.parse (bodyText response) = inr (JObject body) ->
  (forall error message,
      body !! "error" = Some (JObject error) ->
      error !! "message" = Some (JString message) ->
      message <> "" ->
      run (analyzeArgumentWithAI w text (model_of p))
      = (inl (Error (name_of p +:+ " API error: " +:+ message)),
         [request_of p apiKey text]))
  /\ (body !! "error" = None
      \/ (exists error, body !! "error" = Some (JObject error)
                        /\ error !! "message" = None) ->
      run (analyzeArgumentWithAI w text (model_of p))
      = (inl (Error (name_of p +:+ " API error: " +:+ statusText response)),
         [request_of p apiKey text])).
Proof.
  intros Hkey Hreply Hok Hbody.
  rewrite (fetch_reply_not_ok _ _ _ _ _ Hkey Hreply Hok).
  unfold api_error, bind, lift, throw. rewrite Hbody. cbn [get fst]. split.
  - intros error message He Hm Hne. rewrite He. cbn [default from_option id].
    unfold get_opt. cbn [get]. rewrite Hm. cbn [default from_option id].
    unfold js_or. rewrite (delivers_truthy _ Hne). reflexivity.
  - intros [He | (error & He & Hm)]; rewrite He; cbn [default from_option id];
      unfold get_opt; cbn [get]; [|rewrite Hm]; reflexivity.
Qed.

Lemma http_error_reported_witness :
  run (analyzeArgumentWithAI
         (status_world false "Unauthorized"
            (dq "{'error':{'message':'Invalid API key','code':401}}"))
         sky_text "deepseek")
  = (inl (Error "DeepSeek API error: Invalid API key"),
     [request_of DeepSeek "ds-test" sky_text]).
Proof.
  refine (proj1 (http_error_reported
                   (status_world false "Unauthorized"
                      (dq "{'error':{'message':'Invalid API key','code':401}}"))
                   DeepSeek "ds-test" sky_text
                   {| ok := false; statusText := "Unauthorized";
                      bodyText :=
                        dq "{'error':{'message':'Invalid API key','code':401}}" |}
                   (props_of
                      (parsed
                         (dq "{'error':{'message':'Invalid API key','code':401}}")))
                   _ _ _ _)
            (props_of
               (default JUndefined
                  (props_of
                     (parsed
                        (dq "{'error':{'message':'Invalid API key','code':401}}"))
                   !! "error")))
            "Invalid API key" _ _ _);
    try (vm_compute; reflexivity).
  discriminate.
Defined.

(** X11.  A reply that is not [ok] and whose body is not JSON (an HTML
    error page, an empty body): reading the body throws inside the [try]
    block, so the call fails with the path's "failed to parse JSON
    response" error, and the status of the reply is not reported. *)
Theorem http_error_body_not_json (w : World) (p : Provider)
    (apiKey text : string) (response : Response) (e : JsError) :
  credential w (credential_of p) = Some apiKey ->
  fetch_reply w p apiKey text response ->
  ok response = false ->
  JSON.parse (bodyText response) = inl e ->
  run (analyzeArgumentWithAI w text (model_of p))
  = (inl (Error ("Failed to parse JSON response from " +:+ name_of p
                 +:+ ". Please try again.")),
     [request_of p apiKey text]).
Proof.
  intros Hkey Hreply Hok Hbody.
  rewrite (fetch_reply_not_ok _ _ _ _ _ Hkey Hreply Hok).
  unfold api_error, bind, lift. rewrite Hbody.
  apply parse_error_SyntaxError in Hbody as ->. reflexivity.
Qed.

Lemma http_error_body_not_json_witness :
  run (analyzeArgumentWithAI
         (status_world false "Bad Gateway" "<html>502 Bad Gateway</html>")
         sky_text "gemini")
  = (inl (Error "Failed to parse JSON response from Gemini. Please try again."),
     [request_of Gemini "gm-test" sky_text]).
Proof.
  refine (http_error_body_not_json
            (status_world false "Bad Gateway" "<html>502 Bad Gateway</html>")
            Gemini "gm-test" sky_text
            {| ok := false; statusText := "Bad Gateway";
               bodyText := "<html>502 Bad Gateway</html>" |}
            SyntaxError _ _ _ _); vm_compute; reflexivity.
Defined.

(** X12.  A reply without choices.  The OpenAI path reads
    [response.choices[0].message.content] without guards: when the
    completion object has no [choices], or an empty list, the call throws a
    bare [TypeError].  The DeepSeek and Gemini paths read theirs with
    optional chaining: an [ok] reply whose body has no [choices] (no
    [candidates]), or an empty list, fails with the "returned an empty
    response" error. *)
Theorem reply_without_choices (w : World) (p : Provider) (apiKey text : string)
    (reply : gmap string JsValue) :
  credential w (credential_of p) = Some apiKey ->
  match p with
  | OpenAI =>
      openai_chat_completions_create w apiKey (chat_params "gpt-4o" text)
      = inr (JObject reply)
      /\ (reply !! "choices" = None \/ reply !! "choices" = Some (JArray []))
  | DeepSeek =>
      exists response,
        fetch_reply w DeepSeek apiKey text response /\ ok response = true
        /\ JSON.parse (bodyText response) = inr (JObject reply)
        /\ (reply !! "choices" = None \/ reply !! "choices" = Some (JArray []))
  | Gemini =>
      exists response,
        fetch_reply w Gemini apiKey text response /\ ok response = true
        /\ JSON.parse (bodyText response) = inr (JObject reply)
        /\ (reply !! "candidates" = None
            \/ reply !! "candidates" = Some (JArray []))
  end ->
  run (analyzeArgumentWithAI w text (model_of p))
  = (inl match p with
         | OpenAI => TypeError
         | _ => Error (name_of p +:+ " returned an empty response")
         end,
     [request_of p apiKey text]).
Proof.
  intros Hkey Hp. destruct p.
  - destruct Hp as (Hreply & Hchoices).
    rewrite (analyze_verdict _ _ _ _ Hkey).
    assert (run (parsedData w OpenAI apiKey text)
            = (inl TypeError, [request_of OpenAI apiKey text])) as ->;
      [|reflexivity].
    unfold run. cbn [parsedData request_of].
    unfold openai_parsedData, bind, call_openai, lift. rewrite Hreply.
    unfold openai_content. cbn [get].
    destruct Hchoices as [-> | ->]; reflexivity.
  - destruct Hp as (response & Hreply & Hok & Hbody & Hchoices).
    refine (receives_run w DeepSeek text JUndefined _ _).
    exists apiKey. split; [exact Hkey|]. split; [reflexivity|].
    exists response, (JObject reply). repeat (split; [assumption|]).
    unfold deepseek_content. cbn [get].
    destruct Hchoices as [-> | ->]; reflexivity.
  - destruct Hp as (response & Hreply & Hok & Hbody & Hchoices).
    refine (receives_run w Gemini text JUndefined _ _).
    exists apiKey. split; [exact Hkey|]. split; [reflexivity|].
    exists response, (JObject reply). repeat (split; [assumption|]).
    unfold gemini_content. cbn [get].
    destruct Hchoices as [-> | ->]; reflexivity.
Qed.

Lemma reply_without_choices_witness :
  run (analyzeArgumentWithAI
         (completion_world (JObject {[ "choices" := JArray [] ]}))
         sky_text "openai")
  = (inl TypeError, [request_of OpenAI "sk-test" sky_text]).
Proof.
  refine (reply_without_choices
            (completion_world (JObject {[ "choices" := JArray [] ]}))
            OpenAI "sk-test" sky_text {[ "choices" := JArray [] ]} _ _).
  - vm_compute. reflexivity.
  - split; [reflexivity|]. right. vm_compute. reflexivity.
Defined.

(** X13.  A model name other than ["openai"], ["deepseek"] and ["gemini"]
    (the client's ["openrouter"] among them) is refused by the dispatcher
    with an error that quotes the name, before any credential is read and
    without an outbound call. *)
Theorem unsupported_model_refused (w : World) (text model : string) :
  model <> "openai" -> model <> "deepseek" -> model <> "gemini" ->
  run (analyzeArgumentWithAI w text model)
  = (inl (Error ("Unsupported AI model: " +:+ model)), []).
Proof.
  intros H1 H2 H3. unfold analyzeArgumentWithAI.
  destruct (String.eqb_spec model "openai"); [contradiction|].
  destruct (String.eqb_spec model "deepseek"); [contradiction|].
  destruct (String.eqb_spec model "gemini"); [contradiction|].
  reflexivity.
Qed.

Lemma unsupported_model_refused_witness :
  run (analyzeArgumentWithAI three_world sky_text "openrouter")
  = (inl (Error "Unsupported AI model: openrouter"), []).
Proof.
  refine (unsupported_model_refused three_world sky_text "openrouter" _ _ _);
    discriminate.
Defined.

(* ===================================================================== *)
(** ** More on the schema *)
(* ===================================================================== *)

Lemma result_value_carries (a : AnalysisResult) :
  exists props, result_value a = JObject props /\ carries props a.
Proof.
  eexists. split; [reflexivity|].
  split; [reflexivity|]. split; [reflexivity|].
  eexists. split; [reflexivity|]. repeat split; reflexivity.
Qed.

(** X14.  Validation is idempotent: a value the schema returns is accepted
    by the schema again and returned unchanged, so a validated result can
    be validated a second time (by a caller, after a round trip) without
    loss. *)
Theorem validation_idempotent (v r : JsValue) :
  z.parse aiResponseSchema v = inr r ->
  z.parse aiResponseSchema r = inr r.
Proof.
  unfold z.parse.
  destruct (z.safeParse aiResponseSchema v) as [r'|] eqn:Hv; [|discriminate].
  intros [= ->].
  apply aiResponseSchema_spec in Hv as (props & a & _ & _ & Hin & ->).
  destruct (result_value_carries a) as (props' & Hprops & Hc).
  assert (z.safeParse aiResponseSchema (result_value a)
          = Some (result_value a)) as ->; [|reflexivity].
  apply aiResponseSchema_spec. exists props', a. auto.
Qed.

Lemma validation_idempotent_witness :
  z.parse aiResponseSchema (result_value sky_result)
  = inr (result_value sky_result).
Proof.
  refine (validation_idempotent (parsed disgust_reply)
            (result_value sky_result) _).
  vm_compute. reflexivity.
Defined.

(** X15.  What the schema refuses besides a bad score: a value that is not
    an object (an array, a string, [null]); an object whose [claim] is
    missing or not a string; whose [premises] is missing, not an array, or
    holds an element that is not a string; whose [emotions] is missing or
    not an object; or whose emotions lack one of the five names. *)
Theorem schema_refuses_malformed (v : JsValue) :
  ((forall props, v <> JObject props) ->
   z.parse aiResponseSchema v = inl ZodError)
  /\ (forall props,
         v = JObject props ->
         (forall c, props !! "claim" <> Some (JString c))
         \/ (forall ss, props !! "premises" <> Some (JArray (JString <$> ss)))
         \/ (forall e, props !! "emotions" <> Some (JObject e))
         \/ (exists e name,
               props !! "emotions" = Some (JObject e)
               /\ name ∈ emotion_names /\ e !! name = None) ->
         z.parse aiResponseSchema v = inl ZodError).
Proof.
  unfold z.parse.
  destruct (z.safeParse aiResponseSchema v) as [r|] eqn:Hv;
    [|split; reflexivity].
  apply aiResponseSchema_spec in Hv
    as (props & a & -> & (Hclaim & Hprem & e & Hemo & Hc) & _ & _).
  split.
  - intros H. now destruct (H props).
  - intros props' [= <-] [H | [H | [H | (e' & name & He' & Hname & Hnone)]]].
    + now destruct (H (claim a)).
    + now destruct (H (premises a)).
    + now destruct (H e).
    + rewrite Hemo in He'. injection He' as <-.
      destruct (carries_scores_lookup _ _ _ Hc Hname) as (x & Hx & _).
      congruence.
Qed.

Lemma schema_refuses_malformed_witness :
  z.parse aiResponseSchema
    (parsed (dq "{'claim':'c','premises':['p',7],'emotions':{}}"))
  = inl ZodError.
Proof.
  refine (proj2 (schema_refuses_malformed
                   (parsed (dq "{'claim':'c','premises':['p',7],'emotions':{}}")))
            (props_of (parsed (dq "{'claim':'c','premises':['p',7],'emotions':{}}")))
            _ _).
  - vm_compute. reflexivity.
  - right. right. right. exists ∅, "Joy". split; [vm_compute; reflexivity|].
    split; [|reflexivity].
    unfold emotion_names. rewrite !elem_of_cons. auto.
Defined.

(** X16.  The bounds of a score are exact and inclusive: on binary64
    numbers the score schema accepts [x], and returns it unchanged,
    exactly when its value lies between 1 and 5, both included (the
    values are compared scaled by [2^1074], as integers); infinities and
    [NaN] are refused. *)
Theorem score_bounds_exact (x : spec_float) :
  valid_binary Number.prec Number.emax x = true ->
  (z.safeParse score (JNumber x) = Some (JNumber x)
   <-> exists n, Number.scaled x = Some n
                 /\ (2 ^ 1074 <= n <= 5 * 2 ^ 1074)%Z)
  /\ (z.safeParse score (JNumber x) = None
      <-> ~ exists n, Number.scaled x = Some n
                      /\ (2 ^ 1074 <= n <= 5 * 2 ^ 1074)%Z).
Proof.
  intros Hvalid. pose proof (in_1_5_exact x Hvalid) as Hexact.
  assert (z.safeParse score (JNumber x) = Some (JNumber x)
          <-> in_1_5 x = true) as Hs.
  { rewrite safeParse_score. split.
    - intros (y & [= <-] & _ & Hy). exact Hy.
    - intros Hx. eauto. }
  split; [now rewrite Hs|].
  rewrite <- Hexact, <- Hs. split.
  - intros -> H. discriminate H.
  - intros Hn. destruct (z.safeParse score (JNumber x)) as [r|] eqn:E;
      [|reflexivity].
    destruct Hn. apply safeParse_score in E as (y & [= <-] & -> & _).
    reflexivity.
Qed.

Lemma score_bounds_exact_witness :
  z.safeParse score (JNumber (Number.of_Z 5)) = Some (JNumber (Number.of_Z 5))
  <-> exists n, Number.scaled (Number.of_Z 5) = Some n
                /\ (2 ^ 1074 <= n <= 5 * 2 ^ 1074)%Z.
Proof.
  refine (proj1 (score_bounds_exact (Number.of_Z 5) _)).
  vm_compute. reflexivity.
Defined.

(* ===================================================================== *)
(** ** The client: request, failures and labels *)
(* ===================================================================== *)

(** X17.  The request body always carries the text and the model, and
    carries the variant under [openRouterModel] only for the model
    ["openrouter"] with a non-empty variant: a variant given with another
    model is not sent, and no other key is. *)
Theorem payload_keys (text model : string) (openRouterModel : option string) :
  exists body,
    payload text model openRouterModel = JObject body
    /\ body !! "text" = Some (JString text)
    /\ body !! "model" = Some (JString model)
    /\ (forall v, model = "openrouter" -> openRouterModel = Some v ->
                  v <> "" -> body !! "openRouterModel" = Some (JString v))
    /\ (model <> "openrouter" \/ variant openRouterModel = None ->
        body !! "openRouterModel" = None)
    /\ dom body ⊆ {[ "text"; "model"; "openRouterModel" ]}.
Proof.
  unfold payload.
  assert (forall v, variant openRouterModel = Some v ->
            openRouterModel = Some v /\ v <> "") as Hvar.
  { intros v. unfold variant. destruct openRouterModel as [u|]; [|discriminate].
    destruct (String.eqb_spec u ""); [discriminate|]. intros [= ->]. auto. }
  assert (forall body : gmap string JsValue,
            dom body = {[ "text"; "model" ]}
            \/ dom body = {[ "openRouterModel" ]} ∪ {[ "text"; "model" ]} ->
            dom body ⊆ {[ "text"; "model"; "openRouterModel" ]}) as Hdom
    by (clear; intros body [-> | ->] x;
        rewrite !elem_of_union, !elem_of_singleton; tauto).
  destruct (variant openRouterModel) as [v|] eqn:Hv.
  - destruct (Hvar v eq_refl) as [-> Hne].
    destruct (String.eqb_spec model "openrouter") as [->|Hm].
    + eexists. split; [reflexivity|]. split; [reflexivity|].
      split; [reflexivity|]. split; [|split].
      * intros v' _ [= <-] _. reflexivity.
      * intros [H | H]; [contradiction|discriminate].
      * apply Hdom. right.
        rewrite !dom_insert_L, dom_singleton_L. reflexivity.
    + eexists. split; [reflexivity|]. split; [reflexivity|].
      split; [reflexivity|]. split; [|split].
      * intros v' Hm'. contradiction.
      * intros _. reflexivity.
      * apply Hdom. left. rewrite !dom_insert_L, dom_singleton_L.
        reflexivity.
  - eexists. split; [reflexivity|]. split; [reflexivity|].
    split; [reflexivity|]. split; [|split].
    + intros v Hm -> Hne. unfold variant in Hv.
      destruct (String.eqb_spec v ""); [contradiction|discriminate].
    + intros _. reflexivity.
    + apply Hdom. left. rewrite !dom_insert_L, dom_singleton_L.
      reflexivity.
Qed.

Lemma payload_keys_witness :
  exists body,
    payload sky_text "gemini" (Some "mistralai/mistral-7b-instruct")
    = JObject body
    /\ body !! "openRouterModel" = None.
Proof.
  destruct (payload_keys sky_text "gemini"
              (Some "mistralai/mistral-7b-instruct"))
    as (body & Hbody & _ & _ & _ & Hnone & _).
  exists body. split; [exact Hbody|]. apply Hnone. left. discriminate.
Defined.

(** X18.  When the request fails, nothing is saved to the history and the
    failure is thrown on: a thrown [Response] becomes an [Error] with the
    text of its body, or with ["Failed to analyze argument"] when the body
    is empty; any other error is thrown unchanged; and a reply whose body
    is not JSON throws the [SyntaxError] of reading it. *)
Theorem request_failure_saves_nothing (b : Browser) (text model : string)
    (openRouterModel : option string) :
  (forall r,
      apiRequest b "POST" "/api/analyze" (payload text model openRouterModel)
      = inl (ThrownResponse r) ->
      analyzeArgument b text model openRouterModel
      = (inl (ThrownError
                (Error (if String.eqb (bodyText r) ""
                        then "Failed to analyze argument" else bodyText r))),
         []))
  /\ (forall e,
         apiRequest b "POST" "/api/analyze" (payload text model openRouterModel)
         = inl (ThrownError e) ->
         analyzeArgument b text model openRouterModel
         = (inl (ThrownError e), []))
  /\ (forall response e,
         apiRequest b "POST" "/api/analyze" (payload text model openRouterModel)
         = inr response ->
         JSON.parse (bodyText response) = inl e ->
         analyzeArgument b text model openRouterModel
         = (inl (ThrownError SyntaxError), [])).
Proof.
  unfold analyzeArgument. repeat split.
  - intros r ->. reflexivity.
  - intros e ->. reflexivity.
  - intros response e -> He. rewrite He.
    apply parse_error_SyntaxError in He as ->. reflexivity.
Qed.

Lemma request_failure_saves_nothing_witness :
  analyzeArgument (refusing_browser "Text is required") sky_text "openai" None
  = (inl (ThrownError (Error "Text is required")), []).
Proof.
  refine (proj1 (request_failure_saves_nothing
                   (refusing_browser "Text is required") sky_text "openai" None)
            {| ok := false; statusText := "Bad Request";
               bodyText := "Text is required" |} _).
  reflexivity.
Defined.

(** X19.  The result is saved before it is returned, inside the [try]
    block: when saving throws, the call throws too, although the backend
    had answered with a result. *)
Theorem save_failure_loses_result (b : Browser) (text model : string)
    (openRouterModel : option string) (response : Response)
    (result : JsValue) (error : Thrown) :
  apiRequest b "POST" "/api/analyze" (payload text model openRouterModel)
  = inr response ->
  JSON.parse (bodyText response) = inr result ->
  saveHistoryItem b text result (modelToSave model openRouterModel)
  = inl error ->
  exists thrown saved,
    analyzeArgument b text model openRouterModel = (inl thrown, saved)
    /\ thrown = client_rethrow error
    /\ saved = [ {| item_text := text; item_result := result;
                    item_model := modelToSave model openRouterModel |} ].
Proof.
  intros Hreq Hbody Hsave. unfold analyzeArgument.
  rewrite Hreq, Hbody, Hsave. eauto.
Qed.

Lemma save_failure_loses_result_witness :
  exists thrown saved,
    analyzeArgument full_browser sky_text "openai" None = (inl thrown, saved)
    /\ thrown = client_rethrow (ThrownError (Error "QuotaExceededError"))
    /\ saved = [ {| item_text := sky_text;
                    item_result := result_value sky_result;
                    item_model := modelToSave "openai" None |} ].
Proof.
  refine (save_failure_loses_result full_browser sky_text "openai" None
            {| ok := true; statusText := "OK"; bodyText := sky_reply |}
            (result_value sky_result)
            (ThrownError (Error "QuotaExceededError")) _ _ _).
  - reflexivity.
  - vm_compute. reflexivity.
  - reflexivity.
Defined.

Lemma openrouter_label (v : string) :
  "openrouter-" +:+ v
  = String "o" (String "p" (String "e" (String "n" (String "r" (String "o"
      (String "u" (String "t" (String "e" (String "r" (String "-" v)))))))))).
Proof. reflexivity. Qed.

Lemma variant_Some (o : option string) (v : string) :
  variant o = Some v -> v <> "".
Proof.
  unfold variant. destruct o as [u|]; [|discriminate].
  destruct (String.eqb_spec u ""); [discriminate|]. now intros [= <-].
Qed.

(** X20.  The history label is unambiguous on the models the client
    offers: two saves with the same label were made for the same model,
    and, for ["openrouter"], with the same variant. *)
Theorem history_label_unambiguous (model model' : string)
    (openRouterModel openRouterModel' : option string) :
  model ∈ client_models ->
  model' ∈ client_models ->
  modelToSave model openRouterModel = modelToSave model' openRouterModel' ->
  model = model'
  /\ (model = "openrouter" -> variant openRouterModel = variant openRouterModel').
Proof.
  assert (forall m o, m ∈ client_models ->
            (m <> "openrouter" /\ modelToSave m o = m)
            \/ (m = "openrouter" /\ variant o = None /\ modelToSave m o = m)
            \/ (exists v, m = "openrouter" /\ variant o = Some v
                          /\ modelToSave m o = "openrouter-" +:+ v)) as Hcases.
  { intros m o Hm. unfold modelToSave.
    destruct (String.eqb_spec m "openrouter") as [->|Hne].
    - destruct (variant o) as [v|]; [right; right; eauto|right; left; auto].
    - left. split; [exact Hne|]. now destruct (variant o). }
  intros Hm Hm' Heq.
  destruct (Hcases model openRouterModel Hm)
    as [(Hne & E) | [(-> & Hv & E) | (v & -> & Hv & E)]];
    destruct (Hcases model' openRouterModel' Hm')
      as [(Hne' & E') | [(-> & Hv' & E') | (v' & -> & Hv' & E')]];
    rewrite E, E' in Heq; clear E E'.
  - split; [exact Heq|]. intros ->. contradiction.
  - subst model. contradiction.
  - exfalso. subst model. rewrite openrouter_label in Hm.
    unfold client_models in Hm. rewrite !elem_of_cons, elem_of_nil in Hm.
    destruct Hm as [H | [H | [H | [H | []]]]]; discriminate H.
  - subst model'. contradiction.
  - split; [reflexivity|]. intros _. congruence.
  - exfalso. rewrite openrouter_label in Heq. discriminate Heq.
  - exfalso. subst model'. rewrite openrouter_label in Hm'.
    unfold client_models in Hm'. rewrite !elem_of_cons, elem_of_nil in Hm'.
    destruct Hm' as [H | [H | [H | [H | []]]]]; discriminate H.
  - exfalso. rewrite openrouter_label in Heq. discriminate Heq.
  - split; [reflexivity|]. intros _. rewrite Hv, Hv'.
    rewrite !openrouter_label in Heq. now injection Heq as ->.
Qed.

Lemma history_label_unambiguous_witness :
  "openrouter" = "openrouter"
  /\ ("openrouter" = "openrouter" ->
      variant (Some "mistralai/mistral-7b-instruct")
      = variant (Some "mistralai/mistral-7b-instruct")).
Proof.
  refine (history_label_unambiguous "openrouter" "openrouter"
            (Some "mistralai/mistral-7b-instruct")
            (Some "mistralai/mistral-7b-instruct") _ _ _).
  - unfold client_models. rewrite !elem_of_cons. auto.
  - unfold client_models. rewrite !elem_of_cons. auto.
  - reflexivity.
Defined.

(* ===================================================================== *)
(** ** The theme button of the header *)
(* ===================================================================== *)

(** X21.  The theme button: a click always leaves the theme ["dark"] or
    ["light"]; every click changes the icon shown; and two clicks bring
    back the theme exactly when it was ["dark"] or ["light"], any other
    theme (such as ["system"]) being left for good at the first click. *)
Theorem theme_button (theme : string) :
  (toggled theme = "dark" \/ toggled theme = "light")
  /\ icon (toggled theme) <> icon theme
  /\ (toggled (toggled theme) = theme <-> theme = "dark" \/ theme = "light").
Proof.
  unfold toggled, icon.
  destruct (String.eqb_spec theme "dark") as [->|Hd].
  - split; [right; reflexivity|]. split; [discriminate|].
    split; [intros _; left|intros _]; reflexivity.
  - split; [left; reflexivity|]. split; [discriminate|].
    change (String.eqb "dark" "dark") with true. cbn iota. split.
    + intros <-. right. reflexivity.
    + intros [H | ->]; [contradiction|reflexivity].
Qed.
(* ===================================================================== *)
(** ** Object texts on the three paths *)
(* ===================================================================== *)

(** *** Texts that differ in trailing white space *)

Lemma ws_char (c : ascii) :
  JSON.is_ws c = true ->
  c = "009"%char \/ c = "010"%char \/ c = "013"%char \/ c = " "%char.
Proof.
  destruct c as [[|] [|] [|] [|] [|] [|] [|] [|]]; intros H;
    try discriminate H; auto.
Qed.

Lemma blank_cons (c : ascii) (s : string) :
  blank (String c s) <-> JSON.is_ws c = true /\ blank s.
Proof.
  unfold blank. cbn [JSON.skip_ws].
  destruct (JSON.is_ws c); split; try tauto; try discriminate.
  intros [[=] _].
Qed.

Lemma skip_ws_head (s : string) (c : ascii) (r : string) :
  JSON.skip_ws s = String c r -> JSON.is_ws c = false.
Proof.
  induction s as [|a s IH]; cbn [JSON.skip_ws]; [discriminate|].
  destruct (JSON.is_ws a) eqn:Ea; [exact IH|]. now intros [= <- <-].
Qed.

Lemma trim_eq_cases (x x' : string) :
  trim_eq x x' ->
  (blank x /\ blank x')
  \/ exists c y y', x = String c y /\ x' = String c y' /\ trim_eq y y'.
Proof.
  intros [r r' H H'|c y y' H]; [left; split; assumption|right].
  exists c, y, y'. auto.
Qed.

Lemma trim_eq_refl (x : string) : trim_eq x x.
Proof. induction x; [now constructor|now constructor 2]. Qed.

Lemma trim_eq_sym (x x' : string) : trim_eq x x' -> trim_eq x' x.
Proof. induction 1; [now constructor|now constructor 2]. Qed.

Lemma trim_eq_app_blank (s r : string) : blank r -> trim_eq (s +:+ r) s.
Proof.
  intros Hr. induction s as [|c s IH].
  - now constructor.
  - now constructor 2.
Qed.

Lemma trim_eq_blank_l (x x' : string) : trim_eq x x' -> blank x -> blank x'.
Proof.
  induction 1 as [|c x x' _ IH]; [auto|].
  rewrite !blank_cons. intros [Hc Hx]. auto.
Qed.

Lemma trim_eq_head (c : ascii) (y x' : string) :
  trim_eq (String c y) x' -> JSON.is_ws c = false ->
  exists y', x' = String c y' /\ trim_eq y y'.
Proof.
  intros [[H _]|(c' & y0 & y' & [= <- <-] & -> & H)]%trim_eq_cases Hc.
  - apply blank_cons in H as [H _]. congruence.
  - eauto.
Qed.

Lemma trim_eq_skip_ws (x x' : string) :
  trim_eq x x' -> trim_eq (JSON.skip_ws x) (JSON.skip_ws x').
Proof.
  induction 1 as [r r' Hr Hr'|c x x' H IH].
  - unfold blank in *. rewrite Hr, Hr'. now constructor.
  - cbn [JSON.skip_ws]. destruct (JSON.is_ws c); [exact IH|now constructor 2].
Qed.

Lemma trim_eq_skip_String (x x' : string) (c : ascii) (y : string) :
  JSON.skip_ws x = String c y -> trim_eq x x' ->
  exists y', JSON.skip_ws x' = String c y' /\ trim_eq y y'.
Proof.
  intros E H%trim_eq_skip_ws. rewrite E in H.
  eapply trim_eq_head; [exact H|]. eapply skip_ws_head; exact E.
Qed.

(** *** Readers on texts that differ in trailing white space *)

Lemma blank_digits (s : string) (acc : N) (n : nat) :
  blank s -> JSON.digits s acc n = (acc, n, s).
Proof.
  destruct s as [|c r]; [reflexivity|]. intros [Hc _]%blank_cons.
  apply ws_char in Hc as [-> | [-> | [-> | ->]]]; reflexivity.
Qed.

Lemma trim_eq_digits (x x' : string) (acc : N) (n : nat) :
  trim_eq x x' ->
  exists r',
    JSON.digits x' acc n = ((JSON.digits x acc n).1, r')
    /\ trim_eq (JSON.digits x acc n).2 r'.
Proof.
  intros H. revert acc n.
  induction H as [r r' Hr Hr'|c x x' H IH]; intros acc n.
  - rewrite !blank_digits by assumption. exists r'.
    split; [reflexivity|now constructor].
  - cbn [JSON.digits]. destruct (JSON.digit_of c); [apply IH|].
    exists (String c x'). split; [reflexivity|now constructor 2].
Qed.

Lemma digit_not_ws (c : ascii) (d : N) :
  JSON.digit_of c = Some d -> JSON.is_ws c = false.
Proof.
  intros H. destruct (JSON.is_ws c) eqn:Ec; [|reflexivity].
  apply ws_char in Ec as [-> | [-> | [-> | ->]]]; discriminate H.
Qed.

Lemma hex_not_ws (c : ascii) (d : N) :
  JSON.hex_of c = Some d -> JSON.is_ws c = false.
Proof.
  intros H. destruct (JSON.is_ws c) eqn:Ec; [|reflexivity].
  apply ws_char in Ec as [-> | [-> | [-> | ->]]]; discriminate H.
Qed.

Lemma simple_escape_not_ws (c x : ascii) :
  JSON.simple_escape c = Some x -> JSON.is_ws c = false.
Proof.
  intros H. destruct (JSON.is_ws c) eqn:Ec; [|reflexivity].
  apply ws_char in Ec as [-> | [-> | [-> | ->]]]; discriminate H.
Qed.

Lemma hex4_not_ws (a b c d : ascii) (u : N) :
  JSON.hex4 a b c d = Some u ->
  JSON.is_ws a = false /\ JSON.is_ws b = false
  /\ JSON.is_ws c = false /\ JSON.is_ws d = false.
Proof.
  unfold JSON.hex4.
  destruct (JSON.hex_of a) eqn:Ea; [|discriminate].
  destruct (JSON.hex_of b) eqn:Eb; [|discriminate].
  destruct (JSON.hex_of c) eqn:Ec; [|discriminate].
  destruct (JSON.hex_of d) eqn:Ed; [|discriminate].
  intros _. repeat split; eapply hex_not_ws; eassumption.
Qed.

Lemma trim_eq_int_part (x x' : string) (m : N) (r : string) :
  JSON.int_part x = Some (m, r) -> trim_eq x x' ->
  exists r', JSON.int_part x' = Some (m, r') /\ trim_eq r r'.
Proof.
  intros E H. destruct x as [|c y]; [discriminate|].
  assert (JSON.is_ws c = false) as Hc.
  { unfold JSON.int_part in E.
    destruct (JSON.digit_of c) eqn:Ed; [|discriminate].
    eapply digit_not_ws; exact Ed. }
  destruct (trim_eq_head _ _ _ H Hc) as (y' & -> & Hy).
  unfold JSON.int_part in *.
  destruct (JSON.digit_of c) as [[|d]|]; [| |discriminate].
  - injection E as <- <-. eauto.
  - destruct (trim_eq_digits _ _ 0%N 0%nat (trim_eq_cons c _ _ Hy))
      as (r' & E' & Hr).
    rewrite E'. destruct (JSON.digits (String c y) 0 0) as [[m0 k] r0].
    cbn [fst snd] in *. injection E as <- <-. eauto.
Qed.

Lemma trim_eq_frac_part (m : N) (x x' : string) (res : N * nat) (r : string) :
  JSON.frac_part m x = Some (res, r) -> trim_eq x x' ->
  exists r', JSON.frac_part m x' = Some (res, r') /\ trim_eq r r'.
Proof.
  assert (forall s, blank s -> JSON.frac_part m s = Some (m, O, s)) as Hblank.
  { intros [|c s]; [reflexivity|]. intros [Hc _]%blank_cons.
    apply ws_char in Hc as [-> | [-> | [-> | ->]]]; reflexivity. }
  intros E H. revert E. destruct H as [r0 r0' Hr Hr'|c y y' Hy]; intros E.
  - rewrite (Hblank _ Hr) in E. injection E as <- <-.
    rewrite (Hblank _ Hr'). exists r0'. split; [reflexivity|now constructor].
  - unfold JSON.frac_part in *. destruct (Ascii.eqb c ".").
    + destruct (trim_eq_digits _ _ m 0%nat Hy) as (r' & E' & Hr).
      rewrite E'. destruct (JSON.digits y m 0) as [[m0 k] r0].
      cbn [fst snd] in *. destruct k; [discriminate|].
      injection E as <- <-. eauto.
    + injection E as <- <-. exists (String c y').
      split; [reflexivity|now constructor 2].
Qed.

Lemma trim_eq_exp_part (x x' : string) (e : Z) (r : string) :
  JSON.exp_part x = Some (e, r) -> trim_eq x x' ->
  exists r', JSON.exp_part x' = Some (e, r') /\ trim_eq r r'.
Proof.
  assert (forall s, blank s -> JSON.exp_part s = Some (0%Z, s)) as Hblank.
  { intros [|c s]; [reflexivity|]. intros [Hc _]%blank_cons.
    apply ws_char in Hc as [-> | [-> | [-> | ->]]]; reflexivity. }
  intros E H. revert E. destruct H as [r0 r0' Hr Hr'|c y y' Hy]; intros E.
  - rewrite (Hblank _ Hr) in E. injection E as <- <-.
    rewrite (Hblank _ Hr'). exists r0'. split; [reflexivity|now constructor].
  - unfold JSON.exp_part in *.
    destruct (Ascii.eqb c "e" || Ascii.eqb c "E").
    + assert (exists neg r1 r1',
                 match y with
                 | String sg r0 =>
                     if Ascii.eqb sg "-" then (true, r0)
                     else if Ascii.eqb sg "+" then (false, r0)
                     else (false, y)
                 | EmptyString => (false, y)
                 end = (neg, r1)
                 /\ match y' with
                    | String sg r0 =>
                        if Ascii.eqb sg "-" then (true, r0)
                        else if Ascii.eqb sg "+" then (false, r0)
                        else (false, y')
                    | EmptyString => (false, y')
                    end = (neg, r1')
                 /\ trim_eq r1 r1') as (neg & r1 & r1' & Hs & Hs' & H1).
      { assert (forall s, blank s ->
                  match s with
                  | String sg r0 =>
                      if Ascii.eqb sg "-" then (true, r0)
                      else if Ascii.eqb sg "+" then (false, r0)
                      else (false, s)
                  | EmptyString => (false, s)
                  end = (false, s)) as Hsign.
        { intros [|sg s]; [reflexivity|]. intros [Hc _]%blank_cons.
          apply ws_char in Hc as [-> | [-> | [-> | ->]]]; reflexivity. }
        destruct Hy as [r0 r0' Hr Hr'|sg y y' Hy].
        - rewrite (Hsign _ Hr), (Hsign _ Hr').
          exists false, r0, r0'. repeat split. now constructor.
        - destruct (Ascii.eqb sg "-"); [now exists true, y, y'|].
          destruct (Ascii.eqb sg "+"); [now exists false, y, y'|].
          exists false, (String sg y), (String sg y').
          repeat split. now constructor 2. }
      rewrite Hs in E. rewrite Hs'.
      destruct (trim_eq_digits _ _ 0%N 0%nat H1) as (r' & E' & Hr).
      rewrite E'. destruct (JSON.digits r1 0 0) as [[e0 k] r0].
      cbn [fst snd] in *. destruct k; [discriminate|].
      injection E as <- <-. eauto.
    + injection E as <- <-. exists (String c y').
      split; [reflexivity|now constructor 2].
Qed.

Lemma trim_eq_parse_number (x x' : string) (v : spec_float) (r : string) :
  JSON.parse_number x = JSON.Ok v r -> trim_eq x x' ->
  exists r', JSON.parse_number x' = JSON.Ok v r' /\ trim_eq r r'.
Proof.
  unfold JSON.parse_number. intros E H.
  assert (exists neg s1 s1',
             match x with
             | String c r0 => if Ascii.eqb c "-" then (true, r0) else (false, x)
             | EmptyString => (false, x)
             end = (neg, s1)
             /\ match x' with
                | String c r0 =>
                    if Ascii.eqb c "-" then (true, r0) else (false, x')
                | EmptyString => (false, x')
                end = (neg, s1')
             /\ trim_eq s1 s1') as (neg & s1 & s1' & Hs & Hs' & H1).
  { assert (forall s, blank s ->
              match s with
              | String c r0 =>
                  if Ascii.eqb c "-" then (true, r0) else (false, s)
              | EmptyString => (false, s)
              end = (false, s)) as Hsign.
    { intros [|sg s]; [reflexivity|]. intros [Hc _]%blank_cons.
      apply ws_char in Hc as [-> | [-> | [-> | ->]]]; reflexivity. }
    destruct H as [r0 r0' Hr Hr'|c y y' Hy].
    - rewrite (Hsign _ Hr), (Hsign _ Hr').
      exists false, r0, r0'. repeat split. now constructor.
    - destruct (Ascii.eqb c "-"); [now exists true, y, y'|].
      exists false, (String c y), (String c y').
      repeat split. now constructor 2. }
  rewrite Hs in E. rewrite Hs'.
  destruct (JSON.int_part s1) as [[m s2]|] eqn:E2; [|discriminate].
  destruct (trim_eq_int_part _ _ _ _ E2 H1) as (s2' & -> & H2).
  destruct (JSON.frac_part m s2) as [[[m' nfrac] s3]|] eqn:E3; [|discriminate].
  destruct (trim_eq_frac_part _ _ _ _ _ E3 H2) as (s3' & -> & H3).
  destruct (JSON.exp_part s3) as [[e s4]|] eqn:E4; [|discriminate].
  destruct (trim_eq_exp_part _ _ _ _ E4 H3) as (s4' & -> & H4).
  injection E as <- <-. eauto.
Qed.

Lemma trim_eq_strip_prefix (p x x' : string) :
  (forall c, JSON.is_ws c = true -> free_of c p) ->
  trim_eq x x' ->
  match JSON.strip_prefix p x, JSON.strip_prefix p x' with
  | Some r, Some r' => trim_eq r r'
  | None, None => True
  | _, _ => False
  end.
Proof.
  revert x x'. induction p as [|a p IH]; intros x x' Hfree H; [exact H|].
  assert (forall s, blank s -> JSON.strip_prefix (String a p) s = None)
    as Hblank.
  { intros [|c s]; [reflexivity|]. intros [Hc _]%blank_cons.
    cbn [JSON.strip_prefix].
    destruct (Ascii.eqb_spec a c) as [->|_]; [|reflexivity].
    now destruct (Hfree c Hc). }
  destruct H as [r r' Hr Hr'|c y y' Hy].
  - now rewrite (Hblank _ Hr), (Hblank _ Hr').
  - cbn [JSON.strip_prefix]. destruct (Ascii.eqb a c); [|exact I].
    apply IH; [|exact Hy]. intros b Hb. now destruct (Hfree b Hb).
Qed.

Lemma trim_eq_parse_literal (x x' : string) (v : JsValue) (r : string) :
  JSON.parse_literal x = JSON.Ok v r -> trim_eq x x' ->
  exists r', JSON.parse_literal x' = JSON.Ok v r' /\ trim_eq r r'.
Proof.
  intros E H. unfold JSON.parse_literal in *.
  assert (forall p, p = "true" \/ p = "false" \/ p = "null" ->
            forall c, JSON.is_ws c = true -> free_of c p) as Hfree.
  { intros p Hp c [-> | [-> | [-> | ->]]]%ws_char;
      destruct Hp as [-> | [-> | ->]]; cbn; repeat split; discriminate. }
  pose proof (trim_eq_strip_prefix "true" x x' (Hfree _ (or_introl eq_refl)) H)
    as Ht.
  pose proof (trim_eq_strip_prefix "false" x x'
                (Hfree _ (or_intror (or_introl eq_refl))) H) as Hf.
  pose proof (trim_eq_strip_prefix "null" x x'
                (Hfree _ (or_intror (or_intror eq_refl))) H) as Hn.
  destruct (JSON.strip_prefix "true" x), (JSON.strip_prefix "true" x');
    try contradiction.
  { injection E as <- <-. eauto. }
  destruct (JSON.strip_prefix "false" x), (JSON.strip_prefix "false" x');
    try contradiction.
  { injection E as <- <-. eauto. }
  destruct (JSON.strip_prefix "null" x), (JSON.strip_prefix "null" x');
    try contradiction; [|discriminate].
  injection E as <- <-. eauto.
Qed.

Lemma blank_parse_chars (s : string) : blank s -> JSON.parse_chars s = JSON.Bad.
Proof.
  induction s as [|c s IH]; [reflexivity|]. intros [Hc Hs]%blank_cons.
  cbn [JSON.parse_chars].
  apply ws_char in Hc as [-> | [-> | [-> | ->]]]; try reflexivity.
  change (JSON.prepend " " (JSON.parse_chars s) = JSON.Bad).
  now rewrite (IH Hs).
Qed.

Lemma surrogate_branch (u : N) (r2 : string) :
  match r2 with
  | String b (String u' (String l1 (String l2 (String l3 (String l4 r3))))) =>
      match JSON.low_surrogate_escape r2 with
      | Some (l, _) =>
          JSON.prepend
            (JSON.utf8 (65536 + (u - 55296) * 1024 + (l - 56320))%N)
            (JSON.parse_chars r3)
      | None => JSON.prepend (JSON.utf8 u) (JSON.parse_chars r2)
      end
  | _ => JSON.prepend (JSON.utf8 u) (JSON.parse_chars r2)
  end
  = match JSON.low_surrogate_escape r2 with
    | Some (l, r3) =>
        JSON.prepend
          (JSON.utf8 (65536 + (u - 55296) * 1024 + (l - 56320))%N)
          (JSON.parse_chars r3)
    | None => JSON.prepend (JSON.utf8 u) (JSON.parse_chars r2)
    end.
Proof.
  destruct r2 as [|b [|u' [|l1 [|l2 [|l3 [|l4 r3]]]]]]; try reflexivity.
  unfold JSON.low_surrogate_escape.
  destruct (Ascii.eqb b "\" && Ascii.eqb u' "u"); [|reflexivity].
  destruct (JSON.hex4 l1 l2 l3 l4) as [l|]; [|reflexivity].
  destruct (JSON.is_low_surrogate l); reflexivity.
Qed.

Lemma low_surrogate_escape_length (s : string) (l : N) (r : string) :
  JSON.low_surrogate_escape s = Some (l, r) ->
  (String.length r <= String.length s)%nat.
Proof.
  unfold JSON.low_surrogate_escape.
  destruct s as [|b [|u' [|l1 [|l2 [|l3 [|l4 r3]]]]]]; try discriminate.
  destruct (Ascii.eqb b "\" && Ascii.eqb u' "u"); [|discriminate].
  destruct (JSON.hex4 l1 l2 l3 l4) as [l0|]; [|discriminate].
  destruct (JSON.is_low_surrogate l0); [|discriminate].
  intros [= <- <-]. cbn. lia.
Qed.

Lemma trim_eq_low_surrogate_escape (x x' : string) (l : N) (r : string) :
  JSON.low_surrogate_escape x = Some (l, r) -> trim_eq x x' ->
  exists r', JSON.low_surrogate_escape x' = Some (l, r') /\ trim_eq r r'.
Proof.
  unfold JSON.low_surrogate_escape.
  destruct x as [|b [|u' [|l1 [|l2 [|l3 [|l4 r3]]]]]]; try discriminate.
  destruct (Ascii.eqb b "\" && Ascii.eqb u' "u") eqn:Ebu; [|discriminate].
  apply andb_prop in Ebu as [->%Ascii.eqb_eq ->%Ascii.eqb_eq].
  destruct (JSON.hex4 l1 l2 l3 l4) as [l0|] eqn:Eh; [|discriminate].
  destruct (JSON.is_low_surrogate l0) eqn:El; [|discriminate].
  intros [= <- <-] H.
  destruct (hex4_not_ws _ _ _ _ _ Eh) as (W1 & W2 & W3 & W4).
  apply trim_eq_head in H as (? & -> & H); [|reflexivity].
  apply trim_eq_head in H as (? & -> & H); [|reflexivity].
  apply trim_eq_head in H as (? & -> & H); [|exact W1].
  apply trim_eq_head in H as (? & -> & H); [|exact W2].
  apply trim_eq_head in H as (? & -> & H); [|exact W3].
  apply trim_eq_head in H as (r' & -> & H); [|exact W4].
  exists r'. split; [|exact H].
  change (Ascii.eqb "\" "\" && Ascii.eqb "u" "u") with true. cbn iota.
  now rewrite Eh, El.
Qed.

(** A string literal is read the same, whatever the white space at the
    end of the text. *)
Lemma trim_eq_parse_chars (x x' a r : string) :
  JSON.parse_chars x = JSON.Ok a r -> trim_eq x x' ->
  exists r', JSON.parse_chars x' = JSON.Ok a r' /\ trim_eq r r'.
Proof.
  assert (forall n x, (String.length x <= n)%nat ->
            forall x' a r,
              JSON.parse_chars x = JSON.Ok a r -> trim_eq x x' ->
              exists r', JSON.parse_chars x' = JSON.Ok a r' /\ trim_eq r r')
    as H; [|eapply H; eauto].
  clear. induction n as [|n IH]; intros x Hlen x' a r E H.
  { destruct x; [discriminate|cbn in Hlen; lia]. }
  destruct (trim_eq_cases _ _ H) as [[Hb _]|(c & s1 & s1' & -> & -> & H1)].
  { rewrite (blank_parse_chars _ Hb) in E. discriminate. }
  clear H. cbn [JSON.parse_chars] in E |- *. cbn [String.length] in Hlen.
  destruct (Ascii.eqb c (JSON.byte 34)).
  { injection E as <- <-. eauto. }
  assert (forall pre y y' a r,
            (String.length y <= n)%nat ->
            JSON.prepend pre (JSON.parse_chars y) = JSON.Ok a r ->
            trim_eq y y' ->
            exists r',
              JSON.prepend pre (JSON.parse_chars y') = JSON.Ok a r'
              /\ trim_eq r r') as Hpre.
  { intros pre y y' a0 r0 Hy (a' & E' & ->)%pmap_Ok Hyy.
    destruct (IH y Hy y' a' r0 E' Hyy) as (r' & -> & Hr).
    exists r'. split; [reflexivity|exact Hr]. }
  destruct (Ascii.eqb c "\").
  2:{ destruct (JSON.code c <? 32)%N; [discriminate|].
      eapply Hpre; eauto. lia. }
  destruct s1 as [|e s2]; [discriminate|]. cbn [String.length] in Hlen.
  destruct (Ascii.eqb e "u") eqn:Eu.
  2:{ destruct (JSON.simple_escape e) eqn:Ese; [|discriminate].
      apply trim_eq_head in H1 as (s2' & -> & H2);
        [|eapply simple_escape_not_ws; exact Ese].
      rewrite Eu, Ese. eapply Hpre; eauto. lia. }
  apply Ascii.eqb_eq in Eu as ->.
  apply trim_eq_head in H1 as (s2' & -> & H2); [|reflexivity].
  destruct s2 as [|h1 [|h2 [|h3 [|h4 s6]]]]; try discriminate.
  cbn [String.length] in Hlen.
  destruct (JSON.hex4 h1 h2 h3 h4) as [u|] eqn:Eh; [|discriminate].
  destruct (hex4_not_ws _ _ _ _ _ Eh) as (W1 & W2 & W3 & W4).
  apply trim_eq_head in H2 as (? & -> & H2); [|exact W1].
  apply trim_eq_head in H2 as (? & -> & H2); [|exact W2].
  apply trim_eq_head in H2 as (? & -> & H2); [|exact W3].
  apply trim_eq_head in H2 as (s6' & -> & H2); [|exact W4].
  change (Ascii.eqb "u" "u") with true. cbn iota. rewrite Eh.
  destruct (JSON.is_high_surrogate u); [|eapply Hpre; eauto; lia].
  rewrite surrogate_branch in E |- *.
  destruct (JSON.low_surrogate_escape s6) as [[l r3]|] eqn:El.
  - destruct (trim_eq_low_surrogate_escape _ _ _ _ El H2) as (r3' & -> & H3).
    apply low_surrogate_escape_length in El.
    eapply Hpre; eauto. lia.
  - destruct (JSON.low_surrogate_escape s6') as [[l r3']|] eqn:El'.
    + apply trim_eq_sym in H2.
      destruct (trim_eq_low_surrogate_escape _ _ _ _ El' H2) as (? & El2 & _).
      congruence.
    + eapply Hpre; eauto. lia.
Qed.

Lemma number_start_not_ws (c : ascii) :
  JSON.is_number_start c = true -> JSON.is_ws c = false.
Proof.
  intros H. destruct (JSON.is_ws c) eqn:Ec; [|reflexivity].
  apply ws_char in Ec as [-> | [-> | [-> | ->]]]; discriminate H.
Qed.

Lemma parse_value_head (fuel : nat) (c : ascii) (y : string) (v : JsValue)
    (r : string) :
  JSON.parse_value fuel (String c y) = JSON.Ok v r -> JSON.is_ws c = false.
Proof.
  destruct fuel as [|f]; [discriminate|]. intros H.
  destruct (JSON.is_ws c) eqn:Ec; [|reflexivity].
  apply ws_char in Ec as [-> | [-> | [-> | ->]]]; discriminate H.
Qed.

(** A value is read the same, whatever the white space at the end of the
    text. *)
Lemma trim_eq_parse_value (fuel : nat) :
  (forall x x' v r,
      JSON.parse_value fuel x = JSON.Ok v r -> trim_eq x x' ->
      exists r', JSON.parse_value fuel x' = JSON.Ok v r' /\ trim_eq r r')
  /\ (forall x x' vs r,
         JSON.parse_elements fuel x = JSON.Ok vs r -> trim_eq x x' ->
         exists r', JSON.parse_elements fuel x' = JSON.Ok vs r' /\ trim_eq r r')
  /\ (forall x x' acc m r,
         JSON.parse_members fuel x acc = JSON.Ok m r -> trim_eq x x' ->
         exists r',
           JSON.parse_members fuel x' acc = JSON.Ok m r' /\ trim_eq r r').
Proof.
  induction fuel as [|f (IHv & IHe & IHm)].
  { repeat split; intros; discriminate. }
  split; [|split].
  - intros x x' v r E H. destruct x as [|c r0]; [discriminate|].
    pose proof (parse_value_head _ _ _ _ _ E) as Hc.
    apply trim_eq_head in H as (r0' & -> & H0); [|exact Hc].
    cbn [JSON.parse_value] in E |- *.
    destruct (Ascii.eqb c "{").
    { destruct (JSON.skip_ws r0) as [|c' r'] eqn:Ews; [discriminate|].
      destruct (trim_eq_skip_String _ _ _ _ Ews H0) as (r'' & -> & H1).
      destruct (Ascii.eqb c' "}").
      - injection E as <- <-. eauto.
      - apply pmap_Ok in E as (m & E & ->).
        destruct (IHm _ _ _ _ _ E (trim_eq_cons c' _ _ H1)) as (t & -> & Ht).
        exists t. split; [reflexivity|exact Ht]. }
    destruct (Ascii.eqb c "[").
    { destruct (JSON.skip_ws r0) as [|c' r'] eqn:Ews; [discriminate|].
      destruct (trim_eq_skip_String _ _ _ _ Ews H0) as (r'' & -> & H1).
      destruct (Ascii.eqb c' "]").
      - injection E as <- <-. eauto.
      - apply pmap_Ok in E as (vs & E & ->).
        destruct (IHe _ _ _ _ E (trim_eq_cons c' _ _ H1)) as (t & -> & Ht).
        exists t. split; [reflexivity|exact Ht]. }
    destruct (Ascii.eqb c (JSON.byte 34)).
    { apply pmap_Ok in E as (a & E & ->).
      destruct (trim_eq_parse_chars _ _ _ _ E H0) as (t & -> & Ht).
      exists t. split; [reflexivity|exact Ht]. }
    destruct (JSON.is_number_start c).
    { apply pmap_Ok in E as (a & E & ->).
      destruct (trim_eq_parse_number _ _ _ _ E (trim_eq_cons c _ _ H0))
        as (t & -> & Ht).
      exists t. split; [reflexivity|exact Ht]. }
    exact (trim_eq_parse_literal _ _ _ _ E (trim_eq_cons c _ _ H0)).
  - intros x x' vs r E H. cbn [JSON.parse_elements] in E |- *.
    destruct (JSON.parse_value f (JSON.skip_ws x)) as [v r1| |] eqn:Ev;
      try discriminate.
    destruct (IHv _ _ _ _ Ev (trim_eq_skip_ws _ _ H)) as (r1' & -> & H1).
    destruct (JSON.skip_ws r1) as [|c r2] eqn:Ews; [discriminate|].
    destruct (trim_eq_skip_String _ _ _ _ Ews H1) as (r2' & -> & H2).
    destruct (Ascii.eqb c ",").
    + apply pmap_Ok in E as (vs' & E & ->).
      destruct (IHe _ _ _ _ E H2) as (t & -> & Ht).
      exists t. split; [reflexivity|exact Ht].
    + destruct (Ascii.eqb c "]"); [|discriminate].
      injection E as <- <-. eauto.
  - intros x x' acc m r E H. cbn [JSON.parse_members] in E |- *.
    destruct (JSON.skip_ws x) as [|q r0] eqn:E0; [discriminate|].
    destruct (trim_eq_skip_String _ _ _ _ E0 H) as (r0' & -> & H0).
    destruct (Ascii.eqb q (JSON.byte 34)); [|discriminate].
    destruct (JSON.parse_chars r0) as [k r1| |] eqn:Ek; try discriminate.
    destruct (trim_eq_parse_chars _ _ _ _ Ek H0) as (r1' & -> & H1).
    destruct (JSON.skip_ws r1) as [|c r2] eqn:E1; [discriminate|].
    destruct (trim_eq_skip_String _ _ _ _ E1 H1) as (r2' & -> & H2).
    destruct (Ascii.eqb c ":"); [|discriminate].
    destruct (JSON.parse_value f (JSON.skip_ws r2)) as [v r3| |] eqn:Ev;
      try discriminate.
    destruct (IHv _ _ _ _ Ev (trim_eq_skip_ws _ _ H2)) as (r3' & -> & H3).
    destruct (JSON.skip_ws r3) as [|d r4] eqn:E3; [discriminate|].
    destruct (trim_eq_skip_String _ _ _ _ E3 H3) as (r4' & -> & H4).
    destruct (Ascii.eqb d ",").
    + exact (IHm _ _ _ _ _ E H4).
    + destruct (Ascii.eqb d "}"); [|discriminate].
      injection E as <- <-. eauto.
Qed.

(** *** More fuel changes nothing *)

Lemma parse_value_more_fuel (fuel : nat) :
  (forall fuel' s,
      (fuel <= fuel')%nat -> JSON.parse_value fuel s <> JSON.OutOfFuel ->
      JSON.parse_value fuel' s = JSON.parse_value fuel s)
  /\ (forall fuel' s,
         (fuel <= fuel')%nat -> JSON.parse_elements fuel s <> JSON.OutOfFuel ->
         JSON.parse_elements fuel' s = JSON.parse_elements fuel s)
  /\ (forall fuel' s acc,
         (fuel <= fuel')%nat ->
         JSON.parse_members fuel s acc <> JSON.OutOfFuel ->
         JSON.parse_members fuel' s acc = JSON.parse_members fuel s acc).
Proof.
  induction fuel as [|f (IHv & IHe & IHm)].
  { repeat split; intros; now cbn in *. }
  split; [|split].
  - intros [|f'] s Hle; [lia|]. apply le_S_n in Hle.
    cbn [JSON.parse_value]. destruct s as [|c r0]; [reflexivity|].
    destruct (Ascii.eqb c "{").
    { destruct (JSON.skip_ws r0) as [|c' r']; [reflexivity|].
      destruct (Ascii.eqb c' "}"); [reflexivity|].
      intros H. rewrite IHm; [reflexivity|exact Hle|].
      intros E. now rewrite E in H. }
    destruct (Ascii.eqb c "[").
    { destruct (JSON.skip_ws r0) as [|c' r']; [reflexivity|].
      destruct (Ascii.eqb c' "]"); [reflexivity|].
      intros H. rewrite IHe; [reflexivity|exact Hle|].
      intros E. now rewrite E in H. }
    reflexivity.
  - intros [|f'] s Hle; [lia|]. apply le_S_n in Hle.
    cbn [JSON.parse_elements]. intros H.
    rewrite (IHv f' _ Hle) by (intros E; now rewrite E in H).
    destruct (JSON.parse_value f (JSON.skip_ws s)) as [v r1| |];
      try reflexivity.
    destruct (JSON.skip_ws r1) as [|c r2]; [reflexivity|].
    destruct (Ascii.eqb c ","); [|reflexivity].
    rewrite IHe; [reflexivity|exact Hle|].
    intros E. now rewrite E in H.
  - intros [|f'] s acc Hle; [lia|]. apply le_S_n in Hle.
    cbn [JSON.parse_members]. intros H.
    destruct (JSON.skip_ws s) as [|q r0]; [reflexivity|].
    destruct (Ascii.eqb q (JSON.byte 34)); [|reflexivity].
    destruct (JSON.parse_chars r0) as [k r1| |]; try reflexivity.
    destruct (JSON.skip_ws r1) as [|c r2]; [reflexivity|].
    destruct (Ascii.eqb c ":"); [|reflexivity].
    rewrite (IHv f' _ Hle) by (intros E; now rewrite E in H).
    destruct (JSON.parse_value f (JSON.skip_ws r2)) as [v r3| |];
      try reflexivity.
    destruct (JSON.skip_ws r3) as [|d r4]; [reflexivity|].
    destruct (Ascii.eqb d ","); [|reflexivity].
    now apply IHm.
Qed.

(** *** The brace span of a text that is an object *)

Lemma skip_ws_split (s : string) :
  exists pre,
    s = pre +:+ JSON.skip_ws s
    /\ forall c, JSON.is_ws c = false -> free_of c pre.
Proof.
  induction s as [|a s (pre & Hs & Hpre)].
  { exists "". split; [reflexivity|]. intros; exact I. }
  cbn [JSON.skip_ws]. destruct (JSON.is_ws a) eqn:Ea.
  - exists (String a pre). rewrite append_String. split; [congruence|].
    intros c Hc. split; [congruence|auto].
  - exists "". split; [reflexivity|]. intros; exact I.
Qed.

Lemma blank_free_of (c : ascii) (r : string) :
  JSON.is_ws c = false -> blank r -> free_of c r.
Proof.
  intros Hc. induction r as [|a r IH]; [intros; exact I|].
  intros [Ha Hr]%blank_cons. split; [congruence|auto].
Qed.

Lemma append_length (a b : string) :
  String.length (a +:+ b) = (String.length a + String.length b)%nat.
Proof.
  induction a as [|c a IH]; [reflexivity|].
  rewrite append_String. cbn [String.length]. now rewrite IH.
Qed.

Lemma append_close (mid r : string) :
  (mid +:+ "}") +:+ r = mid +:+ String "}" r.
Proof.
  induction mid as [|c mid IH]; [reflexivity|].
  now rewrite !append_String, IH.
Qed.

(** A text that [JSON.parse] reads as an object is that object's text
    between white space: its brace span is the text without the white
    space, and parses to the same object. *)
Lemma parse_object_span (content : string) (m : gmap string JsValue) :
  JSON.parse content = inr (JObject m) ->
  exists span,
    match_braces content = Some span /\ JSON.parse span = inr (JObject m).
Proof.
  unfold JSON.parse at 1.
  destruct (JSON.parse_value _ (JSON.skip_ws content)) as [v r| |] eqn:Ev;
    try discriminate.
  destruct (JSON.skip_ws r) eqn:Er; [|discriminate]. intros [= ->].
  destruct (proj1 (parse_value_suffix _) _ _ _ Ev) as [_ Hobj].
  destruct (Hobj m eq_refl) as (s' & Hs & (mid & ->)%suffix_of_app).
  destruct (skip_ws_split content) as (pre & Hc & Hpre).
  rewrite Hs in Hc, Ev. rewrite <- append_close in Hc, Ev.
  rewrite <- append_String in Hc, Ev.
  exists (String "{" (mid +:+ "}")). split.
  - rewrite Hc at 1.
    apply match_braces_span; [now apply Hpre|now apply blank_free_of].
  - destruct (proj1 (trim_eq_parse_value _) _ _ _ _ Ev
                (trim_eq_app_blank _ r Er)) as (r' & Ev' & Hr).
    pose proof (trim_eq_blank_l _ _ Hr Er) as Er'.
    unfold JSON.parse.
    change (JSON.skip_ws (String "{" (mid +:+ "}")))
      with (String "{" (mid +:+ "}")).
    rewrite (proj1 (parse_value_more_fuel
                      (2 * String.length (String "{" (mid +:+ "}")) + 1)%nat))
      in Ev'.
    + rewrite Ev', Er'. reflexivity.
    + rewrite Hc, !append_length. lia.
    + apply (proj1 (parse_value_fuel _)). lia.
Qed.

(** On a content that is the text of an object every path reads that
    object: the extraction of the Gemini path changes nothing. *)
Lemma from_content_object (p : Provider) (content : string)
    (m : gmap string JsValue) :
  JSON.parse content = inr (JObject m) ->
  from_content p (JString content) = inr (JObject m).
Proof.
  intros Hparse. unfold from_content.
  assert (content <> "") as Hne by (intros ->; discriminate Hparse).
  rewrite (delivers_truthy _ Hne).
  destruct p; try exact Hparse.
  cbn [content_match].
  destruct (parse_object_span _ _ Hparse) as (span & -> & Hspan).
  exact Hspan.
Qed.

(** X22.  A content that is the text of a JSON object, with or without
    white space around it, is treated alike on the three paths: each
    returns the schema's verdict on that object.  The brace extraction of
    the Gemini path finds exactly the object text, so it changes nothing
    there. *)
Theorem object_content_same_on_all_paths (w : World) (p : Provider)
    (text content : string) (m : gmap string JsValue) (calls : list Request) :
  receives w p text (JString content) calls ->
  JSON.parse content = inr (JObject m) ->
  run (analyzeArgumentWithAI w text (model_of p))
  = (match z.safeParse aiResponseSchema (JObject m) with
     | Some r => inr r
     | None => inl (invalid_format p)
     end, calls).
Proof.
  intros Hr Hparse. rewrite (receives_run _ _ _ _ _ Hr).
  now rewrite (from_content_object _ _ _ Hparse).
Qed.

Lemma object_content_same_on_all_paths_witness :
  run (analyzeArgumentWithAI padded_world sky_text "gemini")
  = (match z.safeParse aiResponseSchema
             (JObject (props_of (parsed sky_reply))) with
     | Some r => inr r
     | None => inl (invalid_format Gemini)
     end, gemini_calls).
Proof.
  refine (object_content_same_on_all_paths padded_world Gemini sky_text
            padded_reply (props_of (parsed sky_reply)) gemini_calls _ _).
  - exists "gm-test". split; [vm_compute; reflexivity|].
    split; [reflexivity|].
    eexists _, _. split; [reflexivity|]. split; [reflexivity|].
    split; vm_compute; reflexivity.
  - vm_compute. reflexivity.
Defined.

(** X23.  The Gemini path accepts whatever the OpenAI and DeepSeek paths
    accept: a content on which one of these two returns a result gives
    the same result on the Gemini path. *)
Theorem gemini_accepts_what_chat_paths_accept (w w' : World) (p : Provider)
    (text text' content : string) (r : JsValue)
    (calls calls' : list Request) :
  p <> Gemini ->
  receives w p text (JString content) calls ->
  run (analyzeArgumentWithAI w text (model_of p)) = (inr r, calls) ->
  receives w' Gemini text' (JString content) calls' ->
  run (analyzeArgumentWithAI w' text' "gemini") = (inr r, calls').
Proof.
  intros Hp Hr Hrun Hr'.
  rewrite (receives_run _ _ _ _ _ Hr) in Hrun.
  rewrite (receives_run _ _ _ _ _ Hr' :
             run (analyzeArgumentWithAI w' text' "gemini") = _).
  assert (exists m, JSON.parse content = inr (JObject m)
                    /\ z.safeParse aiResponseSchema (JObject m) = Some r)
    as (m & Hparse & Hv).
  { unfold from_content in Hrun.
    destruct (truthy (JString content)); [|destruct p; discriminate Hrun].
    assert (verdict p (JSON.parse content) = inr r) as Hverdict
      by (destruct p; [| |contradiction]; injection Hrun as Hrun;
          exact Hrun).
    unfold verdict in Hverdict.
    destruct (JSON.parse content) as [e|v]; [discriminate|].
    destruct (z.safeParse aiResponseSchema v) as [r0|] eqn:Hv;
      [|discriminate].
    injection Hverdict as ->.
    unfold aiResponseSchema in Hv. rewrite safeParse_object in Hv.
    destruct v; try discriminate Hv.
    eexists. split; [reflexivity|].
    unfold aiResponseSchema. rewrite safeParse_object. exact Hv. }
  rewrite (from_content_object _ _ _ Hparse). unfold verdict.
  now rewrite Hv.
Qed.

Lemma gemini_accepts_what_chat_paths_accept_witness :
  run (analyzeArgumentWithAI padded_world sky_text "gemini")
  = (inr (result_value sky_result), gemini_calls).
Proof.
  refine (gemini_accepts_what_chat_paths_accept padded_world padded_world
            DeepSeek sky_text sky_text padded_reply (result_value sky_result)
            deepseek_calls gemini_calls _ _ _ _).
  - discriminate.
  - exists "ds-test". split; [vm_compute; reflexivity|].
    split; [reflexivity|].
    eexists _, _. split; [reflexivity|]. split; [reflexivity|].
    split; vm_compute; reflexivity.
  - vm_compute. reflexivity.
  - exists "gm-test". split; [vm_compute; reflexivity|].
    split; [reflexivity|].
    eexists _, _. split; [reflexivity|]. split; [reflexivity|].
    split; vm_compute; reflexivity.
Defined.
